(** * keychain-pkcs11: the session and object engine of [keychain_pkcs11.c]

    A shallow embedding of the Cryptoki driver in [src/keychain_pkcs11.c]:
    the object builder, the attribute store and the search engine, the
    mechanism-parameter validator, the per-session operation state machine,
    and the slot / token / session registries with their reference counts.

    Conventions used throughout.
    - C unsigned integers are [Z] values; where the code can wrap
      (handle decrement, [--refcount]) the wrap-around is written out.
    - Arrays are lists; an array that the code only reads after it has been
      published (a token's object list) is shared by value.
    - [NULL] pointers are [None]; [malloc] is taken to succeed, as the
      code itself never tests its result.
    - Mutexes are not modelled: every entry point is embedded as the
      sequential function it is while it holds its locks.
    - Everything the driver obtains from the Security framework, from
      [certutil.c], [ccglue.c], [localauth.m] and [tables.h] is a method of
      the [Host] interface below, so every theorem holds for every host. *)

From Stdlib Require Import ZArith Lia List Bool.
From Stdlib Require Strings.Byte.
From stdpp Require Import base option list gmap.

Local Open Scope Z_scope.

(** ** Bytes *)

Abbreviation byte := Byte.byte.

#[global] Instance byte_eq_dec : EqDecision byte := Byte.byte_eq_dec.

(** Conversion of an integer to [unsigned char]: the low eight bits. *)
Definition byte_of_Z (z : Z) : byte :=
  match Byte.of_N (Z.to_N (z mod 256)) with
  | Some b => b
  | None => Byte.x00
  end.

Definition Z_of_byte (b : byte) : Z := Z.of_N (Byte.to_N b).

(** Big-endian value of a byte string. *)
Definition be_value (bs : list byte) : Z :=
  fold_left (fun acc b => acc * 256 + Z_of_byte b) bs 0.

(** Little-endian image of an [n]-byte integer object (the hosts this
    driver runs on, x86-64 and arm64 macOS, are little-endian LP64). *)
Fixpoint le_bytes (n : nat) (z : Z) : list byte :=
  match n with
  | O => []
  | S n' => byte_of_Z z :: le_bytes n' (z / 256)
  end.

(** ** Cryptoki constants ([pkcs11t.h], PKCS #11 v2.40) *)

Definition CK_ULONG_MAX : Z := 2 ^ 64 - 1.
Definition CK_UNAVAILABLE_INFORMATION : Z := CK_ULONG_MAX.
Definition UINT_MODULUS : Z := 2 ^ 32.
Definition sizeof_unsigned_int : nat := 4.
Definition sizeof_CK_ULONG : nat := 8.
Definition sizeof_CK_BBOOL : nat := 1.

Definition CKO_CERTIFICATE : Z := 1.
Definition CKO_PUBLIC_KEY : Z := 2.
Definition CKO_PRIVATE_KEY : Z := 3.
Definition CKO_NSS_TRUST : Z := 0xCE534353.

Definition CKC_X_509 : Z := 0.
Definition CK_TRUE : Z := 1.
Definition CK_FALSE : Z := 0.

Definition CKA_CLASS : Z := 0x0.
Definition CKA_TOKEN : Z := 0x1.
Definition CKA_PRIVATE : Z := 0x2.
Definition CKA_LABEL : Z := 0x3.
Definition CKA_VALUE : Z := 0x11.
Definition CKA_CERTIFICATE_TYPE : Z := 0x80.
Definition CKA_ISSUER : Z := 0x81.
Definition CKA_SERIAL_NUMBER : Z := 0x82.
Definition CKA_KEY_TYPE : Z := 0x100.
Definition CKA_SUBJECT : Z := 0x101.
Definition CKA_ID : Z := 0x102.
Definition CKA_SENSITIVE : Z := 0x103.
Definition CKA_ENCRYPT : Z := 0x104.
Definition CKA_DECRYPT : Z := 0x105.
Definition CKA_WRAP : Z := 0x106.
Definition CKA_UNWRAP : Z := 0x107.
Definition CKA_SIGN : Z := 0x108.
Definition CKA_VERIFY : Z := 0x10A.
Definition CKA_DERIVE : Z := 0x10C.
Definition CKA_MODULUS : Z := 0x120.
Definition CKA_MODULUS_BITS : Z := 0x121.
Definition CKA_PUBLIC_EXPONENT : Z := 0x122.
Definition CKA_EXTRACTABLE : Z := 0x162.
Definition CKA_LOCAL : Z := 0x163.
Definition CKA_NEVER_EXTRACTABLE : Z := 0x164.
Definition CKA_ALWAYS_SENSITIVE : Z := 0x165.
Definition CKA_ALWAYS_AUTHENTICATE : Z := 0x202.

(** Vendor-defined attributes and values of the NSS trust objects. *)
Definition CKA_TRUST_SERVER_AUTH : Z := 0xCE536358.
Definition CKA_TRUST_CLIENT_AUTH : Z := 0xCE536359.
Definition CKA_TRUST_CODE_SIGNING : Z := 0xCE53635A.
Definition CKA_TRUST_EMAIL_PROTECTION : Z := 0xCE53635B.
Definition CKA_CERT_SHA1_HASH : Z := 0xCE5363B4.
Definition CKT_NSS_TRUSTED_DELEGATOR : Z := 0xCE534352.
Definition CKM_SHA_1 : Z := 0x220.

Definition CKF_SERIAL_SESSION : Z := 0x4.
Definition CKF_ENCRYPT : Z := 0x100.
Definition CKF_DECRYPT : Z := 0x200.
Definition CKF_SIGN : Z := 0x800.
Definition CKF_VERIFY : Z := 0x2000.

Definition CKZ_DATA_SPECIFIED : Z := 1.

(** [sizeof(CK_RSA_PKCS_OAEP_PARAMS)]: three [CK_ULONG], a pointer, a
    [CK_ULONG]; [sizeof(CK_RSA_PKCS_PSS_PARAMS)]: three [CK_ULONG]. *)
Definition sizeof_oaep : Z := 40.
Definition sizeof_pss : Z := 24.

Definition CERTIFICATE_SLOT : Z := 254.

(** The return codes the driver produces. *)
Inductive CK_RV : Set :=
  | CKR_OK
  | CKR_GENERAL_ERROR
  | CKR_FUNCTION_FAILED
  | CKR_ARGUMENTS_BAD
  | CKR_SLOT_ID_INVALID
  | CKR_TOKEN_NOT_PRESENT
  | CKR_ATTRIBUTE_TYPE_INVALID
  | CKR_DATA_LEN_RANGE
  | CKR_KEY_HANDLE_INVALID
  | CKR_KEY_TYPE_INCONSISTENT
  | CKR_KEY_FUNCTION_NOT_PERMITTED
  | CKR_MECHANISM_INVALID
  | CKR_MECHANISM_PARAM_INVALID
  | CKR_OBJECT_HANDLE_INVALID
  | CKR_OPERATION_ACTIVE
  | CKR_OPERATION_NOT_INITIALIZED
  | CKR_SESSION_HANDLE_INVALID
  | CKR_SESSION_PARALLEL_NOT_SUPPORTED
  | CKR_SIGNATURE_INVALID
  | CKR_BUFFER_TOO_SMALL
  | CKR_CRYPTOKI_NOT_INITIALIZED
  | CKR_CRYPTOKI_ALREADY_INITIALIZED
  | CKR_PIN_INCORRECT.

#[global] Instance CK_RV_eq_dec : EqDecision CK_RV.
Proof. solve_decision. Defined.

Definition CKS_RO_PUBLIC_SESSION : Z := 0.
Definition CKS_RO_USER_FUNCTIONS : Z := 1.

(** ** Data model *)

(** Opaque host references ([SecKeyRef], [SecCertificateRef], ...) are
    numbers that only the host interprets. *)
Definition SecKeyRef := Z.
Definition SecCertificateRef := Z.
Definition SecAccessControlRef := Z.
Definition SecKeyAlgorithm := Z.
Definition CFStringRef := Z.
Definition LAContext := Z.

(** [struct id_info]. [id_label] is the C string without its terminator. *)
Record id_info := {
  id_ident : Z;
  id_cert : SecCertificateRef;
  id_privkey : SecKeyRef;
  id_pubkey : SecKeyRef;
  id_pkeyhash : list byte;
  id_keytype : Z;
  id_secaccess : SecAccessControlRef;
  id_label : list byte;
  privcansign : bool;
  privcandecrypt : bool;
  pubcanverify : bool;
  pubcanencrypt : bool;
  pubcanwrap : bool
}.

(** [CK_ATTRIBUTE]: [pValue = None] is the null pointer, [Some v] a
    pointer to the bytes [v]. *)
Record CK_ATTRIBUTE := {
  type : Z;
  pValue : option (list byte);
  ulValueLen : Z
}.

#[global] Instance CK_ATTRIBUTE_eq_dec : EqDecision CK_ATTRIBUTE.
Proof. solve_decision. Defined.

(** [struct obj_info]; [attr_count] is [length obj_attrs]. *)
Record obj_info := {
  obj_id : option id_info;
  obj_class : Z;
  obj_attrs : list CK_ATTRIBUTE
}.

(** ** [get_index_bytes] *)

(** The first loop: [for (i = sizeof(index); i > 1; i--) if ((index >>
    ((i - 1) * 8)) != 0) break;] and [length = i]. *)
Fixpoint index_length (i : nat) (index : Z) : nat :=
  match i with
  | O => O
  | S O => 1%nat
  | S i' =>
      if negb (Z.shiftr index (Z.of_nat i' * 8) =? 0) then i
      else index_length i' index
  end.

(** The second loop: [bytes[i] = (index >> ((length - i - 1) * 8)) & 0xff]
    for [i = 0 .. length - 1]. *)
Definition get_index_bytes (index : Z) : list byte :=
  let length := index_length sizeof_unsigned_int index in
  map (fun i : nat =>
         byte_of_Z (Z.land (Z.shiftr index (Z.of_nat (length - i - 1) * 8)) 255))
      (seq 0 length).

(** ** The host interface

    [tables.h] supplies the two static tables; their rows are modelled
    with the fields [keychain_pkcs11.c] reads. A [SecKeyAlgorithm *] that
    may be null is an [option]. *)

Inductive param_type : Set := NONE | OAEP | PSS.

Record mechanism_map := {
  cki_mech : Z;
  usage_flags : Z;
  blocksize_out : bool;
  parameters : param_type;
  sec_encmech : option SecKeyAlgorithm;
  sec_signmech : option SecKeyAlgorithm;
  sec_dsignmech : option SecKeyAlgorithm;
  sec_digest : Z
}.

Record param_map := {
  base_type : Z;
  hash_alg : Z;
  mgf : Z;
  slen : Z;
  encalg : option SecKeyAlgorithm;
  signalg : option SecKeyAlgorithm;
  dsignalg : option SecKeyAlgorithm
}.

Inductive la_keyusage : Set := USAGE_SIGN | USAGE_DECRYPT.

(** A running digest: the hash mechanism it was created for and the data
    fed so far ([ccglue.c] keeps a CommonCrypto context instead). *)
Record md_context := {
  md_mech : Z;
  md_data : list byte
}.

Class Platform := {
  (* Security framework; the key and algorithm arguments of the four
     crypto primitives are the session's fields, which may be NULL *)
  SecCertificateCopyData : SecCertificateRef -> list byte;
  SecKeyGetBlockSize : SecKeyRef -> Z;
  SecKeyCopyExternalRepresentation : SecKeyRef -> option (list byte);
  SecKeyCreateEncryptedData :
    option SecKeyRef -> option SecKeyAlgorithm -> list byte ->
    option (list byte);
  SecKeyCreateDecryptedData :
    option SecKeyRef -> option SecKeyAlgorithm -> list byte ->
    option (list byte);
  SecKeyCreateSignature :
    option SecKeyRef -> option SecKeyAlgorithm -> list byte ->
    option (list byte);
  SecKeyVerifySignature :
    option SecKeyRef -> option SecKeyAlgorithm -> list byte -> list byte ->
    bool;
  getkeylabel : SecKeyRef -> list byte;
  SecCertificateCopySubjectSummary : SecCertificateRef -> list byte;
  (* certutil.c: serial, issuer, subject; success flag, modulus, exponent *)
  get_certificate_info :
    list byte -> option (list byte) * option (list byte) * option (list byte);
  get_pubkey_info :
    list byte -> bool * option (list byte) * option (list byte);
  is_cert_ca : SecCertificateRef -> bool;
  (* ccglue.c *)
  cc_md_supported : Z -> bool;
  cc_digest : Z -> list byte -> list byte;
  (* localauth.m *)
  lacontext_auth :
    LAContext -> list byte -> SecAccessControlRef -> la_keyusage -> CK_RV;
  (* tables.h *)
  keychain_mechmap : list mechanism_map;
  keychain_param_map : list param_map
}.

Definition cc_md_init `{Platform} (mech : Z) : option md_context :=
  if cc_md_supported mech then Some {| md_mech := mech; md_data := [] |}
  else None.

Definition cc_md_update (mdc : md_context) (data : list byte) : md_context :=
  {| md_mech := md_mech mdc; md_data := md_data mdc ++ data |}.

Definition cc_md_final `{Platform} (mdc : md_context) : list byte :=
  cc_digest (md_mech mdc) (md_data mdc).

(** ** The object builder *)

(** [ADD_ATTR_SIZE]: copy [size] bytes of [var] into fresh storage and
    append the attribute to the object under construction. Every call site
    passes the length of [var] as [size]. *)
Definition ADD_ATTR_SIZE (o : obj_info) (attribute : Z) (var : list byte)
  : obj_info :=
  {| obj_id := obj_id o;
     obj_class := obj_class o;
     obj_attrs := obj_attrs o ++
       [ {| type := attribute; pValue := Some var;
            ulValueLen := Z.of_nat (length var) |} ] |}.

(** [ADD_ATTR] on a [CK_ULONG]-sized variable and on a [CK_BBOOL]. *)
Definition ADD_ATTR_ULONG (o : obj_info) (attr : Z) (var : Z) : obj_info :=
  ADD_ATTR_SIZE o attr (le_bytes sizeof_CK_ULONG var).

Definition ADD_ATTR_BBOOL (o : obj_info) (attr : Z) (var : Z) : obj_info :=
  ADD_ATTR_SIZE o attr (le_bytes sizeof_CK_BBOOL var).

(** An [ADD_ATTR_SIZE] guarded by [if (data)]. *)
Definition ADD_ATTR_IF (o : obj_info) (attr : Z) (data : option (list byte))
  : obj_info :=
  match data with
  | Some d => ADD_ATTR_SIZE o attr d
  | None => o
  end.

(** [OBJINIT] followed by the assignment of the object class. *)
Definition OBJINIT (idptr : option id_info) (cl : Z) : obj_info :=
  {| obj_id := idptr; obj_class := cl; obj_attrs := [] |}.

Definition CK_BBOOL_of (b : bool) : Z := if b then CK_TRUE else CK_FALSE.

Section Builder.
Context `{Platform}.

(** The certificate object of identity [idp], whose [CKA_ID] is [objid]. *)
Definition build_certificate_object (idp : id_info) (objid : list byte)
    (subject issuer serial : option (list byte)) : obj_info :=
  let o := OBJINIT (Some idp) CKO_CERTIFICATE in
  let o := ADD_ATTR_ULONG o CKA_CLASS CKO_CERTIFICATE in
  let o := ADD_ATTR_SIZE o CKA_ID objid in
  let o := ADD_ATTR_ULONG o CKA_CERTIFICATE_TYPE CKC_X_509 in
  let o := ADD_ATTR_BBOOL o CKA_TOKEN CK_TRUE in
  let o := ADD_ATTR_SIZE o CKA_LABEL (id_label idp) in
  let o := ADD_ATTR_SIZE o CKA_VALUE (SecCertificateCopyData (id_cert idp)) in
  let o := ADD_ATTR_IF o CKA_SUBJECT subject in
  let o := ADD_ATTR_IF o CKA_ISSUER issuer in
  let o := ADD_ATTR_IF o CKA_SERIAL_NUMBER serial in
  o.

(** The public-key object; [keyinfo] is what [get_pubkey_info] returned
    when the external representation could be copied (when it reports
    success it has stored both the modulus and the exponent). *)
Definition build_public_key_object (idp : id_info) (objid : list byte)
    (subject : option (list byte))
    (keyinfo : option (bool * option (list byte) * option (list byte)))
    : obj_info :=
  let o := OBJINIT (Some idp) CKO_PUBLIC_KEY in
  let o := ADD_ATTR_ULONG o CKA_CLASS CKO_PUBLIC_KEY in
  let o := ADD_ATTR_SIZE o CKA_ID objid in
  let o := ADD_ATTR_ULONG o CKA_KEY_TYPE (id_keytype idp) in
  let o := ADD_ATTR_BBOOL o CKA_TOKEN CK_TRUE in
  let o := ADD_ATTR_BBOOL o CKA_LOCAL CK_TRUE in
  let o := ADD_ATTR_BBOOL o CKA_ENCRYPT (CK_BBOOL_of (pubcanencrypt idp)) in
  let o := ADD_ATTR_BBOOL o CKA_VERIFY (CK_BBOOL_of (pubcanverify idp)) in
  let o := ADD_ATTR_IF o CKA_SUBJECT subject in
  let o := ADD_ATTR_SIZE o CKA_LABEL (id_label idp) in
  let o := ADD_ATTR_ULONG o CKA_MODULUS_BITS
             (SecKeyGetBlockSize (id_pubkey idp) * 8) in
  let o :=
    match keyinfo with
    | Some (true, Some modulus, Some exponent) =>
        ADD_ATTR_SIZE (ADD_ATTR_SIZE o CKA_MODULUS modulus)
                      CKA_PUBLIC_EXPONENT exponent
    | _ => o
    end in
  let o := ADD_ATTR_BBOOL o CKA_WRAP CK_FALSE in
  let o := ADD_ATTR_BBOOL o CKA_DERIVE CK_FALSE in
  o.

Definition build_private_key_object (idp : id_info) (objid : list byte)
    (subject : option (list byte))
    (keyinfo : option (bool * option (list byte) * option (list byte)))
    : obj_info :=
  let o := OBJINIT (Some idp) CKO_PRIVATE_KEY in
  let o := ADD_ATTR_ULONG o CKA_CLASS CKO_PRIVATE_KEY in
  let o := ADD_ATTR_SIZE o CKA_ID objid in
  let o := ADD_ATTR_ULONG o CKA_KEY_TYPE (id_keytype idp) in
  let o := ADD_ATTR_BBOOL o CKA_TOKEN CK_TRUE in
  let o := ADD_ATTR_BBOOL o CKA_PRIVATE CK_TRUE in
  let o := ADD_ATTR_BBOOL o CKA_DECRYPT (CK_BBOOL_of (privcandecrypt idp)) in
  let o := ADD_ATTR_BBOOL o CKA_SIGN (CK_BBOOL_of (privcansign idp)) in
  let o := ADD_ATTR_IF o CKA_SUBJECT subject in
  let o := ADD_ATTR_SIZE o CKA_LABEL (getkeylabel (id_privkey idp)) in
  let o :=
    match keyinfo with
    | Some (_, modulus, exponent) =>
        ADD_ATTR_IF (ADD_ATTR_IF o CKA_MODULUS modulus)
                    CKA_PUBLIC_EXPONENT exponent
    | None => o
    end in
  let o := ADD_ATTR_BBOOL o CKA_SENSITIVE CK_TRUE in
  let o := ADD_ATTR_BBOOL o CKA_ALWAYS_SENSITIVE CK_TRUE in
  let o := ADD_ATTR_BBOOL o CKA_NEVER_EXTRACTABLE CK_TRUE in
  let o := ADD_ATTR_BBOOL o CKA_LOCAL CK_TRUE in
  let o := ADD_ATTR_BBOOL o CKA_ALWAYS_AUTHENTICATE CK_FALSE in
  let o := ADD_ATTR_BBOOL o CKA_UNWRAP CK_FALSE in
  let o := ADD_ATTR_BBOOL o CKA_DERIVE CK_FALSE in
  let o := ADD_ATTR_BBOOL o CKA_EXTRACTABLE CK_FALSE in
  o.

(** One turn of the loop of [build_id_objects] for identity number [i]:
    the three objects it stores at [obj_count], [obj_count + 1] and
    [obj_count + 2]. *)
Definition build_id_objects_body (i : Z) (idp : id_info) : list obj_info :=
  let objid := get_index_bytes i in
  let '(serial, issuer, subject) :=
    get_certificate_info (SecCertificateCopyData (id_cert idp)) in
  let keyinfo :=
    match SecKeyCopyExternalRepresentation (id_pubkey idp) with
    | Some keydata => Some (get_pubkey_info keydata)
    | None => None
    end in
  [ build_certificate_object idp objid subject issuer serial;
    build_public_key_object idp objid subject keyinfo;
    build_private_key_object idp objid subject keyinfo ].

(** [for (i = 0; i < entry->id_count; i++)], the objects appended to
    [obj_list] in the order the code stores them. *)
Fixpoint build_id_objects_loop (i : Z) (id_list : list id_info)
    (obj_list : list obj_info) : list obj_info :=
  match id_list with
  | [] => obj_list
  | idp :: rest =>
      build_id_objects_loop (i + 1) rest
        (obj_list ++ build_id_objects_body i idp)
  end.

(** [build_id_objects] on a freshly zeroed entry ([obj_count = 0]). *)
Definition build_id_objects (id_list : list id_info) : list obj_info :=
  build_id_objects_loop 0 id_list [].

(** One turn of the loop of [build_cert_objects]: the certificate
    object and the NSS trust object of certificate number [i]. *)
Definition build_cert_objects_body (i : Z) (cert : SecCertificateRef)
  : list obj_info :=
  let objid := get_index_bytes i in
  let d := SecCertificateCopyData cert in
  let '(serial, issuer, subject) := get_certificate_info d in
  let hash :=
    match cc_md_init CKM_SHA_1 with
    | Some mdc => Some (cc_md_final (cc_md_update mdc d))
    | None => None
    end in
  let o := OBJINIT None CKO_CERTIFICATE in
  let o := ADD_ATTR_ULONG o CKA_CLASS CKO_CERTIFICATE in
  let o := ADD_ATTR_SIZE o CKA_ID objid in
  let o := ADD_ATTR_ULONG o CKA_CERTIFICATE_TYPE CKC_X_509 in
  let o := ADD_ATTR_BBOOL o CKA_TOKEN CK_TRUE in
  let o := ADD_ATTR_SIZE o CKA_LABEL
             (SecCertificateCopySubjectSummary cert) in
  let o := ADD_ATTR_SIZE o CKA_VALUE d in
  let o := ADD_ATTR_IF o CKA_SUBJECT subject in
  let o := ADD_ATTR_IF o CKA_ISSUER issuer in
  let o := ADD_ATTR_IF o CKA_SERIAL_NUMBER serial in
  let t := OBJINIT None CKO_NSS_TRUST in
  let t := ADD_ATTR_ULONG t CKA_CLASS CKO_NSS_TRUST in
  let t := ADD_ATTR_BBOOL t CKA_TOKEN CK_TRUE in
  let t := ADD_ATTR_IF t CKA_ISSUER issuer in
  let t := ADD_ATTR_IF t CKA_SERIAL_NUMBER serial in
  let t := ADD_ATTR_IF t CKA_CERT_SHA1_HASH hash in
  let t :=
    if is_cert_ca cert then
      let t := ADD_ATTR_ULONG t CKA_TRUST_SERVER_AUTH
                 CKT_NSS_TRUSTED_DELEGATOR in
      let t := ADD_ATTR_ULONG t CKA_TRUST_CLIENT_AUTH
                 CKT_NSS_TRUSTED_DELEGATOR in
      let t := ADD_ATTR_ULONG t CKA_TRUST_EMAIL_PROTECTION
                 CKT_NSS_TRUSTED_DELEGATOR in
      ADD_ATTR_ULONG t CKA_TRUST_CODE_SIGNING CKT_NSS_TRUSTED_DELEGATOR
    else t in
  [o; t].

Fixpoint build_cert_objects_loop (i : Z) (cert_list : list SecCertificateRef)
    (obj_list : list obj_info) : list obj_info :=
  match cert_list with
  | [] => obj_list
  | cert :: rest =>
      build_cert_objects_loop (i + 1) rest
        (obj_list ++ build_cert_objects_body i cert)
  end.

(** [build_cert_objects] over the certificates of [cert_list]. *)
Definition build_cert_objects (cert_list : list SecCertificateRef)
  : list obj_info :=
  build_cert_objects_loop 0 cert_list [].

End Builder.

(** ** Attribute lookup and search *)

(** [find_attribute]: the first attribute of the object with this type. *)
Fixpoint find_attribute_in (attrs : list CK_ATTRIBUTE) (ty : Z)
  : option CK_ATTRIBUTE :=
  match attrs with
  | [] => None
  | a :: rest => if type a =? ty then Some a else find_attribute_in rest ty
  end.

Definition find_attribute (obj : obj_info) (ty : Z) : option CK_ATTRIBUTE :=
  find_attribute_in (obj_attrs obj) ty.

(** The bytes behind a value pointer; nothing can be read through [NULL]. *)
Definition bytes_at (p : option (list byte)) : list byte :=
  match p with
  | Some v => v
  | None => []
  end.

(** [memcpy(dst, src, n)] on the contents of the two buffers: the first
    [n] bytes of [dst] are replaced, the rest of [dst] is kept. *)
Definition memcpy (dst src : list byte) (n : Z) : list byte :=
  take (Z.to_nat n) src ++ drop (Z.to_nat n) dst.

(** [memcmp(a, b, n) == 0]. *)
Definition memcmp_eq (a b : list byte) (n : Z) : bool :=
  bool_decide (take (Z.to_nat n) a = take (Z.to_nat n) b).

(** [memcmp(NULL, NULL, n)], which [search_object] reaches when both
    value pointers are null: with [n = 0] no byte is read and the result
    is 0; with any other [n] the read through the null pointers is
    undefined ([None]). *)
Definition memcmp_null (n : Z) : option bool :=
  if n =? 0 then Some true else None.

(** The inner loop of [search_object] for one template attribute [t]: the
    first attribute of the object with the type and the length of [t]
    decides. When exactly one of the two value pointers is null the
    answer is [false]; otherwise the code calls [memcmp] on the two
    pointers, also when both are null. [None] is undefined behaviour. *)
Fixpoint search_attribute (oattrs : list CK_ATTRIBUTE) (t : CK_ATTRIBUTE)
  : option bool :=
  match oattrs with
  | [] => Some false
  | a :: rest =>
      if (type a =? type t) && (ulValueLen a =? ulValueLen t) then
        match pValue a, pValue t with
        | None, None => memcmp_null (ulValueLen t)
        | None, Some _ => Some false
        | Some _, None => Some false
        | Some va, Some vt => Some (memcmp_eq va vt (ulValueLen t))
        end
      else search_attribute rest t
  end.

(** [search_object]: every template attribute has to hit. *)
Fixpoint search_object (obj : obj_info) (attrs : list CK_ATTRIBUTE)
  : option bool :=
  match attrs with
  | [] => Some true
  | t :: rest =>
      match search_attribute (obj_attrs obj) t with
      | Some true => search_object obj rest
      | Some false => Some false
      | None => None
      end
  end.

(** ** Mechanisms *)

(** [CK_MECHANISM]. The parameter block behind [pParameter] is kept as the
    sequence of its [CK_ULONG]-sized words, which is how both parameter
    structures are laid out; a null pointer inside it is the word [0]. *)
Record CK_MECHANISM := {
  mechanism : Z;
  pParameter : option (list Z);
  ulParameterLen : Z
}.

Record CK_RSA_PKCS_OAEP_PARAMS := {
  oaep_hashAlg : Z;
  oaep_mgf : Z;
  oaep_source : Z;
  oaep_pSourceData : Z;
  oaep_ulSourceDataLen : Z
}.

Record CK_RSA_PKCS_PSS_PARAMS := {
  pss_hashAlg : Z;
  pss_mgf : Z;
  pss_sLen : Z
}.

(** The casts [(CK_RSA_PKCS_OAEP_PARAMS_PTR) mptr->pParameter] and
    [(CK_RSA_PKCS_PSS_PARAMS_PTR) mptr->pParameter]. *)
Definition as_oaep (mem : list Z) : CK_RSA_PKCS_OAEP_PARAMS :=
  {| oaep_hashAlg := nth 0 mem 0;
     oaep_mgf := nth 1 mem 0;
     oaep_source := nth 2 mem 0;
     oaep_pSourceData := nth 3 mem 0;
     oaep_ulSourceDataLen := nth 4 mem 0 |}.

Definition as_pss (mem : list Z) : CK_RSA_PKCS_PSS_PARAMS :=
  {| pss_hashAlg := nth 0 mem 0;
     pss_mgf := nth 1 mem 0;
     pss_sLen := nth 2 mem 0 |}.

(** What [mech_param_validate] stores through its four out-pointers; a
    caller that passes [NULL] for one of them ignores that component. *)
Record mech_algs := {
  ma_encalg : option SecKeyAlgorithm;
  ma_signalg : option SecKeyAlgorithm;
  ma_dsignalg : option SecKeyAlgorithm;
  ma_digest : Z
}.

Definition oaep_row_matches (mech : Z) (oaep : CK_RSA_PKCS_OAEP_PARAMS)
    (row : param_map) : bool :=
  (mech =? base_type row) && (oaep_hashAlg oaep =? hash_alg row)
  && (oaep_mgf oaep =? mgf row).

Definition pss_row_matches (mech : Z) (pss : CK_RSA_PKCS_PSS_PARAMS)
    (row : param_map) : bool :=
  (mech =? base_type row) && (pss_hashAlg pss =? hash_alg row)
  && (pss_mgf pss =? mgf row) && (pss_sLen pss =? slen row).

(** The [for] loops over [keychain_param_map]: the first matching row. *)
Fixpoint find_row (matches : param_map -> bool) (rows : list param_map)
  : option param_map :=
  match rows with
  | [] => None
  | row :: rest => if matches row then Some row else find_row matches rest
  end.

(** The code after the label [found]. *)
Definition algs_of_row (row : param_map) : mech_algs :=
  {| ma_encalg := encalg row;
     ma_signalg := signalg row;
     ma_dsignalg := dsignalg row;
     ma_digest := hash_alg row |}.

Section Mechanisms.
Context `{Platform}.

(** [get_mechmap]. *)
Fixpoint get_mechmap_in (table : list mechanism_map) (mechtype : Z)
  : option mechanism_map :=
  match table with
  | [] => None
  | mm :: rest =>
      if mechtype =? cki_mech mm then Some mm
      else get_mechmap_in rest mechtype
  end.

Definition get_mechmap (mechtype : Z) : option mechanism_map :=
  get_mechmap_in keychain_mechmap mechtype.

(** [mech_param_validate]: [None] is the result [false], [Some algs] is
    [true] together with the values stored through the out-pointers. *)
Definition mech_param_validate (mptr : CK_MECHANISM)
    (mechmap : mechanism_map) : option mech_algs :=
  match parameters mechmap with
  | NONE =>
      if negb (bool_decide (pParameter mptr = None))
         || negb (ulParameterLen mptr =? 0)
      then None
      else Some {| ma_encalg := sec_encmech mechmap;
                   ma_signalg := sec_signmech mechmap;
                   ma_dsignalg := sec_dsignmech mechmap;
                   ma_digest := sec_digest mechmap |}
  | OAEP =>
      match pParameter mptr with
      | None => None
      | Some mem =>
          if negb (ulParameterLen mptr =? sizeof_oaep) then None
          else
            let oaep := as_oaep mem in
            if negb (oaep_source oaep =? 0)
               && negb (oaep_source oaep =? CKZ_DATA_SPECIFIED)
            then None
            else if (oaep_source oaep =? CKZ_DATA_SPECIFIED)
                    && (negb (oaep_pSourceData oaep =? 0)
                        || negb (oaep_ulSourceDataLen oaep =? 0))
            then None
            else
              match find_row (oaep_row_matches (mechanism mptr) oaep)
                             keychain_param_map with
              | Some row => Some (algs_of_row row)
              | None => None
              end
      end
  | PSS =>
      match pParameter mptr with
      | None => None
      | Some mem =>
          if negb (ulParameterLen mptr =? sizeof_pss) then None
          else
            let pss := as_pss mem in
            match find_row (pss_row_matches (mechanism mptr) pss)
                           keychain_param_map with
            | Some row => Some (algs_of_row row)
            | None => None
            end
      end
  end.

End Mechanisms.

(** ** Sessions *)

Inductive s_state : Set :=
  | NO_PENDING | E_INIT | E_UPDATE | D_INIT | D_UPDATE
  | S_INIT | S_UPDATE | V_INIT | V_UPDATE.

#[global] Instance s_state_eq_dec : EqDecision s_state.
Proof. solve_decision. Defined.

(** Tokens live on the heap; a [struct slot_entry *] is an address. *)
Definition addr := nat.

(** [struct session]. [se_obj_list] is the pointer to the token's object
    list together with [obj_list_count]; [se_search_attrs] is the copied
    template together with [search_attrs_count]. *)
Record session := {
  se_slot_id : Z;
  se_token : option addr;
  se_obj_list : list obj_info;
  se_obj_search_index : Z;
  se_search_attrs : list CK_ATTRIBUTE;
  se_state : s_state;
  se_key : option SecKeyRef;
  se_outsize : Z;
  se_alg : option SecKeyAlgorithm;
  se_dalg : option SecKeyAlgorithm;
  se_hash_alg : Z;
  se_mdc : option md_context
}.

Definition set_search (idx : Z) (attrs : list CK_ATTRIBUTE) (se : session)
  : session :=
  {| se_slot_id := se_slot_id se; se_token := se_token se;
     se_obj_list := se_obj_list se;
     se_obj_search_index := idx; se_search_attrs := attrs;
     se_state := se_state se; se_key := se_key se;
     se_outsize := se_outsize se; se_alg := se_alg se;
     se_dalg := se_dalg se; se_hash_alg := se_hash_alg se;
     se_mdc := se_mdc se |}.

Definition set_state (st : s_state) (se : session) : session :=
  {| se_slot_id := se_slot_id se; se_token := se_token se;
     se_obj_list := se_obj_list se;
     se_obj_search_index := se_obj_search_index se;
     se_search_attrs := se_search_attrs se;
     se_state := st; se_key := se_key se;
     se_outsize := se_outsize se; se_alg := se_alg se;
     se_dalg := se_dalg se; se_hash_alg := se_hash_alg se;
     se_mdc := se_mdc se |}.

Definition set_key (k : option SecKeyRef) (se : session) : session :=
  {| se_slot_id := se_slot_id se; se_token := se_token se;
     se_obj_list := se_obj_list se;
     se_obj_search_index := se_obj_search_index se;
     se_search_attrs := se_search_attrs se;
     se_state := se_state se; se_key := k;
     se_outsize := se_outsize se; se_alg := se_alg se;
     se_dalg := se_dalg se; se_hash_alg := se_hash_alg se;
     se_mdc := se_mdc se |}.

Definition set_outsize (n : Z) (se : session) : session :=
  {| se_slot_id := se_slot_id se; se_token := se_token se;
     se_obj_list := se_obj_list se;
     se_obj_search_index := se_obj_search_index se;
     se_search_attrs := se_search_attrs se;
     se_state := se_state se; se_key := se_key se;
     se_outsize := n; se_alg := se_alg se;
     se_dalg := se_dalg se; se_hash_alg := se_hash_alg se;
     se_mdc := se_mdc se |}.

Definition set_alg (a : option SecKeyAlgorithm) (se : session) : session :=
  {| se_slot_id := se_slot_id se; se_token := se_token se;
     se_obj_list := se_obj_list se;
     se_obj_search_index := se_obj_search_index se;
     se_search_attrs := se_search_attrs se;
     se_state := se_state se; se_key := se_key se;
     se_outsize := se_outsize se; se_alg := a;
     se_dalg := se_dalg se; se_hash_alg := se_hash_alg se;
     se_mdc := se_mdc se |}.

Definition set_dalg (a : option SecKeyAlgorithm) (se : session) : session :=
  {| se_slot_id := se_slot_id se; se_token := se_token se;
     se_obj_list := se_obj_list se;
     se_obj_search_index := se_obj_search_index se;
     se_search_attrs := se_search_attrs se;
     se_state := se_state se; se_key := se_key se;
     se_outsize := se_outsize se; se_alg := se_alg se;
     se_dalg := a; se_hash_alg := se_hash_alg se;
     se_mdc := se_mdc se |}.

Definition set_hash_alg (h : Z) (se : session) : session :=
  {| se_slot_id := se_slot_id se; se_token := se_token se;
     se_obj_list := se_obj_list se;
     se_obj_search_index := se_obj_search_index se;
     se_search_attrs := se_search_attrs se;
     se_state := se_state se; se_key := se_key se;
     se_outsize := se_outsize se; se_alg := se_alg se;
     se_dalg := se_dalg se; se_hash_alg := h;
     se_mdc := se_mdc se |}.

Definition set_mdc (m : option md_context) (se : session) : session :=
  {| se_slot_id := se_slot_id se; se_token := se_token se;
     se_obj_list := se_obj_list se;
     se_obj_search_index := se_obj_search_index se;
     se_search_attrs := se_search_attrs se;
     se_state := se_state se; se_key := se_key se;
     se_outsize := se_outsize se; se_alg := se_alg se;
     se_dalg := se_dalg se; se_hash_alg := se_hash_alg se;
     se_mdc := m |}.

(** [object--] on a [CK_ULONG] handle. *)
Definition handle_index (handle : Z) : Z := (handle - 1) mod 2 ^ 64.

(** [se->obj_list[object]], after the range check against
    [obj_list_count]. *)
Definition object_at (se : session) (handle : Z) : option obj_info :=
  if handle_index handle >=? Z.of_nat (length (se_obj_list se)) then None
  else se_obj_list se !! Z.to_nat (handle_index handle).

(** *** [C_GetAttributeValue] *)

(** One turn of the loop over the template: the entry as the caller
    finds it afterwards and the running result code. *)
Definition get_attribute_entry (obj : obj_info) (t : CK_ATTRIBUTE)
    (rv : CK_RV) : CK_ATTRIBUTE * CK_RV :=
  match find_attribute obj (type t) with
  | Some attr =>
      match pValue t with
      | None =>
          ({| type := type t; pValue := None;
              ulValueLen := ulValueLen attr |}, rv)
      | Some buf =>
          if ulValueLen t <? ulValueLen attr then
            ({| type := type t; pValue := Some buf;
                ulValueLen := ulValueLen attr |}, CKR_BUFFER_TOO_SMALL)
          else
            ({| type := type t;
                pValue := Some (memcpy buf (bytes_at (pValue attr))
                                       (ulValueLen attr));
                ulValueLen := ulValueLen attr |}, rv)
      end
  | None =>
      ({| type := type t; pValue := pValue t;
          ulValueLen := CK_UNAVAILABLE_INFORMATION |},
       CKR_ATTRIBUTE_TYPE_INVALID)
  end.

Fixpoint get_attribute_loop (obj : obj_info) (template : list CK_ATTRIBUTE)
    (rv : CK_RV) : list CK_ATTRIBUTE * CK_RV :=
  match template with
  | [] => ([], rv)
  | t :: rest =>
      let '(t', rv') := get_attribute_entry obj t rv in
      let '(rest', rv'') := get_attribute_loop obj rest rv' in
      (t' :: rest', rv'')
  end.

(** [C_GetAttributeValue] once [CHECKSESSION] has found the session: the
    template as it is left for the caller, and the result. The session is
    not modified. *)
Definition C_GetAttributeValue (se : session) (object : Z)
    (template : list CK_ATTRIBUTE) : list CK_ATTRIBUTE * CK_RV :=
  match object_at se object with
  | None => (template, CKR_OBJECT_HANDLE_INVALID)
  | Some obj => get_attribute_loop obj template CKR_OK
  end.

(** *** [C_FindObjectsInit], [C_FindObjects], [C_FindObjectsFinal] *)

(** The bytes [memcpy] reads from the caller's value pointer: [n] bytes
    have to be there. [None] is a read outside the caller's memory. *)
Definition read_bytes (p : option (list byte)) (n : Z) : option (list byte) :=
  if Z.of_nat (length (bytes_at p)) <? n then None
  else Some (take (Z.to_nat n) (bytes_at p)).

Definition copy_search_attr (t : CK_ATTRIBUTE) : option CK_ATTRIBUTE :=
  if ulValueLen t =? CK_UNAVAILABLE_INFORMATION then
    Some {| type := type t; pValue := None; ulValueLen := ulValueLen t |}
  else
    match read_bytes (pValue t) (ulValueLen t) with
    | Some v =>
        Some {| type := type t; pValue := Some v;
                ulValueLen := ulValueLen t |}
    | None => None
    end.

Fixpoint copy_search_attrs (template : list CK_ATTRIBUTE)
  : option (list CK_ATTRIBUTE) :=
  match template with
  | [] => Some []
  | t :: rest =>
      match copy_search_attr t, copy_search_attrs rest with
      | Some t', Some rest' => Some (t' :: rest')
      | _, _ => None
      end
  end.

(** [C_FindObjectsInit] after [CHECKSESSION]. The result is [None] when
    the template names memory the caller does not own (the behaviour of
    [memcpy] is then undefined); otherwise the code always reaches
    [RET(C_FindObjectsInit, CKR_OK)]. *)
Definition C_FindObjectsInit (se : session) (template : list CK_ATTRIBUTE)
  : option (CK_RV * session) :=
  match copy_search_attrs template with
  | Some attrs => Some (CKR_OK, set_search 0 attrs se)
  | None => None
  end.

(** The loop of [C_FindObjects] over the objects from the cursor on:
    [objs] are the objects not yet visited, [idx] is [obj_search_index],
    [found] the handles stored so far ([rc] is its length). Returns the
    handles and the cursor the session is left with, or [None] when
    [search_object] is undefined on an object it visits. *)
Fixpoint find_objects_loop (objs : list obj_info) (idx : Z)
    (attrs : list CK_ATTRIBUTE) (maxcount : Z) (found : list Z)
  : option (list Z * Z) :=
  match objs with
  | [] => Some (found, idx)
  | obj :: rest =>
      match search_object obj attrs with
      | Some true =>
          let found' := found ++ [idx + 1] in
          if Z.of_nat (length found') >=? maxcount
          then Some (found', idx + 1)
          else find_objects_loop rest (idx + 1) attrs maxcount found'
      | Some false => find_objects_loop rest (idx + 1) attrs maxcount found
      | None => None
      end
  end.

(** [C_FindObjects] after [CHECKSESSION]; [object] tells whether the
    caller's handle array is non-null. The handles returned are the ones
    written to [object[0 .. *count - 1]]. The result is [None] when the
    loop is undefined. *)
Definition C_FindObjects (se : session) (object : bool) (maxcount : Z)
  : option (CK_RV * session * list Z) :=
  if negb object || (maxcount =? 0) then Some (CKR_ARGUMENTS_BAD, se, [])
  else
    match
      find_objects_loop
        (drop (Z.to_nat (se_obj_search_index se)) (se_obj_list se))
        (se_obj_search_index se) (se_search_attrs se) maxcount []
    with
    | Some (found, idx) =>
        Some (CKR_OK, set_search idx (se_search_attrs se) se, found)
    | None => None
    end.

Definition C_FindObjectsFinal (se : session) : CK_RV * session :=
  (CKR_OK, set_search (se_obj_search_index se) [] se).

(** ** The operation state machine *)

(** What a single-shot or final call leaves behind: the result code, the
    session, the caller's output buffer and the value of the length the
    caller passed by reference. *)
Record crypt_result := {
  cr_rv : CK_RV;
  cr_session : session;
  cr_out : option (list byte);
  cr_outlen : Z
}.

(** [se->key = NULL; se->outsize = 0; se->state = NO_PENDING;] *)
Definition clear_operation (se : session) : session :=
  set_state NO_PENDING (set_outsize 0 (set_key None se)).

Section Operations.
Context `{Platform}.

(** [mm->blocksize_out ? SecKeyGetBlockSize(se->key) : 0] *)
Definition operation_outsize (mm : mechanism_map) (key : SecKeyRef) : Z :=
  if blocksize_out mm then SecKeyGetBlockSize key else 0.

Definition mechmap_for (mech : CK_MECHANISM) (flag : Z)
  : option mechanism_map :=
  match get_mechmap (mechanism mech) with
  | Some mm => if Z.land (usage_flags mm) flag =? 0 then None else Some mm
  | None => None
  end.

(** [C_EncryptInit] after [CHECKSESSION]. *)
Definition C_EncryptInit (se : session) (mech : option CK_MECHANISM)
    (object : Z) : CK_RV * session :=
  match mech with
  | None => (CKR_MECHANISM_INVALID, se)
  | Some mech =>
      match object_at se object with
      | None => (CKR_KEY_HANDLE_INVALID, se)
      | Some obj =>
          if negb (bool_decide (se_state se = NO_PENDING)) then
            (CKR_OPERATION_ACTIVE, se)
          else if negb (obj_class obj =? CKO_PUBLIC_KEY) then
            (CKR_KEY_TYPE_INCONSISTENT, se)
          else
            match obj_id obj with
            | None => (CKR_ARGUMENTS_BAD, se)
            | Some idp =>
                match mechmap_for mech CKF_ENCRYPT with
                | None => (CKR_MECHANISM_INVALID, se)
                | Some mm =>
                    match mech_param_validate mech mm with
                    | None => (CKR_MECHANISM_PARAM_INVALID, se)
                    | Some algs =>
                        let se := set_alg (ma_encalg algs) se in
                        let se := set_key (Some (id_pubkey idp)) se in
                        let se :=
                          set_outsize
                            (operation_outsize mm (id_pubkey idp)) se in
                        (CKR_OK, set_state E_INIT se)
                    end
                end
            end
      end
  end.

(** [C_DecryptInit] after [CHECKSESSION]. *)
Definition C_DecryptInit (se : session) (mech : option CK_MECHANISM)
    (key : Z) : CK_RV * session :=
  match mech with
  | None => (CKR_MECHANISM_INVALID, se)
  | Some mech =>
      match object_at se key with
      | None => (CKR_KEY_HANDLE_INVALID, se)
      | Some obj =>
          if negb (bool_decide (se_state se = NO_PENDING)) then
            (CKR_OPERATION_ACTIVE, se)
          else if negb (obj_class obj =? CKO_PRIVATE_KEY) then
            (CKR_KEY_TYPE_INCONSISTENT, se)
          else
            match obj_id obj with
            | None => (CKR_ARGUMENTS_BAD, se)
            | Some idp =>
                if negb (privcandecrypt idp) then
                  (CKR_KEY_FUNCTION_NOT_PERMITTED, se)
                else
                  match mechmap_for mech CKF_DECRYPT with
                  | None => (CKR_MECHANISM_INVALID, se)
                  | Some mm =>
                      match mech_param_validate mech mm with
                      | None => (CKR_MECHANISM_PARAM_INVALID, se)
                      | Some algs =>
                          let se := set_alg (ma_encalg algs) se in
                          let se := set_key (Some (id_privkey idp)) se in
                          let se :=
                            set_outsize
                              (operation_outsize mm (id_privkey idp)) se in
                          (CKR_OK, set_state D_INIT se)
                      end
                  end
            end
      end
  end.

(** [C_SignInit] after [CHECKSESSION]; the code reads [mech->mechanism]
    before any test, so [mech] is not null. *)
Definition C_SignInit (se : session) (mech : CK_MECHANISM) (object : Z)
  : CK_RV * session :=
  if negb (bool_decide (se_state se = NO_PENDING)) then
    (CKR_OPERATION_ACTIVE, se)
  else
    match object_at se object with
    | None => (CKR_KEY_HANDLE_INVALID, se)
    | Some obj =>
        match obj_id obj with
        | None => (CKR_ARGUMENTS_BAD, se)
        | Some idp =>
            if negb (privcansign idp) then
              (CKR_KEY_FUNCTION_NOT_PERMITTED, se)
            else if negb (obj_class obj =? CKO_PRIVATE_KEY) then
              (CKR_KEY_TYPE_INCONSISTENT, se)
            else
              match mechmap_for mech CKF_SIGN with
              | None => (CKR_MECHANISM_INVALID, se)
              | Some mm =>
                  match mech_param_validate mech mm with
                  | None => (CKR_MECHANISM_PARAM_INVALID, se)
                  | Some algs =>
                      let se := set_alg (ma_signalg algs) se in
                      let se := set_dalg (ma_dsignalg algs) se in
                      let se := set_hash_alg (ma_digest algs) se in
                      let se := set_key (Some (id_privkey idp)) se in
                      let se :=
                        set_outsize
                          (operation_outsize mm (id_privkey idp)) se in
                      (CKR_OK, set_state S_INIT se)
                  end
              end
        end
    end.

(** [C_VerifyInit] after [CHECKSESSION]. *)
Definition C_VerifyInit (se : session) (mech : CK_MECHANISM) (key : Z)
  : CK_RV * session :=
  if negb (bool_decide (se_state se = NO_PENDING)) then
    (CKR_OPERATION_ACTIVE, se)
  else
    match object_at se key with
    | None => (CKR_KEY_HANDLE_INVALID, se)
    | Some obj =>
        match obj_id obj with
        | None => (CKR_ARGUMENTS_BAD, se)
        | Some idp =>
            if negb (pubcanverify idp) then
              (CKR_KEY_FUNCTION_NOT_PERMITTED, se)
            else if negb (obj_class obj =? CKO_PUBLIC_KEY) then
              (CKR_KEY_TYPE_INCONSISTENT, se)
            else
              match mechmap_for mech CKF_VERIFY with
              | None => (CKR_MECHANISM_INVALID, se)
              | Some mm =>
                  match mech_param_validate mech mm with
                  | None => (CKR_MECHANISM_PARAM_INVALID, se)
                  | Some algs =>
                      let se := set_alg (ma_signalg algs) se in
                      let se := set_dalg (ma_dsignalg algs) se in
                      let se := set_hash_alg (ma_digest algs) se in
                      let se := set_key (Some (id_pubkey idp)) se in
                      let se :=
                        set_outsize
                          (operation_outsize mm (id_pubkey idp)) se in
                      (CKR_OK, set_state V_INIT se)
                  end
              end
        end
    end.

(** The part the three single-shot calls with an output buffer share
    once the state test has passed: the size probe, the early size
    check, the host primitive [prim] and the transfer of its output. *)
Definition single_shot (prim : list byte -> option (list byte))
    (se : session) (indata : list byte) (outdata : option (list byte))
    (outdatalen : Z) : crypt_result :=
  match outdata with
  | None =>
      if se_outsize se =? 0 then
        {| cr_rv := CKR_BUFFER_TOO_SMALL; cr_session := se;
           cr_out := outdata; cr_outlen := outdatalen |}
      else
        {| cr_rv := CKR_OK; cr_session := se;
           cr_out := outdata; cr_outlen := se_outsize se |}
  | Some buf =>
      if negb (se_outsize se =? 0) && (se_outsize se >? outdatalen) then
        {| cr_rv := CKR_BUFFER_TOO_SMALL; cr_session := se;
           cr_out := outdata; cr_outlen := se_outsize se |}
      else
        match prim indata with
        | None =>
            {| cr_rv := CKR_GENERAL_ERROR;
               cr_session := clear_operation se;
               cr_out := outdata; cr_outlen := outdatalen |}
        | Some outref =>
            let n := Z.of_nat (length outref) in
            if outdatalen <? n then
              {| cr_rv := CKR_BUFFER_TOO_SMALL; cr_session := se;
                 cr_out := outdata; cr_outlen := n |}
            else
              {| cr_rv := CKR_OK; cr_session := clear_operation se;
                 cr_out := Some (memcpy buf outref n); cr_outlen := n |}
        end
  end.

(** [C_Encrypt] after [CHECKSESSION]. *)
Definition C_Encrypt (se : session) (indata : list byte)
    (outdata : option (list byte)) (outdatalen : Z) : crypt_result :=
  if negb (bool_decide (se_state se = E_INIT)) then
    {| cr_rv := CKR_OPERATION_NOT_INITIALIZED; cr_session := se;
       cr_out := outdata; cr_outlen := outdatalen |}
  else
    single_shot (SecKeyCreateEncryptedData (se_key se) (se_alg se))
                se indata outdata outdatalen.

(** [C_Decrypt] after [CHECKSESSION]. *)
Definition C_Decrypt (se : session) (indata : list byte)
    (outdata : option (list byte)) (outdatalen : Z) : crypt_result :=
  if negb (bool_decide (se_state se = D_INIT)) then
    {| cr_rv := CKR_OPERATION_NOT_INITIALIZED; cr_session := se;
       cr_out := outdata; cr_outlen := outdatalen |}
  else
    single_shot (SecKeyCreateDecryptedData (se_key se) (se_alg se))
                se indata outdata outdatalen.

(** [C_Sign] after [CHECKSESSION]. *)
Definition C_Sign (se : session) (indata : list byte)
    (sig : option (list byte)) (siglen : Z) : crypt_result :=
  if negb (bool_decide (se_state se = S_INIT)) then
    {| cr_rv := CKR_OPERATION_NOT_INITIALIZED; cr_session := se;
       cr_out := sig; cr_outlen := siglen |}
  else
    single_shot (SecKeyCreateSignature (se_key se) (se_alg se))
                se indata sig siglen.

(** [cc_md_update] and [cc_md_final] on [se->mdc]; in the update states
    the context is the one [cc_md_init] created. *)
Definition mdc_update (m : option md_context) (data : list byte)
  : option md_context :=
  match m with
  | Some mdc => Some (cc_md_update mdc data)
  | None => None
  end.

Definition mdc_final (m : option md_context) : list byte :=
  match m with
  | Some mdc => cc_md_final mdc
  | None => []
  end.

(** The body shared by [C_SignUpdate] ([init = S_INIT], [update =
    S_UPDATE]) and [C_VerifyUpdate] ([V_INIT], [V_UPDATE]). *)
Definition multipart_update (init update : s_state) (se : session)
    (indata : list byte) : CK_RV * session :=
  if negb (bool_decide (se_state se = init))
     && negb (bool_decide (se_state se = update)) then
    (CKR_OPERATION_NOT_INITIALIZED, se)
  else
    match se_dalg se with
    | None => (CKR_DATA_LEN_RANGE, se)
    | Some _ =>
        if bool_decide (se_state se = init) then
          match cc_md_init (se_hash_alg se) with
          | None => (CKR_GENERAL_ERROR, set_state NO_PENDING se)
          | Some mdc =>
              (CKR_OK,
               set_mdc (Some (cc_md_update mdc indata))
                       (set_state update se))
          end
        else (CKR_OK, set_mdc (mdc_update (se_mdc se) indata) se)
    end.

Definition C_SignUpdate (se : session) (indata : list byte)
  : CK_RV * session :=
  multipart_update S_INIT S_UPDATE se indata.

Definition C_VerifyUpdate (se : session) (indata : list byte)
  : CK_RV * session :=
  multipart_update V_INIT V_UPDATE se indata.

(** The code after the label [outfinish] of [C_SignFinal]. *)
Definition sign_outfinish (se : session) : session :=
  set_state NO_PENDING
    (set_outsize 0 (set_alg None (set_dalg None (set_key None se)))).

(** [C_SignFinal] after [CHECKSESSION]; [CFDataCreateWithBytesNoCopy]
    is taken to succeed, as [malloc] is. *)
Definition C_SignFinal (se : session) (sig : option (list byte))
    (siglen : Z) : crypt_result :=
  if negb (bool_decide (se_state se = S_UPDATE)) then
    {| cr_rv := CKR_OPERATION_NOT_INITIALIZED; cr_session := se;
       cr_out := sig; cr_outlen := siglen |}
  else
    match sig with
    | None =>
        if se_outsize se =? 0 then
          {| cr_rv := CKR_BUFFER_TOO_SMALL; cr_session := se;
             cr_out := sig; cr_outlen := siglen |}
        else
          {| cr_rv := CKR_OK; cr_session := se;
             cr_out := sig; cr_outlen := se_outsize se |}
    | Some buf =>
        if negb (se_outsize se =? 0) && (se_outsize se >? siglen) then
          {| cr_rv := CKR_BUFFER_TOO_SMALL; cr_session := se;
             cr_out := sig; cr_outlen := se_outsize se |}
        else
          let digest := mdc_final (se_mdc se) in
          let se := set_mdc None se in
          match SecKeyCreateSignature (se_key se) (se_dalg se) digest with
          | None =>
              {| cr_rv := CKR_FUNCTION_FAILED;
                 cr_session := sign_outfinish se;
                 cr_out := sig; cr_outlen := siglen |}
          | Some sigout =>
              let n := Z.of_nat (length sigout) in
              if siglen <? n then
                {| cr_rv := CKR_FUNCTION_FAILED; cr_session := se;
                   cr_out := sig; cr_outlen := siglen |}
              else
                {| cr_rv := CKR_OK; cr_session := sign_outfinish se;
                   cr_out := Some (memcpy buf sigout n); cr_outlen := n |}
          end
    end.

(** [C_Verify] after [CHECKSESSION]. *)
Definition C_Verify (se : session) (indata sig : list byte)
  : CK_RV * session :=
  if negb (bool_decide (se_state se = V_INIT)) then
    (CKR_OPERATION_NOT_INITIALIZED, se)
  else
    let rv :=
      if SecKeyVerifySignature (se_key se) (se_alg se) indata sig
      then CKR_OK else CKR_SIGNATURE_INVALID in
    (rv, set_state NO_PENDING (set_key None se)).

(** [C_VerifyFinal] after [CHECKSESSION]: past the state test the code
    finalizes the digest, clears [se->mdc], verifies, and returns; it
    assigns neither [se->state] nor [se->key]. *)
Definition C_VerifyFinal (se : session) (sig : list byte)
  : CK_RV * session :=
  if negb (bool_decide (se_state se = V_UPDATE)) then
    (CKR_OPERATION_NOT_INITIALIZED, se)
  else
    let digest := mdc_final (se_mdc se) in
    let se := set_mdc None se in
    let rv :=
      if SecKeyVerifySignature (se_key se) (se_dalg se) digest sig
      then CKR_OK else CKR_SIGNATURE_INVALID in
    (rv, se).

End Operations.

(** ** Slots, tokens and the session registry *)

Inductive certstate : Set := uninitialized | initializing | initialized.

#[global] Instance certstate_eq_dec : EqDecision certstate.
Proof. solve_decision. Defined.

(** The calls made into [localauth.m], in order. *)
Inductive la_event : Set :=
  | la_auth (ctx : LAContext) (pin : list byte)
            (access : SecAccessControlRef) (usage : la_keyusage)
  | la_logout (ctx : LAContext)
  | la_free (ctx : LAContext).

(** [struct slot_entry]. *)
Record slot_entry := {
  tok_tokenid : CFStringRef;
  tok_id_list : list id_info;
  tok_obj_list : list obj_info;
  tok_logged_in : bool;
  tok_label : option (list byte);
  tok_lacontext : option LAContext;
  tok_refcount : Z
}.

Definition set_refcount (n : Z) (e : slot_entry) : slot_entry :=
  {| tok_tokenid := tok_tokenid e; tok_id_list := tok_id_list e;
     tok_obj_list := tok_obj_list e; tok_logged_in := tok_logged_in e;
     tok_label := tok_label e; tok_lacontext := tok_lacontext e;
     tok_refcount := n |}.

Definition set_logged_in (b : bool) (e : slot_entry) : slot_entry :=
  {| tok_tokenid := tok_tokenid e; tok_id_list := tok_id_list e;
     tok_obj_list := tok_obj_list e; tok_logged_in := b;
     tok_label := tok_label e; tok_lacontext := tok_lacontext e;
     tok_refcount := tok_refcount e |}.

Definition set_lacontext (c : option LAContext) (e : slot_entry)
  : slot_entry :=
  {| tok_tokenid := tok_tokenid e; tok_id_list := tok_id_list e;
     tok_obj_list := tok_obj_list e; tok_logged_in := tok_logged_in e;
     tok_label := tok_label e; tok_lacontext := c;
     tok_refcount := tok_refcount e |}.

(** The process-wide state between [C_Initialize] and [C_Finalize]:
    [slot_list] (with [slot_count] its length), the heap of token entries,
    [sess_list] (with [sess_list_size] its length) and [sess_list_count],
    the certificate slot, and the trace of calls into [localauth.m]. *)
Record driver := {
  slot_list : list (option addr);
  tokens : gmap addr slot_entry;
  sess_list : list (option session);
  sess_list_count : Z;
  cert_slot_enabled : bool;
  cert_list_status : certstate;
  cert_obj_list : list obj_info;
  la_trace : list la_event
}.

Definition set_slot_list (l : list (option addr)) (d : driver) : driver :=
  {| slot_list := l; tokens := tokens d; sess_list := sess_list d;
     sess_list_count := sess_list_count d;
     cert_slot_enabled := cert_slot_enabled d;
     cert_list_status := cert_list_status d;
     cert_obj_list := cert_obj_list d; la_trace := la_trace d |}.

Definition set_tokens (m : gmap addr slot_entry) (d : driver) : driver :=
  {| slot_list := slot_list d; tokens := m; sess_list := sess_list d;
     sess_list_count := sess_list_count d;
     cert_slot_enabled := cert_slot_enabled d;
     cert_list_status := cert_list_status d;
     cert_obj_list := cert_obj_list d; la_trace := la_trace d |}.

Definition set_sess_list (l : list (option session)) (n : Z) (d : driver)
  : driver :=
  {| slot_list := slot_list d; tokens := tokens d; sess_list := l;
     sess_list_count := n;
     cert_slot_enabled := cert_slot_enabled d;
     cert_list_status := cert_list_status d;
     cert_obj_list := cert_obj_list d; la_trace := la_trace d |}.

Definition log_events (evs : list la_event) (d : driver) : driver :=
  {| slot_list := slot_list d; tokens := tokens d; sess_list := sess_list d;
     sess_list_count := sess_list_count d;
     cert_slot_enabled := cert_slot_enabled d;
     cert_list_status := cert_list_status d;
     cert_obj_list := cert_obj_list d; la_trace := la_trace d ++ evs |}.

Definition set_cert_objects (st : certstate) (objs : list obj_info)
    (d : driver) : driver :=
  {| slot_list := slot_list d; tokens := tokens d; sess_list := sess_list d;
     sess_list_count := sess_list_count d;
     cert_slot_enabled := cert_slot_enabled d;
     cert_list_status := st;
     cert_obj_list := objs; la_trace := la_trace d |}.

(** The state [C_Initialize] leaves: one empty slot, no session.
    [cert_slot] is whether the program is configured for the certificate
    slot, in which case the scan has been dispatched. *)
Definition driver_init (cert_slot : bool) : driver :=
  {| slot_list := [None]; tokens := ∅; sess_list := [];
     sess_list_count := 0;
     cert_slot_enabled := cert_slot;
     cert_list_status := if cert_slot then initializing else uninitialized;
     cert_obj_list := []; la_trace := [] |}.

(** [token_logout]: the entry afterwards and the calls it made. *)
Definition token_logout (token : slot_entry) : slot_entry * list la_event :=
  match tok_lacontext token with
  | Some ctx =>
      (set_logged_in false (set_lacontext None token), [la_logout ctx])
  | None => (set_logged_in false token, [])
  end.

(** [slot_entry_free]: [--entry->refcount] on an [unsigned int]; while
    the count stays positive the entry is kept, and logged out when the
    count is now [1]; otherwise the entry is freed. The parameter
    [logout] is not read by the code. *)
Definition slot_entry_free (a : addr) (logout : bool) (d : driver) : driver :=
  match tokens d !! a with
  | None => d
  | Some entry =>
      let rc := (tok_refcount entry - 1) mod UINT_MODULUS in
      let entry := set_refcount rc entry in
      if rc >? 0 then
        if rc =? 1 then
          let '(entry, evs) := token_logout entry in
          log_events evs (set_tokens (<[a := entry]> (tokens d)) d)
        else set_tokens (<[a := entry]> (tokens d)) d
      else
        let evs :=
          match tok_lacontext entry with
          | Some ctx => [la_free ctx]
          | None => []
          end in
        log_events evs (set_tokens (delete a (tokens d)) d)
  end.

(** [sess_free]: the part that touches shared state. *)
Definition sess_free (se : session) (d : driver) : driver :=
  match se_token se with
  | Some a => slot_entry_free a true d
  | None => d
  end.

(** [CHECKSLOT]: [Some rv] when the macro returns [rv], [None] when
    control continues. *)
Definition CHECKSLOT (d : driver) (slot : Z) (present : bool)
  : option CK_RV :=
  if negb (slot =? CERTIFICATE_SLOT)
     && (slot >=? Z.of_nat (length (slot_list d))) then
    Some CKR_SLOT_ID_INVALID
  else if (slot =? CERTIFICATE_SLOT) && negb (cert_slot_enabled d) then
    Some CKR_SLOT_ID_INVALID
  else if present then
    if slot =? CERTIFICATE_SLOT then
      if bool_decide (cert_list_status d = initialized) then None
      else Some CKR_TOKEN_NOT_PRESENT
    else
      match slot_list d !! Z.to_nat slot with
      | Some (Some _) => None
      | _ => Some CKR_TOKEN_NOT_PRESENT
      end
  else None.

(** [CHECKSESSION]: the index [session - 1] and the session found there,
    or [None] for [CKR_SESSION_HANDLE_INVALID]. *)
Definition CHECKSESSION (d : driver) (hSession : Z)
  : option (nat * session) :=
  let i := handle_index hSession in
  if i >=? sess_list_count d then None
  else
    match sess_list d !! Z.to_nat i with
    | Some (Some se) => Some (Z.to_nat i, se)
    | _ => None
    end.

(** The first [i < sess_list_size] with [sess_list[i] == NULL]. *)
Fixpoint find_free_session (l : list (option session)) (i : nat)
  : option nat :=
  match l with
  | [] => None
  | None :: _ => Some i
  | Some _ :: rest => find_free_session rest (S i)
  end.

(** The store of the new session pointer into [sess_list]: into the free
    cell found, or, after growing the array by five cells, at
    [sess_list_count], the cells from [sess_list_count + 1] on being set
    to [NULL]. Returns the list, the count and the handle. *)
Definition sess_list_add (l : list (option session)) (count : Z)
    (sess : session) : list (option session) * Z * Z :=
  match find_free_session l 0 with
  | Some i =>
      (<[i := Some sess]> l,
       if Z.of_nat i >=? count then Z.of_nat i + 1 else count,
       Z.of_nat i + 1)
  | None =>
      let grown := l ++ replicate 5 None in
      let cleared :=
        take (Z.to_nat (count + 1)) grown
        ++ replicate (length grown - Z.to_nat (count + 1)) None in
      (<[Z.to_nat count := Some sess]> cleared, count + 1, count + 1)
  end.

(** [C_OpenSession]; [mem] is the block [malloc] returned, whose fields
    the code does not all initialize. The third component is the handle
    stored through [session]. *)
Definition C_OpenSession (d : driver) (slot_id flags : Z) (mem : session)
  : CK_RV * driver * option Z :=
  match CHECKSLOT d slot_id true with
  | Some rv => (rv, d, None)
  | None =>
      if Z.land flags CKF_SERIAL_SESSION =? 0 then
        (CKR_SESSION_PARALLEL_NOT_SUPPORTED, d, None)
      else
        let '(objs, tok, d) :=
          if slot_id =? CERTIFICATE_SLOT then
            (if bool_decide (cert_list_status d = initialized)
             then cert_obj_list d else [], None, d)
          else
            match slot_list d !! Z.to_nat slot_id with
            | Some (Some a) =>
                match tokens d !! a with
                | Some entry =>
                    (tok_obj_list entry, Some a,
                     set_tokens
                       (<[a := set_refcount
                                 ((tok_refcount entry + 1) mod UINT_MODULUS)
                                 entry]> (tokens d)) d)
                | None => ([], Some a, d)
                end
            | _ => ([], None, d)
            end in
        let sess :=
          {| se_slot_id := slot_id; se_token := tok; se_obj_list := objs;
             se_obj_search_index := se_obj_search_index mem;
             se_search_attrs := [];
             se_state := NO_PENDING; se_key := None;
             se_outsize := se_outsize mem; se_alg := se_alg mem;
             se_dalg := se_dalg mem; se_hash_alg := se_hash_alg mem;
             se_mdc := None |} in
        let '(l, count, handle) :=
          sess_list_add (sess_list d) (sess_list_count d) sess in
        (CKR_OK, set_sess_list l count d, Some handle)
  end.

(** [C_CloseSession]. *)
Definition C_CloseSession (d : driver) (hSession : Z) : CK_RV * driver :=
  match CHECKSESSION d hSession with
  | None => (CKR_SESSION_HANDLE_INVALID, d)
  | Some (i, se) =>
      let d := sess_free se d in
      (CKR_OK, set_sess_list (<[i := None]> (sess_list d))
                             (sess_list_count d) d)
  end.

(** One turn of the loop of [C_CloseAllSessions]. *)
Definition close_if_on_slot (slot_id : Z) (d : driver) (i : nat) : driver :=
  match sess_list d !! i with
  | Some (Some se) =>
      if se_slot_id se =? slot_id then
        let d := sess_free se d in
        set_sess_list (<[i := None]> (sess_list d)) (sess_list_count d) d
      else d
  | _ => d
  end.

(** [C_CloseAllSessions]. *)
Definition C_CloseAllSessions (d : driver) (slot_id : Z) : CK_RV * driver :=
  match CHECKSLOT d slot_id true with
  | Some rv => (rv, d)
  | None =>
      (CKR_OK,
       fold_left (close_if_on_slot slot_id)
                 (seq 0 (Z.to_nat (sess_list_count d))) d)
  end.

(** The first [i < slot_count] with [slot_list[i] == NULL]. *)
Fixpoint find_free_slot (l : list (option addr)) (i : nat) : option nat :=
  match l with
  | [] => None
  | None :: _ => Some i
  | Some _ :: rest => find_free_slot rest (S i)
  end.

(** [CK_SESSION_INFO]. *)
Record CK_SESSION_INFO := {
  slotID : Z;
  info_state : Z;
  info_flags : Z;
  ulDeviceError : Z
}.

Section Registry.
Context `{Platform}.

(** [add_token_id]. [a] is the address [malloc] returns for the entry,
    [lac] the result of [lacontext_new], and [found] what the identity
    query and [add_identity] produce: [None] when
    [SecItemCopyMatching] fails, otherwise the identities that were
    added, in order. *)
Definition add_token_id (d : driver) (tokenid : CFStringRef) (a : addr)
    (lac : option LAContext) (found : option (list id_info)) : driver :=
  match found with
  | None => d
  | Some ids =>
      let token :=
        {| tok_tokenid := tokenid; tok_id_list := ids;
           tok_obj_list := []; tok_logged_in := false;
           tok_label := None; tok_lacontext := lac;
           tok_refcount := 1 |} in
      match ids with
      | [] =>
          slot_entry_free a false
            (set_tokens (<[a := token]> (tokens d)) d)
      | id0 :: _ =>
          let token :=
            {| tok_tokenid := tokenid; tok_id_list := ids;
               tok_obj_list := build_id_objects ids;
               tok_logged_in := false;
               tok_label := Some (id_label id0);
               tok_lacontext := lac;
               tok_refcount := 1 |} in
          let slots :=
            match find_free_slot (slot_list d) 0 with
            | Some i => <[i := Some a]> (slot_list d)
            | None => slot_list d ++ [Some a]
            end in
          set_slot_list slots (set_tokens (<[a := token]> (tokens d)) d)
      end
  end.

(** The loop of [remove_token_id]: the index of the first slot whose
    token has this identifier. *)
Fixpoint find_token_slot (m : gmap addr slot_entry) (tokenid : CFStringRef)
    (l : list (option addr)) (i : nat) : option (nat * addr) :=
  match l with
  | [] => None
  | s :: rest =>
      match s with
      | Some a =>
          match m !! a with
          | Some entry =>
              if tokenid =? tok_tokenid entry then Some (i, a)
              else find_token_slot m tokenid rest (S i)
          | None => find_token_slot m tokenid rest (S i)
          end
      | None => find_token_slot m tokenid rest (S i)
      end
  end.

(** [remove_token_id]. *)
Definition remove_token_id (d : driver) (tokenid : CFStringRef) : driver :=
  match find_token_slot (tokens d) tokenid (slot_list d) 0 with
  | Some (i, a) =>
      let d := slot_entry_free a false d in
      set_slot_list (<[i := None]> (slot_list d)) d
  | None => d
  end.

(** [background_cert_scan] over the certificates the scan selected. *)
Definition background_cert_scan (d : driver)
    (cert_list : list SecCertificateRef) : driver :=
  set_cert_objects initialized (build_cert_objects cert_list) d.

(** The loop of [C_Login] over the identities of the token: the result
    and the calls made; the first failure ends the loop. *)
Fixpoint login_loop (ctx : LAContext) (pin : list byte)
    (ids : list id_info) : CK_RV * list la_event :=
  match ids with
  | [] => (CKR_OK, [])
  | idp :: rest =>
      let usage := if privcansign idp then USAGE_SIGN else USAGE_DECRYPT in
      let ev := la_auth ctx pin (id_secaccess idp) usage in
      match lacontext_auth ctx pin (id_secaccess idp) usage with
      | CKR_OK =>
          let '(rv, evs) := login_loop ctx pin rest in (rv, ev :: evs)
      | rv => (rv, [ev])
      end
  end.

(** [C_Login]; [pin = None] is the null PIN pointer. *)
Definition C_Login (d : driver) (hSession : Z) (usertype : Z)
    (pin : option (list byte)) : CK_RV * driver :=
  match CHECKSESSION d hSession with
  | None => (CKR_SESSION_HANDLE_INVALID, d)
  | Some (_, se) =>
      match se_token se with
      | None => (CKR_OK, d)
      | Some a =>
          match tokens d !! a with
          | None => (CKR_OK, d)
          | Some token =>
              match pin with
              | Some p =>
                  match tok_lacontext token with
                  | None => (CKR_OK, d)
                  | Some ctx =>
                      match login_loop ctx p (tok_id_list token) with
                      | (CKR_OK, evs) =>
                          (CKR_OK,
                           log_events evs
                             (set_tokens
                                (<[a := set_logged_in true token]>
                                   (tokens d)) d))
                      | (rv, evs) => (rv, log_events evs d)
                      end
                  end
              | None =>
                  (CKR_OK,
                   set_tokens
                     (<[a := set_logged_in true token]> (tokens d)) d)
              end
          end
      end
  end.

(** [C_Logout]. *)
Definition C_Logout (d : driver) (hSession : Z) : CK_RV * driver :=
  match CHECKSESSION d hSession with
  | None => (CKR_SESSION_HANDLE_INVALID, d)
  | Some (_, se) =>
      match se_token se with
      | None => (CKR_OK, d)
      | Some a =>
          match tokens d !! a with
          | None => (CKR_OK, d)
          | Some token =>
              let '(token, evs) := token_logout token in
              (CKR_OK,
               log_events evs (set_tokens (<[a := token]> (tokens d)) d))
          end
      end
  end.

(** [C_GetSessionInfo]; [session_info] tells whether the caller's
    pointer is non-null. *)
Definition C_GetSessionInfo (d : driver) (hSession : Z)
    (session_info : bool) : CK_RV * option CK_SESSION_INFO :=
  match CHECKSESSION d hSession with
  | None => (CKR_SESSION_HANDLE_INVALID, None)
  | Some (_, se) =>
      if negb session_info then (CKR_ARGUMENTS_BAD, None)
      else
        let logged :=
          match se_token se with
          | Some a =>
              match tokens d !! a with
              | Some token => tok_logged_in token
              | None => false
              end
          | None => false
          end in
        (CKR_OK,
         Some {| slotID := se_slot_id se;
                 info_state := if logged then CKS_RO_USER_FUNCTIONS
                               else CKS_RO_PUBLIC_SESSION;
                 info_flags := CKF_SERIAL_SESSION;
                 ulDeviceError := 0 |})
  end.

(** The entry points that work on one session only, with their
    arguments. *)
Inductive session_op : Type :=
  | OpGetAttributeValue (object : Z) (template : list CK_ATTRIBUTE)
  | OpFindObjectsInit (template : list CK_ATTRIBUTE)
  | OpFindObjects (object : bool) (maxcount : Z)
  | OpFindObjectsFinal
  | OpEncryptInit (mech : option CK_MECHANISM) (object : Z)
  | OpEncrypt (indata : list byte) (outdata : option (list byte))
              (outdatalen : Z)
  | OpDecryptInit (mech : option CK_MECHANISM) (key : Z)
  | OpDecrypt (indata : list byte) (outdata : option (list byte))
              (outdatalen : Z)
  | OpSignInit (mech : CK_MECHANISM) (object : Z)
  | OpSign (indata : list byte) (sig : option (list byte)) (siglen : Z)
  | OpSignUpdate (indata : list byte)
  | OpSignFinal (sig : option (list byte)) (siglen : Z)
  | OpVerifyInit (mech : CK_MECHANISM) (key : Z)
  | OpVerify (indata sig : list byte)
  | OpVerifyUpdate (indata : list byte)
  | OpVerifyFinal (sig : list byte).

(** The result code and the session an entry point leaves; [None] only
    for a [C_FindObjectsInit] that reads outside the caller's memory and
    for a [C_FindObjects] whose comparison is undefined. *)
Definition run_op (op : session_op) (se : session)
  : option (CK_RV * session) :=
  match op with
  | OpGetAttributeValue object template =>
      Some ((C_GetAttributeValue se object template).2, se)
  | OpFindObjectsInit template => C_FindObjectsInit se template
  | OpFindObjects object maxcount =>
      match C_FindObjects se object maxcount with
      | Some r => Some r.1
      | None => None
      end
  | OpFindObjectsFinal => Some (C_FindObjectsFinal se)
  | OpEncryptInit mech object => Some (C_EncryptInit se mech object)
  | OpEncrypt indata outdata outdatalen =>
      let r := C_Encrypt se indata outdata outdatalen in
      Some (cr_rv r, cr_session r)
  | OpDecryptInit mech key => Some (C_DecryptInit se mech key)
  | OpDecrypt indata outdata outdatalen =>
      let r := C_Decrypt se indata outdata outdatalen in
      Some (cr_rv r, cr_session r)
  | OpSignInit mech object => Some (C_SignInit se mech object)
  | OpSign indata sig siglen =>
      let r := C_Sign se indata sig siglen in
      Some (cr_rv r, cr_session r)
  | OpSignUpdate indata => Some (C_SignUpdate se indata)
  | OpSignFinal sig siglen =>
      let r := C_SignFinal se sig siglen in
      Some (cr_rv r, cr_session r)
  | OpVerifyInit mech key => Some (C_VerifyInit se mech key)
  | OpVerify indata sig => Some (C_Verify se indata sig)
  | OpVerifyUpdate indata => Some (C_VerifyUpdate se indata)
  | OpVerifyFinal sig => Some (C_VerifyFinal se sig)
  end.

(** The states the driver can be in between [C_Initialize] and
    [C_Finalize]: token insertion and removal events, the end of the
    certificate scan, and every call of the session API. [malloc]
    returns an address that is not in use, and the session array stays
    below the range of its [unsigned int] size, which the code grows
    without a test. *)
Inductive reachable : driver -> Prop :=
  | reach_init cert_slot :
      reachable (driver_init cert_slot)
  | reach_add_token d tokenid a lac found :
      reachable d -> tokens d !! a = None ->
      reachable (add_token_id d tokenid a lac found)
  | reach_remove_token d tokenid :
      reachable d -> reachable (remove_token_id d tokenid)
  | reach_cert_scan d cert_list :
      reachable d -> cert_list_status d = initializing ->
      reachable (background_cert_scan d cert_list)
  | reach_OpenSession d slot_id flags mem :
      reachable d ->
      Z.of_nat (length (sess_list d)) + 5 < UINT_MODULUS ->
      reachable (C_OpenSession d slot_id flags mem).1.2
  | reach_CloseSession d hSession :
      reachable d -> reachable (C_CloseSession d hSession).2
  | reach_CloseAllSessions d slot_id :
      reachable d -> reachable (C_CloseAllSessions d slot_id).2
  | reach_Login d hSession usertype pin :
      reachable d -> reachable (C_Login d hSession usertype pin).2
  | reach_Logout d hSession :
      reachable d -> reachable (C_Logout d hSession).2
  | reach_session_op d hSession i se op rv se' :
      reachable d -> CHECKSESSION d hSession = Some (i, se) ->
      run_op op se = Some (rv, se') ->
      reachable (set_sess_list (<[i := Some se']> (sess_list d))
                               (sess_list_count d) d).

End Registry.

(** ** Vocabulary of the specification

    The predicates in which the theorems below state what the entry points
    do. *)

(** The [CKA_ID] attribute with value [objid]. *)
Definition id_attribute (objid : list byte) : CK_ATTRIBUTE :=
  {| type := CKA_ID; pValue := Some objid;
     ulValueLen := Z.of_nat (length objid) |}.



(** An attribute whose value pointer is not null points to exactly
    [ulValueLen] bytes. *)
Definition attr_wf (a : CK_ATTRIBUTE) : Prop :=
  match pValue a with
  | Some v => Z.of_nat (length v) = ulValueLen a
  | None => True
  end.

Definition attr_types (o : obj_info) : list Z := map type (obj_attrs o).

(** An attribute as [ADD_ATTR_SIZE] stores it: its value pointer is not
    null and the value has the length the attribute records. *)
Definition attr_valued (a : CK_ATTRIBUTE) : Prop :=
  exists v, pValue a = Some v /\ Z.of_nat (length v) = ulValueLen a.

(** What the builders guarantee and [search_object] assumes ("we only
    have one copy of an attribute in an object"): the types of the
    attributes are distinct and every attribute carries a value. *)
Definition obj_ok (o : obj_info) : Prop :=
  NoDup (attr_types o) /\ Forall attr_valued (obj_attrs o).

(** The template attribute [t] occurs in the object: same type, same
    length, and equal value, two null pointers counting as equal. *)
Definition attr_occurs (o : obj_info) (t : CK_ATTRIBUTE) : Prop :=
  exists a, a ∈ obj_attrs o /\ type a = type t
            /\ ulValueLen a = ulValueLen t /\ pValue a = pValue t.

(** The handles of the objects from position [idx] on that match. *)
Fixpoint matching_from (objs : list obj_info) (idx : Z)
    (attrs : list CK_ATTRIBUTE) : list Z :=
  match objs with
  | [] => []
  | obj :: rest =>
      if bool_decide (search_object obj attrs = Some true)
      then (idx + 1) :: matching_from rest (idx + 1) attrs
      else matching_from rest (idx + 1) attrs
  end.

(** The handles a session has not yet handed out. *)
Definition remaining (se : session) : list Z :=
  matching_from (drop (Z.to_nat (se_obj_search_index se)) (se_obj_list se))
                (se_obj_search_index se) (se_search_attrs se).

(** Repeated calls of [C_FindObjects], one per element of [maxcounts]:
    all the handles returned, in order, up to a call that is undefined. *)
Fixpoint find_repeatedly (se : session) (maxcounts : list Z) : list Z :=
  match maxcounts with
  | [] => []
  | m :: rest =>
      match C_FindObjects se true m with
      | Some (_, se', found) => found ++ find_repeatedly se' rest
      | None => []
      end
  end.

(** The OAEP [source] the validator accepts. *)
Definition oaep_source_ok (oaep : CK_RSA_PKCS_OAEP_PARAMS) : Prop :=
  oaep_source oaep = 0
  \/ (oaep_source oaep = CKZ_DATA_SPECIFIED /\ oaep_pSourceData oaep = 0
      /\ oaep_ulSourceDataLen oaep = 0).

(** [row] is the first row of [rows] that [matches] accepts. *)
Definition first_match (matches : param_map -> bool) (rows : list param_map)
    (row : param_map) : Prop :=
  exists before after,
    rows = before ++ row :: after /\ matches row = true
    /\ Forall (fun r => matches r = false) before.

(** A row of the parameter map agrees with an OAEP request on
    (base mechanism, hash algorithm, MGF), with a PSS request on
    (base mechanism, hash algorithm, MGF, salt length). *)
Definition oaep_row (mech : Z) (oaep : CK_RSA_PKCS_OAEP_PARAMS)
    (row : param_map) : Prop :=
  mech = base_type row /\ oaep_hashAlg oaep = hash_alg row
  /\ oaep_mgf oaep = mgf row.

Definition pss_row (mech : Z) (pss : CK_RSA_PKCS_PSS_PARAMS)
    (row : param_map) : Prop :=
  mech = base_type row /\ pss_hashAlg pss = hash_alg row
  /\ pss_mgf pss = mgf row /\ pss_sLen pss = slen row.

Section InitVocabulary.
Context `{Platform}.

(** What a successful [*-init] has established. *)
Definition init_ok (se : session) (mptr : CK_MECHANISM) (handle : Z)
    (cl flag : Z) (capable : id_info -> bool) (keyof : id_info -> SecKeyRef)
    (st : s_state) (se' : session) : Prop :=
  exists (obj : obj_info) (idp : id_info) (mm : mechanism_map)
         (algs : mech_algs),
    object_at se handle = Some obj
    /\ se_state se = NO_PENDING
    /\ obj_class obj = cl
    /\ obj_id obj = Some idp
    /\ capable idp = true
    /\ mechmap_for mptr flag = Some mm
    /\ mech_param_validate mptr mm = Some algs
    /\ se_state se' = st
    /\ se_key se' = Some (keyof idp)
    /\ se_outsize se' = operation_outsize mm (keyof idp).

End InitVocabulary.

(** The three outcomes of a call that cannot deliver its output, for a
    single-shot entry point [call] that runs in state [init]: a size probe
    (null output pointer) with a known size, one with an unknown size, and
    a buffer shorter than the known size. Each leaves the session as it
    was. *)
Definition probe_behaviour
    (call : session -> list byte -> option (list byte) -> Z -> crypt_result)
    (init : s_state) : Prop :=
  forall (se : session) (indata : list byte) (len : Z),
    se_state se = init ->
    (se_outsize se <> 0 ->
     call se indata None len
     = {| cr_rv := CKR_OK; cr_session := se;
          cr_out := None; cr_outlen := se_outsize se |})
    /\ (se_outsize se = 0 ->
        call se indata None len
        = {| cr_rv := CKR_BUFFER_TOO_SMALL; cr_session := se;
             cr_out := None; cr_outlen := len |})
    /\ (forall buf : list byte,
          se_outsize se <> 0 -> len < se_outsize se ->
          call se indata (Some buf) len
          = {| cr_rv := CKR_BUFFER_TOO_SMALL; cr_session := se;
               cr_out := Some buf; cr_outlen := se_outsize se |}).

(** A template entry [C_FindObjectsInit] can copy: its length is the
    unavailable sentinel, or its value pointer has that many bytes. *)
Definition readable (t : CK_ATTRIBUTE) : Prop :=
  ulValueLen t = CK_UNAVAILABLE_INFORMATION
  \/ ulValueLen t <= Z.of_nat (length (bytes_at (pValue t))).

(** [t'] is the deep copy of the template entry [t]. *)
Definition copied (t t' : CK_ATTRIBUTE) : Prop :=
  type t' = type t /\ ulValueLen t' = ulValueLen t
  /\ pValue t' =
       if ulValueLen t =? CK_UNAVAILABLE_INFORMATION then None
       else Some (take (Z.to_nat (ulValueLen t)) (bytes_at (pValue t))).

(** The calls that can end the operation a session has in progress when
    it is in state [st]: the single-shot, update and final calls of that
    operation. *)
Definition ends_operation (op : session_op) (st : s_state) : Prop :=
  match op, st with
  | OpEncrypt _ _ _, E_INIT => True
  | OpDecrypt _ _ _, D_INIT => True
  | OpSign _ _ _, S_INIT => True
  | OpSignUpdate _, S_INIT => True
  | OpSignFinal _ _, S_UPDATE => True
  | OpVerify _ _, V_INIT => True
  | OpVerifyUpdate _, V_INIT => True
  | OpVerifyFinal _, V_UPDATE => True
  | _, _ => False
  end.

(** The number of elements of [l] that satisfy [p]. *)
Fixpoint count_if {A : Type} (p : A -> bool) (l : list A) : nat :=
  match l with
  | [] => 0%nat
  | x :: rest => ((if p x then 1 else 0) + count_if p rest)%nat
  end.

(** The slot cell [s] holds the token at [a]; the session cell [s] is an
    open session bound to the token at [a]. *)
Definition slot_holds (a : addr) (s : option addr) : bool :=
  bool_decide (s = Some a).

Definition session_on (a : addr) (s : option session) : bool :=
  match s with
  | Some se => bool_decide (se_token se = Some a)
  | None => false
  end.

(** The number of slots that hold the token at [a] (0 or 1) and the
    number of open sessions bound to it. *)
Definition slots_holding (d : driver) (a : addr) : nat :=
  count_if (slot_holds a) (slot_list d).

Definition open_sessions (d : driver) (a : addr) : nat :=
  count_if (session_on a) (sess_list d).

(** The invariant of the registries: a live token counts its references,
    a freed address has none, a token sits in at most one slot, and the
    session array is in order ([sess_list_count] cells in use at most,
    the cells behind them null, the size within its type). *)
Record driver_inv (d : driver) : Prop := {
  inv_refcount : forall a entry,
    tokens d !! a = Some entry ->
    tok_refcount entry
    = Z.of_nat (slots_holding d a) + Z.of_nat (open_sessions d a)
    /\ 0 < tok_refcount entry;
  inv_freed : forall a,
    tokens d !! a = None ->
    slots_holding d a = 0%nat /\ open_sessions d a = 0%nat;
  inv_one_slot : forall a, (slots_holding d a <= 1)%nat;
  inv_count : 0 <= sess_list_count d <= Z.of_nat (length (sess_list d));
  inv_tail : forall i s,
    sess_list_count d <= Z.of_nat i -> sess_list d !! i = Some s -> s = None;
  inv_size : Z.of_nat (length (sess_list d)) < UINT_MODULUS
}.

(** The driver [d'] is [d] after one reference to the live token at [a]
    has been dropped: the entry is freed when its count was 1; otherwise
    the count is one less, and when it went from 2 to 1 the token was
    logged out of (flag cleared, context released through
    [lacontext_logout]). *)
Definition released (d : driver) (a : addr) (d' : driver) : Prop :=
  match tokens d !! a with
  | None => True
  | Some entry =>
      if tok_refcount entry =? 1 then tokens d' !! a = None
      else
        exists entry',
          tokens d' !! a = Some entry'
          /\ tok_refcount entry' = tok_refcount entry - 1
          /\ (tok_refcount entry = 2 ->
              tok_logged_in entry' = false /\ tok_lacontext entry' = None
              /\ la_trace d'
                 = la_trace d
                   ++ match tok_lacontext entry with
                      | Some ctx => [la_logout ctx]
                      | None => []
                      end)
          /\ (2 < tok_refcount entry ->
              entry' = set_refcount (tok_refcount entry - 1) entry
              /\ la_trace d' = la_trace d)
  end.

(** ** A small host and small states for the examples

    The tables of [tables.h] are not part of the sources at hand; the
    rows below are examples of their shape (a mechanism without
    parameters, one with OAEP and one with PSS parameters, and one row of
    the parameter map for each of the latter two). *)

Definition CKM_RSA_PKCS : Z := 0x1.
Definition CKM_RSA_PKCS_OAEP : Z := 0x9.
Definition CKM_RSA_PKCS_PSS : Z := 0xD.
Definition CKM_SHA256 : Z := 0x250.
Definition CKM_SHA512 : Z := 0x270.
Definition CKG_MGF1_SHA256 : Z := 0x2.

Definition example_platform : Platform :=
  {| SecCertificateCopyData := fun cert => [byte_of_Z cert];
     SecKeyGetBlockSize := fun _ => 256;
     SecKeyCopyExternalRepresentation := fun _ => None;
     SecKeyCreateEncryptedData := fun _ _ data => Some data;
     SecKeyCreateDecryptedData := fun _ _ data => Some data;
     SecKeyCreateSignature := fun _ _ data => Some data;
     SecKeyVerifySignature := fun _ _ data sig => bool_decide (data = sig);
     getkeylabel := fun _ => [];
     SecCertificateCopySubjectSummary := fun _ => [];
     get_certificate_info := fun _ => (None, None, None);
     get_pubkey_info := fun _ => (false, None, None);
     is_cert_ca := fun _ => false;
     cc_md_supported := fun _ => true;
     cc_digest := fun _ data => data;
     lacontext_auth := fun _ _ _ _ => CKR_OK;
     keychain_mechmap :=
       [ {| cki_mech := CKM_RSA_PKCS;
            usage_flags := 0x2B00;
            blocksize_out := true; parameters := NONE;
            sec_encmech := Some 1; sec_signmech := Some 2;
            sec_dsignmech := None; sec_digest := 0 |};
         {| cki_mech := CKM_RSA_PKCS_OAEP;
            usage_flags := 0x300;
            blocksize_out := true; parameters := OAEP;
            sec_encmech := None; sec_signmech := None;
            sec_dsignmech := None; sec_digest := 0 |};
         {| cki_mech := CKM_RSA_PKCS_PSS;
            usage_flags := 0x2800;
            blocksize_out := true; parameters := PSS;
            sec_encmech := None; sec_signmech := None;
            sec_dsignmech := None; sec_digest := 0 |} ];
     keychain_param_map :=
       [ {| base_type := CKM_RSA_PKCS_OAEP; hash_alg := CKM_SHA256;
            mgf := CKG_MGF1_SHA256; slen := 0;
            encalg := Some 3; signalg := None; dsignalg := None |};
         {| base_type := CKM_RSA_PKCS_PSS; hash_alg := CKM_SHA256;
            mgf := CKG_MGF1_SHA256; slen := 32;
            encalg := None; signalg := Some 4; dsignalg := Some 5 |} ] |}.

(** An identity whose public key may verify but not encrypt, and whose
    private key may sign but not decrypt. *)
Definition example_identity : id_info :=
  {| id_ident := 1; id_cert := 2; id_privkey := 3; id_pubkey := 4;
     id_pkeyhash := []; id_keytype := 0; id_secaccess := 5;
     id_label := [Byte.x41];
     privcansign := true; privcandecrypt := false;
     pubcanverify := true; pubcanencrypt := false; pubcanwrap := false |}.

Definition example_objects : list obj_info :=
  @build_id_objects example_platform [example_identity; example_identity].

(** A session of a hardware token, bound to the token at address 0, as
    [C_OpenSession] leaves it. *)
Definition example_session : session :=
  {| se_slot_id := 0; se_token := Some 0%nat;
     se_obj_list := example_objects;
     se_obj_search_index := 0; se_search_attrs := [];
     se_state := NO_PENDING; se_key := None; se_outsize := 0;
     se_alg := None; se_dalg := None; se_hash_alg := 0; se_mdc := None |}.

Definition example_mechanism : CK_MECHANISM :=
  {| mechanism := CKM_RSA_PKCS; pParameter := None; ulParameterLen := 0 |}.

(** OAEP with SHA-256 and MGF1-SHA-256, and with SHA-512 and
    MGF1-SHA-256. *)
Definition example_oaep (hashAlg : Z) : CK_MECHANISM :=
  {| mechanism := CKM_RSA_PKCS_OAEP;
     pParameter := Some [hashAlg; CKG_MGF1_SHA256; CKZ_DATA_SPECIFIED; 0; 0];
     ulParameterLen := sizeof_oaep |}.

(** The token of [example_session], without local-authentication
    context, in slot 0 with that one session open. *)
Definition example_token : slot_entry :=
  {| tok_tokenid := 7; tok_id_list := [example_identity; example_identity];
     tok_obj_list := example_objects; tok_logged_in := false;
     tok_label := Some [Byte.x41]; tok_lacontext := None;
     tok_refcount := 2 |}.

Definition example_driver : driver :=
  {| slot_list := [Some 0%nat]; tokens := {[ 0%nat := example_token ]};
     sess_list := [Some example_session; None; None; None; None];
     sess_list_count := 1;
     cert_slot_enabled := false; cert_list_status := uninitialized;
     cert_obj_list := []; la_trace := [] |}.

(** The driver after [C_Initialize], the insertion of a token with one
    identity and a [C_OpenSession] on slot 0. *)
Definition example_reached : driver :=
  (@C_OpenSession
     (@add_token_id example_platform (driver_init false) 7 0%nat None
        (Some [example_identity]))
     0 CKF_SERIAL_SESSION example_session).1.2.

(** [example_session] in the middle of a multi-part signature, and right
    after [C_SignInit], with a key whose block size is 256. *)
Definition example_signing_session : session :=
  set_state S_UPDATE
    (set_outsize 256 (set_key (Some 3) (set_dalg (Some 5) example_session))).

Definition example_sign_init_session : session :=
  set_state S_INIT
    (set_outsize 256 (set_key (Some 3) (set_alg (Some 2) example_session))).

(** PSS with SHA-256, MGF1-SHA-256 and a salt of 32 bytes; the entry of
    the mechanism table for OAEP; a template asking for the class of an
    object into a buffer of eight bytes. *)
Definition example_pss : CK_MECHANISM :=
  {| mechanism := CKM_RSA_PKCS_PSS;
     pParameter := Some [CKM_SHA256; CKG_MGF1_SHA256; 32];
     ulParameterLen := sizeof_pss |}.

Definition example_oaep_entry : mechanism_map :=
  {| cki_mech := CKM_RSA_PKCS_OAEP; usage_flags := 0x300;
     blocksize_out := true; parameters := OAEP;
     sec_encmech := None; sec_signmech := None;
     sec_dsignmech := None; sec_digest := 0 |}.

Definition example_template : list CK_ATTRIBUTE :=
  [ {| type := CKA_CLASS; pValue := Some (le_bytes 8 CKO_PRIVATE_KEY);
       ulValueLen := 8 |} ].

(** ** Slot and mechanism listings, padded strings *)

(** The counting loop of [C_GetSlotList]:
    [for (i = 0, count = 0; i < slot_count; i++) if (slot_list[i]) count++;]
    on an [unsigned int]. *)
Fixpoint count_present (slots : list (option addr)) (count : Z) : Z :=
  match slots with
  | [] => count
  | Some _ :: rest => count_present rest ((count + 1) mod UINT_MODULUS)
  | None :: rest => count_present rest count
  end.

(** The storing loop of [C_GetSlotList]: [slots] are the cells from [i]
    on, [buf] is the caller's array and [sindex] the next position in
    it. *)
Fixpoint store_slots (token_present : bool) (slots : list (option addr))
    (i : Z) (buf : list Z) (sindex : Z) : list Z * Z :=
  match slots with
  | [] => (buf, sindex)
  | s :: rest =>
      if negb token_present || bool_decide (s <> None) then
        store_slots token_present rest (i + 1)
                    (<[Z.to_nat sindex := i]> buf)
                    ((sindex + 1) mod UINT_MODULUS)
      else store_slots token_present rest (i + 1) buf sindex
  end.

(** [C_GetSlotList]. [ret_slot_list] is the caller's array ([None] for
    a null pointer), which has at least [*slot_num] cells, and [slot_num]
    the value of [*slot_num] on entry. Returns the result code, the
    array, and the value stored into [*slot_num]. *)
Definition C_GetSlotList (d : driver) (token_present : bool)
    (ret_slot_list : option (list Z)) (slot_num : Z)
  : CK_RV * option (list Z) * Z :=
  let count :=
    if token_present then count_present (slot_list d) 0
    else Z.of_nat (length (slot_list d)) in
  let count :=
    if cert_slot_enabled d then (count + 1) mod UINT_MODULUS else count in
  match ret_slot_list with
  | None => (CKR_OK, None, count)
  | Some buf =>
      if slot_num <? count then (CKR_BUFFER_TOO_SMALL, Some buf, count)
      else
        let '(buf, sindex) :=
          store_slots token_present (slot_list d) 0 buf 0 in
        if cert_slot_enabled d then
          if negb (sindex =? (count - 1) mod UINT_MODULUS) then
            (CKR_GENERAL_ERROR, Some buf, count)
          else
            (CKR_OK, Some (<[Z.to_nat sindex := CERTIFICATE_SLOT]> buf),
             count)
        else (CKR_OK, Some buf, count)
  end.

(** The loop [for (i = 0; i < keychain_mechmap_size; i++)
    mechlist[i] = keychain_mechmap[i].cki_mech;] *)
Fixpoint store_mechanisms (table : list mechanism_map) (i : nat)
    (buf : list Z) : list Z :=
  match table with
  | [] => buf
  | mm :: rest => store_mechanisms rest (S i) (<[i := cki_mech mm]> buf)
  end.

(** [C_GetMechanismList]; [keychain_mechmap_size] is the number of rows
    of [keychain_mechmap]. *)
Definition C_GetMechanismList `{Platform} (d : driver) (slot_id : Z)
    (mechlist : option (list Z)) (mechnum : Z)
  : CK_RV * option (list Z) * Z :=
  match CHECKSLOT d slot_id true with
  | Some rv => (rv, mechlist, mechnum)
  | None =>
      let size := Z.of_nat (length keychain_mechmap) in
      match mechlist with
      | None => (CKR_OK, None, size)
      | Some buf =>
          if mechnum <? size then (CKR_BUFFER_TOO_SMALL, Some buf, size)
          else (CKR_OK, Some (store_mechanisms keychain_mechmap 0 buf), size)
      end
  end.

(** [strncpy(dest, s, n)] for a string [s] given without its
    terminator: at most [n] bytes are copied, and a shorter string is
    followed by null bytes up to [n]. *)
Definition strncpy (dest s : list byte) (n : nat) : list byte :=
  take n (s ++ replicate (n - length s) Byte.x00) ++ drop n dest.

(** [memset(dest + off, c, n)]. *)
Definition memset (dest : list byte) (off : nat) (c : byte) (n : nat)
  : list byte :=
  take off dest ++ replicate n c ++ drop (off + n) dest.

(** [sprintfpad]: [dest] is the field, of [destsize] bytes, and
    [formatted] what [vasprintf] produced, [None] when it failed; [rc] is
    then the length of the string, or [-1]. *)
Definition sprintfpad (dest : list byte) (destsize : Z)
    (formatted : option (list byte)) : list byte :=
  let rc :=
    match formatted with
    | Some s => Z.of_nat (length s)
    | None => -1
    end in
  if rc <? 1 then memset dest 0 Byte.x20 (Z.to_nat destsize)
  else
    let dest := strncpy dest (default [] formatted) (Z.to_nat destsize) in
    if rc <? destsize then
      memset dest (Z.to_nat rc) Byte.x20 (Z.to_nat (destsize - rc))
    else dest.

(** The slot identifiers [C_GetSlotList] is to report: the positions of
    the cells of [slots], from position [i] on, that hold a token, or of
    all cells when [token_present] is false. *)
Fixpoint listed_from (token_present : bool) (slots : list (option addr))
    (i : Z) : list Z :=
  match slots with
  | [] => []
  | s :: rest =>
      if negb token_present || bool_decide (s <> None)
      then i :: listed_from token_present rest (i + 1)
      else listed_from token_present rest (i + 1)
  end.

Definition listed_slots (d : driver) (token_present : bool) : list Z :=
  listed_from token_present (slot_list d) 0
  ++ (if cert_slot_enabled d then [CERTIFICATE_SLOT] else []).

(** The session cell [s] after [C_CloseAllSessions] on [slot_id] has
    visited it. *)
Definition closed_on (slot_id : Z) (s : option session) : option session :=
  match s with
  | Some se => if se_slot_id se =? slot_id then None else Some se
  | None => None
  end.

(** The call [C_Login] makes for one identity: its key usage, the result
    of [lacontext_auth], and the entry of the trace. *)
Definition login_usage (idp : id_info) : la_keyusage :=
  if privcansign idp then USAGE_SIGN else USAGE_DECRYPT.

Definition login_auth `{Platform} (ctx : LAContext) (pin : list byte)
    (idp : id_info) : CK_RV :=
  lacontext_auth ctx pin (id_secaccess idp) (login_usage idp).

Definition login_event (ctx : LAContext) (pin : list byte) (idp : id_info)
  : la_event :=
  la_auth ctx pin (id_secaccess idp) (login_usage idp).

(** [example_driver] with a local-authentication context on its token;
    a platform whose [lacontext_auth] rejects every PIN but [1]. *)
Definition example_login_driver : driver :=
  set_tokens {[ 0%nat := set_lacontext (Some 9) example_token ]}
             example_driver.

Definition example_pin_platform : Platform :=
  {| SecCertificateCopyData := @SecCertificateCopyData example_platform;
     SecKeyGetBlockSize := @SecKeyGetBlockSize example_platform;
     SecKeyCopyExternalRepresentation :=
       @SecKeyCopyExternalRepresentation example_platform;
     SecKeyCreateEncryptedData :=
       @SecKeyCreateEncryptedData example_platform;
     SecKeyCreateDecryptedData :=
       @SecKeyCreateDecryptedData example_platform;
     SecKeyCreateSignature := @SecKeyCreateSignature example_platform;
     SecKeyVerifySignature := @SecKeyVerifySignature example_platform;
     getkeylabel := @getkeylabel example_platform;
     SecCertificateCopySubjectSummary :=
       @SecCertificateCopySubjectSummary example_platform;
     get_certificate_info := @get_certificate_info example_platform;
     get_pubkey_info := @get_pubkey_info example_platform;
     is_cert_ca := @is_cert_ca example_platform;
     cc_md_supported := @cc_md_supported example_platform;
     cc_digest := @cc_digest example_platform;
     lacontext_auth := fun _ pin _ _ =>
       if bool_decide (pin = [Byte.x31]) then CKR_OK
       else CKR_PIN_INCORRECT;
     keychain_mechmap := @keychain_mechmap example_platform;
     keychain_param_map := @keychain_param_map example_platform |}.

(** The moves of the operation state that the entry points make: from
    state [st], the call [op] returning [rv] leaves the state [st']. A
    call that does not move the state is always allowed. *)
Definition transition (st : s_state) (op : session_op) (rv : CK_RV)
    (st' : s_state) : Prop :=
  st' = st
  \/ match op, st with
     | OpEncryptInit _ _, NO_PENDING => rv = CKR_OK /\ st' = E_INIT
     | OpDecryptInit _ _, NO_PENDING => rv = CKR_OK /\ st' = D_INIT
     | OpSignInit _ _, NO_PENDING => rv = CKR_OK /\ st' = S_INIT
     | OpVerifyInit _ _, NO_PENDING => rv = CKR_OK /\ st' = V_INIT
     | OpEncrypt _ (Some _) _, E_INIT
     | OpDecrypt _ (Some _) _, D_INIT
     | OpSign _ (Some _) _, S_INIT =>
         st' = NO_PENDING /\ (rv = CKR_OK \/ rv = CKR_GENERAL_ERROR)
     | OpVerify _ _, V_INIT =>
         st' = NO_PENDING /\ (rv = CKR_OK \/ rv = CKR_SIGNATURE_INVALID)
     | OpSignUpdate _, S_INIT =>
         (rv = CKR_OK /\ st' = S_UPDATE)
         \/ (rv = CKR_GENERAL_ERROR /\ st' = NO_PENDING)
     | OpVerifyUpdate _, V_INIT =>
         (rv = CKR_OK /\ st' = V_UPDATE)
         \/ (rv = CKR_GENERAL_ERROR /\ st' = NO_PENDING)
     | OpSignFinal (Some _) _, S_UPDATE =>
         st' = NO_PENDING /\ (rv = CKR_OK \/ rv = CKR_FUNCTION_FAILED)
     | _, _ => False
     end.

(** The four [*-init] calls. *)
Definition is_init (op : session_op) : bool :=
  match op with
  | OpEncryptInit _ _ | OpDecryptInit _ _ | OpSignInit _ _
  | OpVerifyInit _ _ => true
  | _ => false
  end.

(** The states whose test a single-shot, update or final call passes;
    [None] for the calls that have no such test. *)
Definition accepted_states (op : session_op) : option (list s_state) :=
  match op with
  | OpEncrypt _ _ _ => Some [E_INIT]
  | OpDecrypt _ _ _ => Some [D_INIT]
  | OpSign _ _ _ => Some [S_INIT]
  | OpSignUpdate _ => Some [S_INIT; S_UPDATE]
  | OpSignFinal _ _ => Some [S_UPDATE]
  | OpVerify _ _ => Some [V_INIT]
  | OpVerifyUpdate _ => Some [V_INIT; V_UPDATE]
  | OpVerifyFinal _ => Some [V_UPDATE]
  | _ => None
  end.

(** A sequence of calls on one session. *)
Fixpoint run_ops `{Platform} (ops : list session_op) (se : session)
  : option session :=
  match ops with
  | [] => Some se
  | op :: rest =>
      match run_op op se with
      | Some (_, se') => run_ops rest se'
      | None => None
      end
  end.

(** [example_session] after [C_VerifyInit] with PSS parameters on the
    public key and one [C_VerifyUpdate]. *)
Definition example_verifying_session : session :=
  (@C_VerifyUpdate example_platform
     (@C_VerifyInit example_platform example_session example_pss 2).2
     [Byte.x41]).2.

(** [C_SignUpdate] called once for each part of the data: the result
    codes and the session afterwards. *)
Fixpoint sign_updates `{Platform} (se : session) (parts : list (list byte))
  : list CK_RV * session :=
  match parts with
  | [] => ([], se)
  | part :: rest =>
      let '(rv, se') := C_SignUpdate se part in
      let '(rvs, se'') := sign_updates se' rest in
      (rv :: rvs, se'')
  end.




(** * Properties *)

Lemma Z_of_byte_range b : 0 <= Z_of_byte b < 256.
Proof.
  unfold Z_of_byte. pose proof (Byte.to_N_bounded b). lia.
Qed.

Lemma Z_of_byte_of_Z z : Z_of_byte (byte_of_Z z) = z mod 256.
Proof.
  unfold byte_of_Z, Z_of_byte.
  pose proof (Z.mod_pos_bound z 256 ltac:(lia)) as Hb.
  destruct (Byte.of_N (Z.to_N (z mod 256))) as [b|] eqn:E.
  - apply Byte.to_of_N in E. rewrite E. lia.
  - apply Byte.of_N_None_iff in E. lia.
Qed.

Lemma be_value_app bs b : be_value (bs ++ [b]) = be_value bs * 256 + Z_of_byte b.
Proof. unfold be_value. by rewrite fold_left_app. Qed.

Lemma be_value_bound bs : 0 <= be_value bs < 256 ^ Z.of_nat (length bs).
Proof.
  induction bs as [|b bs IH] using rev_ind.
  - cbn. lia.
  - rewrite be_value_app, length_app. cbn [length].
    replace (Z.of_nat (length bs + 1)) with (Z.of_nat (length bs) + 1) by lia.
    rewrite Z.pow_add_r by lia. pose proof (Z_of_byte_range b). nia.
Qed.

Lemma index_byte index k :
  0 <= k ->
  Z_of_byte (byte_of_Z (Z.land (Z.shiftr index k) 255)) = (index / 2 ^ k) mod 256.
Proof.
  intros Hk. rewrite Z_of_byte_of_Z.
  change 255 with (Z.ones 8). rewrite Z.land_ones by lia.
  rewrite Z.shiftr_div_pow2 by lia. change (2 ^ 8) with 256.
  apply Z.mod_mod. lia.
Qed.

Lemma index_length_4 index :
  0 <= index < 2 ^ 32 ->
  index_length sizeof_unsigned_int index =
    if index <? 256 then 1%nat
    else if index <? 65536 then 2%nat
    else if index <? 16777216 then 3%nat else 4%nat.
Proof.
  intros Hr. unfold sizeof_unsigned_int, index_length.
  rewrite !Z.shiftr_div_pow2 by lia.
  change (Z.of_nat 3 * 8) with 24. change (Z.of_nat 2 * 8) with 16.
  change (Z.of_nat 1 * 8) with 8.
  change (2 ^ 24) with 16777216. change (2 ^ 16) with 65536.
  change (2 ^ 8) with 256.
  repeat case_match; try reflexivity; exfalso;
    repeat match goal with
    | H : negb _ = true |- _ => apply negb_true_iff in H
    | H : negb _ = false |- _ => apply negb_false_iff in H
    | H : (_ =? _) = true |- _ => apply Z.eqb_eq in H
    | H : (_ =? _) = false |- _ => apply Z.eqb_neq in H
    | H : (_ <? _) = true |- _ => apply Z.ltb_lt in H
    | H : (_ <? _) = false |- _ => apply Z.ltb_ge in H
    end; Z.div_mod_to_equations; lia.
Qed.

Lemma get_index_bytes_length index :
  length (get_index_bytes index) = index_length sizeof_unsigned_int index.
Proof. unfold get_index_bytes. by rewrite length_map, length_seq. Qed.

Lemma get_index_bytes_value index :
  0 <= index < 2 ^ 32 -> be_value (get_index_bytes index) = index.
Proof.
  intros Hr. unfold get_index_bytes. rewrite index_length_4 by done.
  repeat case_match;
    repeat match goal with
    | H : (_ <? _) = true |- _ => apply Z.ltb_lt in H
    | H : (_ <? _) = false |- _ => apply Z.ltb_ge in H
    end;
    cbn [seq map]; unfold be_value; cbn [fold_left];
    rewrite !index_byte by (cbn; lia);
    cbn [Nat.sub Z.of_nat Pos.of_succ_nat Pos.succ Z.mul Pos.mul Pos.add];
    change (2 ^ 0) with 1; change (2 ^ 8) with 256;
    change (2 ^ 16) with 65536; change (2 ^ 24) with 16777216;
    Z.div_mod_to_equations; lia.
Qed.

Lemma get_index_bytes_head index b bs :
  0 <= index < 2 ^ 32 ->
  get_index_bytes index = b :: bs -> bs <> [] -> Z_of_byte b <> 0.
Proof.
  intros Hr. unfold get_index_bytes. rewrite index_length_4 by done.
  repeat case_match;
    repeat match goal with
    | H : (_ <? _) = true |- _ => apply Z.ltb_lt in H
    | H : (_ <? _) = false |- _ => apply Z.ltb_ge in H
    end;
    cbn [seq map]; intros [= <- <-]; try congruence; intros _;
    rewrite index_byte by (cbn; lia);
    cbn [Nat.sub Z.of_nat Pos.of_succ_nat Pos.succ Z.mul Pos.mul Pos.add];
    change (2 ^ 8) with 256;
    change (2 ^ 16) with 65536; change (2 ^ 24) with 16777216;
    Z.div_mod_to_equations; lia.
Qed.

Ltac Zbool :=
  repeat match goal with
    | H : negb _ = true |- _ => apply negb_true_iff in H
    | H : negb _ = false |- _ => apply negb_false_iff in H
    | H : (_ && _) = true |- _ => apply andb_true_iff in H; destruct H
    | H : (_ || _) = false |- _ => apply orb_false_iff in H; destruct H
    | H : (_ =? _) = true |- _ => apply Z.eqb_eq in H
    | H : (_ =? _) = false |- _ => apply Z.eqb_neq in H
    | H : (_ <? _) = true |- _ => apply Z.ltb_lt in H
    | H : (_ <? _) = false |- _ => apply Z.ltb_ge in H
    | H : (_ >? _) = true |- _ => rewrite Z.gtb_ltb in H
    | H : (_ >? _) = false |- _ => rewrite Z.gtb_ltb in H
    | H : (_ >=? _) = true |- _ => rewrite Z.geb_leb in H
    | H : (_ >=? _) = false |- _ => rewrite Z.geb_leb in H
    | H : (_ <=? _) = true |- _ => apply Z.leb_le in H
    | H : (_ <=? _) = false |- _ => apply Z.leb_gt in H
    | H : bool_decide _ = true |- _ => apply bool_decide_eq_true in H
    | H : bool_decide _ = false |- _ => apply bool_decide_eq_false in H
    end.

Lemma get_index_bytes_minimal index bs' :
  0 <= index < 2 ^ 32 -> bs' <> [] -> be_value bs' = index ->
  (length (get_index_bytes index) <= length bs')%nat.
Proof.
  intros Hr Hne Hv. rewrite get_index_bytes_length, index_length_4 by done.
  pose proof (be_value_bound bs') as Hb. rewrite Hv in Hb.
  destruct bs' as [|b0 [|b1 [|b2 [|b3 bs']]]]; try done;
    cbn [length] in *; repeat case_match; Zbool; try lia.
Qed.

Section BuilderFacts.
Context `{Platform}.

Lemma build_id_objects_loop_app i ids acc :
  build_id_objects_loop i ids acc = acc ++ build_id_objects_loop i ids [].
Proof.
  revert i acc. induction ids as [|idp ids IH]; intros i acc; cbn.
  - by rewrite app_nil_r.
  - rewrite IH, (IH _ (build_id_objects_body _ _)). by rewrite app_assoc.
Qed.

Lemma build_id_objects_body_length i idp :
  length (build_id_objects_body i idp) = 3%nat.
Proof.
  unfold build_id_objects_body.
  by destruct (get_certificate_info _) as [[? ?] ?].
Qed.

Lemma build_id_objects_loop_length i ids :
  length (build_id_objects_loop i ids []) = (3 * length ids)%nat.
Proof.
  revert i. induction ids as [|idp ids IH]; intros i; [done|].
  cbn [build_id_objects_loop]. rewrite build_id_objects_loop_app.
  rewrite length_app, IH. cbn [app]. rewrite build_id_objects_body_length.
  cbn [length]. lia.
Qed.

Lemma build_id_objects_loop_lookup i ids k idp j :
  ids !! k = Some idp -> (j < 3)%nat ->
  build_id_objects_loop i ids [] !! (3 * k + j)%nat
  = build_id_objects_body (i + Z.of_nat k) idp !! j.
Proof.
  revert i k. induction ids as [|id0 ids IH]; intros i k Hk Hj; [done|].
  cbn [build_id_objects_loop]. rewrite build_id_objects_loop_app.
  cbn [app]. destruct k as [|k].
  - cbn in Hk. injection Hk as ->. rewrite Z.add_0_r.
    rewrite lookup_app_l; [done|].
    rewrite build_id_objects_body_length. lia.
  - cbn in Hk. rewrite lookup_app_r;
      rewrite build_id_objects_body_length; [|lia].
    replace (3 * S k + j - 3)%nat with (3 * k + j)%nat by lia.
    rewrite (IH (i + 1) k) by done. f_equal. f_equal. lia.
Qed.

(** Attributes appended later do not hide one that is already found. *)
Lemma find_attribute_ADD_ATTR_SIZE o t v ty a :
  find_attribute o ty = Some a ->
  find_attribute (ADD_ATTR_SIZE o t v) ty = Some a.
Proof.
  unfold find_attribute, ADD_ATTR_SIZE. cbn [obj_attrs].
  induction (obj_attrs o) as [|x l IH]; [done|]. cbn.
  destruct (type x =? ty); [done | apply IH].
Qed.

Lemma find_attribute_ADD_ATTR_IF o t v ty a :
  find_attribute o ty = Some a ->
  find_attribute (ADD_ATTR_IF o t v) ty = Some a.
Proof. destruct v; [apply find_attribute_ADD_ATTR_SIZE | done]. Qed.

Lemma find_attribute_ADD_ATTR_ULONG o t v ty a :
  find_attribute o ty = Some a ->
  find_attribute (ADD_ATTR_ULONG o t v) ty = Some a.
Proof. apply find_attribute_ADD_ATTR_SIZE. Qed.

Lemma find_attribute_ADD_ATTR_BBOOL o t v ty a :
  find_attribute o ty = Some a ->
  find_attribute (ADD_ATTR_BBOOL o t v) ty = Some a.
Proof. apply find_attribute_ADD_ATTR_SIZE. Qed.

Ltac find_kept :=
  first
    [ reflexivity
    | first [ apply find_attribute_ADD_ATTR_BBOOL
            | apply find_attribute_ADD_ATTR_ULONG
            | apply find_attribute_ADD_ATTR_IF
            | apply find_attribute_ADD_ATTR_SIZE ]; find_kept
    | case_match; find_kept ].

Lemma certificate_object_id idp objid subject issuer serial :
  find_attribute (build_certificate_object idp objid subject issuer serial)
                 CKA_ID = Some (id_attribute objid).
Proof. unfold build_certificate_object. find_kept. Qed.

Lemma public_key_object_id idp objid subject keyinfo :
  find_attribute (build_public_key_object idp objid subject keyinfo)
                 CKA_ID = Some (id_attribute objid).
Proof.
  unfold build_public_key_object. find_kept.
Qed.

Lemma private_key_object_id idp objid subject keyinfo :
  find_attribute (build_private_key_object idp objid subject keyinfo)
                 CKA_ID = Some (id_attribute objid).
Proof.
  unfold build_private_key_object. find_kept.
Qed.
End BuilderFacts.

Section ObjectBuilder.
Context `{Platform}.

Lemma obj_class_ADD_ATTR_SIZE o t v :
  obj_class (ADD_ATTR_SIZE o t v) = obj_class o.
Proof. reflexivity. Qed.

Lemma obj_class_ADD_ATTR_IF o t v :
  obj_class (ADD_ATTR_IF o t v) = obj_class o.
Proof. by destruct v. Qed.

Lemma obj_id_ADD_ATTR_SIZE o t v :
  obj_id (ADD_ATTR_SIZE o t v) = obj_id o.
Proof. reflexivity. Qed.

Lemma obj_id_ADD_ATTR_IF o t v :
  obj_id (ADD_ATTR_IF o t v) = obj_id o.
Proof. by destruct v. Qed.

Ltac builder_fields :=
  unfold ADD_ATTR_ULONG, ADD_ATTR_BBOOL;
  rewrite ?obj_class_ADD_ATTR_SIZE, ?obj_class_ADD_ATTR_IF,
    ?obj_id_ADD_ATTR_SIZE, ?obj_id_ADD_ATTR_IF.

Lemma build_id_objects_body_classes i idp c p k :
  build_id_objects_body i idp = [c; p; k] ->
  (obj_class c = CKO_CERTIFICATE /\ obj_id c = Some idp)
  /\ (obj_class p = CKO_PUBLIC_KEY /\ obj_id p = Some idp)
  /\ (obj_class k = CKO_PRIVATE_KEY /\ obj_id k = Some idp).
Proof.
  unfold build_id_objects_body.
  destruct (get_certificate_info _) as [[serial issuer] subject].
  intros [= <- <- <-].
  unfold build_certificate_object, build_public_key_object,
    build_private_key_object.
  repeat split; repeat case_match; repeat builder_fields; reflexivity.
Qed.

(** C5. The object builder turns [n] identities into exactly [3 n]
    objects; identity [i] (0-based) owns the objects at [3 i], [3 i + 1]
    and [3 i + 2], which are its certificate, its public key and its
    private key in this order, and the three carry the same [CKA_ID]
    attribute. Its value is the big-endian encoding of [i] of minimum
    length: it decodes to [i], no non-empty byte string that decodes to
    [i] is shorter, it has at least one byte (so index 0 is the single
    byte 0), one byte below 256, two below 65536, three below 2^24 and
    four otherwise. *)
Theorem C5_build_id_objects (ids : list id_info) :
  length (build_id_objects ids) = (3 * length ids)%nat
  /\ forall (i : nat) (idp : id_info),
      ids !! i = Some idp -> Z.of_nat i < 2 ^ 32 ->
      let bs := get_index_bytes (Z.of_nat i) in
      let cka_id := {| type := CKA_ID; pValue := Some bs;
                       ulValueLen := Z.of_nat (length bs) |} in
      (exists c p k : obj_info,
          build_id_objects ids !! (3 * i)%nat = Some c
          /\ build_id_objects ids !! (3 * i + 1)%nat = Some p
          /\ build_id_objects ids !! (3 * i + 2)%nat = Some k
          /\ obj_class c = CKO_CERTIFICATE
          /\ obj_class p = CKO_PUBLIC_KEY
          /\ obj_class k = CKO_PRIVATE_KEY
          /\ obj_id c = Some idp /\ obj_id p = Some idp
          /\ obj_id k = Some idp
          /\ find_attribute c CKA_ID = Some cka_id
          /\ find_attribute p CKA_ID = Some cka_id
          /\ find_attribute k CKA_ID = Some cka_id)
      /\ be_value bs = Z.of_nat i
      /\ (forall bs' : list byte,
             bs' <> [] -> be_value bs' = Z.of_nat i ->
             (length bs <= length bs')%nat)
      /\ (1 <= length bs)%nat
      /\ (Z.of_nat i < 256 -> length bs = 1%nat)
      /\ (256 <= Z.of_nat i < 65536 -> length bs = 2%nat)
      /\ (65536 <= Z.of_nat i < 16777216 -> length bs = 3%nat)
      /\ (16777216 <= Z.of_nat i -> length bs = 4%nat).
Proof.
  split; [apply build_id_objects_loop_length|].
  intros i idp Hi Hlt bs cka_id.
  assert (Hr : 0 <= Z.of_nat i < 2 ^ 32) by lia.
  split.
  -       destruct (build_id_objects_body (Z.of_nat i) idp)
      as [|c [|p [|k [|]]]] eqn:Hbody;
      try (pose proof (build_id_objects_body_length (Z.of_nat i) idp)
            as Hl; rewrite Hbody in Hl; discriminate Hl).
    exists c, p, k.
    pose proof (build_id_objects_body_classes _ _ _ _ _ Hbody)
      as [[? ?] [[? ?] [? ?]]].
    unfold build_id_objects.
    pose proof (build_id_objects_loop_lookup 0 ids i idp 0 Hi ltac:(lia))
      as L0.
    pose proof (build_id_objects_loop_lookup 0 ids i idp 1 Hi ltac:(lia))
      as L1.
    pose proof (build_id_objects_loop_lookup 0 ids i idp 2 Hi ltac:(lia))
      as L2.
    rewrite Nat.add_0_r in L0. rewrite Z.add_0_l, Hbody in L0, L1, L2.
    repeat split; try done.
    all: revert Hbody; unfold build_id_objects_body;
      destruct (get_certificate_info _) as [[serial issuer] subject];
      intros [= <- <- <-].
    + apply certificate_object_id.
    + apply public_key_object_id.
    + apply private_key_object_id.
  - split; [by apply get_index_bytes_value|].
    split; [intros bs' ? ?; by apply get_index_bytes_minimal|].
    subst bs. rewrite get_index_bytes_length, index_length_4 by done.
    repeat split; intros; repeat case_match; Zbool; lia.
Qed.
End ObjectBuilder.





Lemma memcmp_eq_wf va vt n :
  Z.of_nat (length va) = n -> Z.of_nat (length vt) = n ->
  memcmp_eq va vt n = true <-> va = vt.
Proof.
  intros Ha Ht. unfold memcmp_eq. rewrite bool_decide_eq_true.
  rewrite !firstn_all2 by lia. done.
Qed.

Lemma attr_valued_wf a : attr_valued a -> attr_wf a.
Proof. intros (v & Hv & Hl). unfold attr_wf. by rewrite Hv. Qed.

(** On attributes that carry a value the comparison never goes through
    a null pointer of the object. *)
Lemma search_attribute_defined oattrs t :
  Forall attr_valued oattrs -> is_Some (search_attribute oattrs t).
Proof.
  induction 1 as [|a l (v & Hv & _) _ IH]; [by eexists|].
  cbn [search_attribute]. rewrite Hv.
  destruct (_ && _); [|done]. destruct (pValue t); by eexists.
Qed.

Lemma search_attribute_true oattrs t :
  Forall attr_valued oattrs -> attr_wf t ->
  search_attribute oattrs t = Some true ->
  exists a, a ∈ oattrs /\ type a = type t
            /\ ulValueLen a = ulValueLen t /\ pValue a = pValue t.
Proof.
  intros Hwf Ht. induction oattrs as [|a l IH]; [done|].
  apply Forall_cons in Hwf as [Ha Hl]. cbn [search_attribute].
  destruct ((type a =? type t) && (ulValueLen a =? ulValueLen t)) eqn:E.
  - Zbool. intros Hm. exists a.
    split_and!; [by apply elem_of_cons; left|done|done|].
    destruct Ha as (va & Hva & Hla). unfold attr_wf in Ht.
    rewrite Hva in *. destruct (pValue t) as [vt|]; [|done].
    injection Hm as Hm. f_equal.
    apply (memcmp_eq_wf va vt (ulValueLen t)); congruence.
  - intros Hs. destruct (IH Hl Hs) as (b & ? & ?). exists b.
    split; [by apply elem_of_cons; right | done].
Qed.

Lemma search_attribute_occurs oattrs t a :
  NoDup (map type oattrs) -> Forall attr_valued oattrs -> attr_wf t ->
  a ∈ oattrs -> type a = type t -> ulValueLen a = ulValueLen t ->
  pValue a = pValue t ->
  search_attribute oattrs t = Some true.
Proof.
  intros Hnd Hwf Ht Hin Hty Hlen Hval.
  induction oattrs as [|x l IH]; [by apply elem_of_nil in Hin|].
  apply Forall_cons in Hwf as [Hx Hl]. cbn in Hnd.
  apply NoDup_cons in Hnd as [Hnx Hnd]. cbn [search_attribute].
  destruct ((type x =? type t) && (ulValueLen x =? ulValueLen t)) eqn:E.
  - Zbool.
    assert (x = a) as ->.
    { apply elem_of_cons in Hin as [->|Hin]; [done|]. exfalso.
      apply Hnx. apply (list_elem_of_fmap_2' type _ a); [done|congruence]. }
    destruct Hx as (va & Hva & Hla). rewrite Hva.
    rewrite Hva in Hval. unfold attr_wf in Ht. rewrite <- Hval in *.
    f_equal. apply memcmp_eq_wf; congruence.
  - apply elem_of_cons in Hin as [->|Hin].
    + apply andb_false_iff in E as [E|E]; Zbool; congruence.
    + by apply IH.
Qed.

Lemma search_object_defined obj attrs :
  obj_ok obj -> is_Some (search_object obj attrs).
Proof.
  intros [_ Hv]. induction attrs as [|t l IH]; [by eexists|].
  cbn [search_object].
  destruct (search_attribute_defined (obj_attrs obj) t Hv) as [[|] ->];
    [done|by eexists].
Qed.

Lemma search_object_spec obj attrs :
  obj_ok obj -> Forall attr_wf attrs ->
  search_object obj attrs = Some true
  <-> forall t, t ∈ attrs -> attr_occurs obj t.
Proof.
  intros [Hnd Hwf] Ht. unfold attr_types in Hnd.
  induction attrs as [|t l IH].
  - split; [by intros _ u Hu%elem_of_nil|done].
  - apply Forall_cons in Ht as [Hwt Hl]. cbn [search_object].
    destruct (search_attribute_defined (obj_attrs obj) t Hwf) as [b E].
    rewrite E. destruct b.
    + rewrite (IH Hl). split.
      * intros Hall u Hu. apply elem_of_cons in Hu as [->|Hu]; [|by apply Hall].
        by apply search_attribute_true.
      * intros Hall u Hu. apply Hall. by apply elem_of_cons; right.
    + split; [done|]. intros Hall.
      destruct (Hall t ltac:(by apply elem_of_cons; left))
        as (a & Hin & Hty & Hlen & Hval).
      rewrite (search_attribute_occurs _ _ a) in E by done. done.
Qed.

Lemma take_app_drop_add {A} (l : list A) (m n : nat) :
  take (m + n) l = take m l ++ take n (drop m l).
Proof.
  revert l. induction m as [|m IH]; intros [|x l]; cbn; try done.
  - by rewrite take_nil.
  - by rewrite IH.
Qed.

Lemma find_objects_loop_spec objs idx attrs maxcount found :
  Forall obj_ok objs ->
  Z.of_nat (length found) < maxcount ->
  let k := Z.to_nat (maxcount - Z.of_nat (length found)) in
  exists r,
    find_objects_loop objs idx attrs maxcount found = Some r
    /\ r.1 = found ++ take k (matching_from objs idx attrs)
    /\ exists j : nat,
        (j <= length objs)%nat /\ r.2 = idx + Z.of_nat j
        /\ matching_from (drop j objs) (idx + Z.of_nat j) attrs
           = drop k (matching_from objs idx attrs).
Proof.
  intros Hok. revert idx found.
  induction Hok as [|obj rest Hobj _ IH]; intros idx found Hlt.
  - cbn. eexists. split; [done|]. cbn.
    split; [by rewrite take_nil, app_nil_r|].
    exists 0%nat. split_and!; [done|lia|by rewrite !drop_nil].
  - cbn [find_objects_loop matching_from].
    destruct (search_object_defined obj attrs Hobj) as [b Hs]. rewrite Hs.
    destruct b.
    + rewrite bool_decide_eq_true_2 by done.
      destruct (Z.of_nat (length (found ++ [idx + 1])) >=? maxcount) eqn:Hge.
      * rewrite length_app in Hge. cbn [length] in Hge. Zbool.
        eexists. split; [done|]. cbn zeta. cbn [fst snd].
        replace (Z.to_nat (maxcount - Z.of_nat (length found))) with 1%nat
          by lia.
        split; [done|]. exists 1%nat. cbn [length drop]. split_and!; [lia|lia|].
        by rewrite drop_0.
      * rewrite length_app in Hge. cbn [length] in Hge. Zbool.
        destruct (IH (idx + 1) (found ++ [idx + 1]))
          as (r & Hr & H1 & j & Hj & H2 & H3).
        { rewrite length_app. cbn [length]. lia. }
        exists r. split; [done|].
        cbn zeta in *. rewrite H1, length_app. cbn [length]. split.
        -- rewrite <- app_assoc. f_equal.
           replace (Z.to_nat (maxcount - Z.of_nat (length found)))
             with (S (Z.to_nat (maxcount - Z.of_nat (length found + 1))))
             by lia.
           done.
        -- exists (S j). cbn [length drop]. split_and!; [lia|lia|].
           replace (idx + Z.of_nat (S j)) with (idx + 1 + Z.of_nat j) by lia.
           rewrite H3, length_app. cbn [length].
           replace (Z.to_nat (maxcount - Z.of_nat (length found)))
             with (S (Z.to_nat (maxcount - Z.of_nat (length found + 1))))
             by lia.
           done.
    + rewrite bool_decide_eq_false_2 by done.
      destruct (IH (idx + 1) found Hlt) as (r & Hr & H1 & j & Hj & H2 & H3).
      exists r. split; [done|].
      cbn zeta in *. split; [done|].
      exists (S j). cbn [length drop]. split_and!; [lia|lia|].
      replace (idx + Z.of_nat (S j)) with (idx + 1 + Z.of_nat j) by lia.
      done.
Qed.

Lemma C_FindObjects_spec se maxcount :
  Forall obj_ok (se_obj_list se) ->
  0 <= se_obj_search_index se -> 0 < maxcount ->
  exists r,
    C_FindObjects se true maxcount = Some r
    /\ r.1.1 = CKR_OK
    /\ r.2 = take (Z.to_nat maxcount) (remaining se)
    /\ remaining r.1.2 = drop (Z.to_nat maxcount) (remaining se)
    /\ 0 <= se_obj_search_index r.1.2
    /\ se_obj_list r.1.2 = se_obj_list se
    /\ se_search_attrs r.1.2 = se_search_attrs se.
Proof.
  intros Hok Hc Hm. unfold C_FindObjects. cbn [negb orb].
  replace (maxcount =? 0) with false by (symmetry; apply Z.eqb_neq; lia).
  destruct (find_objects_loop_spec
              (drop (Z.to_nat (se_obj_search_index se)) (se_obj_list se))
              (se_obj_search_index se) (se_search_attrs se) maxcount []
              ltac:(by apply Forall_drop) ltac:(cbn; lia))
    as ([found idx] & Hr & H1 & j & Hj & H2 & H3).
  rewrite Hr. eexists. split; [done|].
  cbn [fst snd length] in *. rewrite Z.sub_0_r in *.
  split_and!; try done.
  - unfold remaining. cbn [se_obj_search_index set_search se_obj_list
                           se_search_attrs].
    rewrite <- H3, H2, drop_drop. do 2 f_equal. lia.
  - cbn. lia.
Qed.

Lemma C_FindObjects_frame se object maxcount rv se' found :
  C_FindObjects se object maxcount = Some (rv, se', found) ->
  se' = se \/ exists idx, se' = set_search idx (se_search_attrs se) se.
Proof.
  unfold C_FindObjects. destruct (negb object || (maxcount =? 0)).
  - intros [= <- <- <-]. by left.
  - destruct (find_objects_loop _ _ _ _ _) as [[f idx]|]; [|done].
    intros [= <- <- <-]. right. by exists idx.
Qed.

Lemma find_repeatedly_spec se maxcounts :
  Forall obj_ok (se_obj_list se) ->
  0 <= se_obj_search_index se -> Forall (fun m => 0 < m) maxcounts ->
  find_repeatedly se maxcounts
  = take (Z.to_nat (foldr Z.add 0 maxcounts)) (remaining se).
Proof.
  revert se. induction maxcounts as [|m ms IH]; intros se Hok Hc Hms.
  - by rewrite take_0.
  - apply Forall_cons in Hms as [Hm Hms]. cbn [find_repeatedly foldr].
    destruct (C_FindObjects_spec se m Hok Hc Hm)
      as ([[rv se'] found] & -> & _ & Hf & Hr & Hc' & Hobjs & _).
    cbn [fst snd] in *. rewrite <- Hobjs in Hok.
    rewrite (IH se' Hok Hc' Hms), Hf, Hr.
    assert (0 <= foldr Z.add 0 ms).
    { clear -Hms. induction Hms; cbn; lia. }
    rewrite Z2Nat.inj_add by lia. by rewrite take_app_drop_add.
Qed.

Lemma matching_from_spec objs idx attrs h :
  h ∈ matching_from objs idx attrs
  <-> exists (i : nat) obj, objs !! i = Some obj /\ h = idx + Z.of_nat i + 1
                            /\ search_object obj attrs = Some true.
Proof.
  revert idx. induction objs as [|o rest IH]; intros idx.
  - cbn. split; [by intros ?%elem_of_nil | by intros (? & ? & ? & _)].
  - cbn [matching_from]. split.
    + intros Hin.
      assert (Hcase : (h = idx + 1 /\ search_object o attrs = Some true)
                      \/ h ∈ matching_from rest (idx + 1) attrs).
      { destruct (bool_decide (search_object o attrs = Some true)) eqn:E;
          [|by right].
        apply bool_decide_eq_true in E.
        apply elem_of_cons in Hin as [->|?]; [by left | by right]. }
      destruct Hcase as [[-> Hs]|Hin'].
      * exists 0%nat, o. split_and!; [done|lia|done].
      * apply IH in Hin' as (i & obj & Hi & -> & Hs).
        exists (S i), obj. split_and!; [done|lia|done].
    + intros ([|i] & obj & Hi & -> & Hs).
      * cbn in Hi. injection Hi as ->.
        rewrite bool_decide_eq_true_2 by done.
        apply elem_of_cons. left. lia.
      * cbn in Hi.
        assert (idx + Z.of_nat (S i) + 1 ∈ matching_from rest (idx + 1) attrs).
        { apply IH. exists i, obj. split_and!; [done|lia|done]. }
        destruct (bool_decide _); [apply elem_of_cons; by right|done].
Qed.

Lemma matching_from_lower objs idx attrs h :
  h ∈ matching_from objs idx attrs -> idx < h.
Proof. intros (i & obj & _ & -> & _)%matching_from_spec. lia. Qed.

Lemma matching_from_NoDup objs idx attrs :
  NoDup (matching_from objs idx attrs).
Proof.
  revert idx. induction objs as [|o rest IH]; intros idx; cbn.
  - constructor.
  - destruct (bool_decide _); [|apply IH].
    constructor; [|apply IH].
    intros Hin%matching_from_lower. lia.
Qed.

Lemma attr_types_ADD_ATTR_SIZE o t v :
  attr_types (ADD_ATTR_SIZE o t v) = attr_types o ++ [t].
Proof. unfold attr_types, ADD_ATTR_SIZE. cbn. by rewrite map_app. Qed.

Lemma attr_valued_ADD_ATTR_SIZE o t v :
  Forall attr_valued (obj_attrs o) ->
  Forall attr_valued (obj_attrs (ADD_ATTR_SIZE o t v)).
Proof.
  intros Ho. unfold ADD_ATTR_SIZE. cbn. apply Forall_app. split; [done|].
  apply Forall_cons_2; [by exists v|apply Forall_nil_2].
Qed.

Lemma attr_valued_ADD_ATTR_IF o t v :
  Forall attr_valued (obj_attrs o) ->
  Forall attr_valued (obj_attrs (ADD_ATTR_IF o t v)).
Proof. destruct v; [apply attr_valued_ADD_ATTR_SIZE | done]. Qed.

Ltac builder_wf :=
  unfold ADD_ATTR_ULONG, ADD_ATTR_BBOOL;
  repeat first
    [ apply attr_valued_ADD_ATTR_SIZE
    | apply attr_valued_ADD_ATTR_IF
    | case_match ];
  by constructor.

Ltac builder_nodup :=
  unfold ADD_ATTR_ULONG, ADD_ATTR_BBOOL, ADD_ATTR_IF;
  repeat case_match;
  rewrite ?attr_types_ADD_ATTR_SIZE;
  apply (bool_decide_unpack _); vm_compute; exact I.

Section BuilderOk.
Context `{Platform}.

Lemma build_certificate_object_ok idp objid subject issuer serial :
  obj_ok (build_certificate_object idp objid subject issuer serial).
Proof.
  unfold build_certificate_object.
  split; [builder_nodup | builder_wf].
Qed.

Lemma build_public_key_object_ok idp objid subject keyinfo :
  obj_ok (build_public_key_object idp objid subject keyinfo).
Proof.
  unfold build_public_key_object.
  split; [builder_nodup | builder_wf].
Qed.

Lemma build_private_key_object_ok idp objid subject keyinfo :
  obj_ok (build_private_key_object idp objid subject keyinfo).
Proof.
  unfold build_private_key_object.
  split; [builder_nodup | builder_wf].
Qed.

Lemma build_id_objects_body_ok i idp :
  Forall obj_ok (build_id_objects_body i idp).
Proof.
  unfold build_id_objects_body.
  destruct (get_certificate_info _) as [[serial issuer] subject].
  repeat (apply Forall_cons; split); [| | | by constructor].
  - apply build_certificate_object_ok.
  - apply build_public_key_object_ok.
  - apply build_private_key_object_ok.
Qed.

Lemma build_id_objects_ok ids : Forall obj_ok (build_id_objects ids).
Proof.
  unfold build_id_objects. generalize 0.
  induction ids as [|idp ids IH]; intros i; cbn; [constructor|].
  rewrite build_id_objects_loop_app. apply Forall_app. split; [|apply IH].
  apply build_id_objects_body_ok.
Qed.

Lemma build_cert_objects_body_ok i cert :
  Forall obj_ok (build_cert_objects_body i cert).
Proof.
  unfold build_cert_objects_body.
  destruct (get_certificate_info _) as [[serial issuer] subject].
  repeat (apply Forall_cons; split); [| | by constructor];
    (split; [builder_nodup | builder_wf]).
Qed.

Lemma build_cert_objects_loop_app i certs acc :
  build_cert_objects_loop i certs acc
  = acc ++ build_cert_objects_loop i certs [].
Proof.
  revert i acc. induction certs as [|c certs IH]; intros i acc; cbn.
  - by rewrite app_nil_r.
  - rewrite IH, (IH _ (build_cert_objects_body _ _)). by rewrite app_assoc.
Qed.

Lemma build_cert_objects_ok certs : Forall obj_ok (build_cert_objects certs).
Proof.
  unfold build_cert_objects. generalize 0.
  induction certs as [|c certs IH]; intros i; cbn; [constructor|].
  rewrite build_cert_objects_loop_app. apply Forall_app. split; [|apply IH].
  apply build_cert_objects_body_ok.
Qed.
End BuilderOk.

Lemma find_row_Some matches rows row :
  find_row matches rows = Some row <-> first_match matches rows row.
Proof.
  induction rows as [|r rows IH]; cbn.
  - split; [done|]. intros (before & after & Heq & _). by destruct before.
  - destruct (matches r) eqn:Hr.
    + split.
      * intros [= <-]. exists [], rows. by split_and!.
      * intros ([|b before] & after & Heq & Hm & Hb).
        -- by injection Heq as -> _.
        -- injection Heq as -> _. apply Forall_cons in Hb as [Hb _].
           congruence.
    + rewrite IH. split.
      * intros (before & after & -> & Hm & Hb).
        exists (r :: before), after. split_and!; [done|done|by constructor].
      * intros ([|b before] & after & Heq & Hm & Hb).
        -- injection Heq as -> _. congruence.
        -- injection Heq as -> ->. apply Forall_cons in Hb as [_ Hb].
           by exists before, after.
Qed.

Lemma find_row_None matches rows :
  find_row matches rows = None <-> forall row, row ∈ rows -> matches row = false.
Proof.
  induction rows as [|r rows IH]; cbn.
  - split; [by intros _ ? ?%elem_of_nil | done].
  - destruct (matches r) eqn:Hr.
    + split; [done|]. intros Hall.
      rewrite (Hall r) in Hr by (by apply elem_of_cons; left). done.
    + rewrite IH. split.
      * intros Hall row [->|?]%elem_of_cons; [done|by apply Hall].
      * intros Hall row ?. apply Hall. by apply elem_of_cons; right.
Qed.

Lemma find_row_is_Some matches rows :
  is_Some (find_row matches rows)
  <-> exists row, row ∈ rows /\ matches row = true.
Proof.
  split.
  - intros [row Hrow]. exists row.
    apply find_row_Some in Hrow as (before & after & -> & Hm & _).
    split; [|done]. apply elem_of_app. right. by apply elem_of_cons; left.
  - intros (row & Hin & Hm).
    destruct (find_row matches rows) eqn:E; [done|].
    rewrite find_row_None in E. rewrite (E row Hin) in Hm. done.
Qed.

Section ParameterValidation.
Context `{Platform}.

Lemma oaep_source_check oaep :
  (negb (oaep_source oaep =? 0)
     && negb (oaep_source oaep =? CKZ_DATA_SPECIFIED) = false
   /\ (oaep_source oaep =? CKZ_DATA_SPECIFIED)
        && (negb (oaep_pSourceData oaep =? 0)
            || negb (oaep_ulSourceDataLen oaep =? 0)) = false)
  <-> oaep_source_ok oaep.
Proof.
  unfold oaep_source_ok, CKZ_DATA_SPECIFIED.
  destruct (oaep_source oaep =? 0) eqn:E0,
           (oaep_source oaep =? 1) eqn:E1,
           (oaep_pSourceData oaep =? 0) eqn:E2,
           (oaep_ulSourceDataLen oaep =? 0) eqn:E3;
    Zbool; cbn; split; try lia; try (intros [? ?]; done); intuition lia.
Qed.

Lemma mech_param_validate_OAEP mptr mm :
  parameters mm = OAEP ->
  (pParameter mptr = None \/ ulParameterLen mptr <> sizeof_oaep ->
   mech_param_validate mptr mm = None)
  /\ (forall mem,
        pParameter mptr = Some mem -> ~ oaep_source_ok (as_oaep mem) ->
        mech_param_validate mptr mm = None)
  /\ (forall mem,
        pParameter mptr = Some mem -> ulParameterLen mptr = sizeof_oaep ->
        oaep_source_ok (as_oaep mem) ->
        mech_param_validate mptr mm
        = algs_of_row <$>
            find_row (oaep_row_matches (mechanism mptr) (as_oaep mem))
                     keychain_param_map).
Proof.
  intros Hp. unfold mech_param_validate. rewrite Hp. split_and!.
  - intros [-> | Hlen]; [done|]. destruct (pParameter mptr); [|done].
    by replace (ulParameterLen mptr =? sizeof_oaep) with false
      by (symmetry; by apply Z.eqb_neq).
  - intros mem -> Hbad. destruct (ulParameterLen mptr =? sizeof_oaep); [|done].
    cbn [negb]. rewrite <- oaep_source_check in Hbad.
    destruct (negb (oaep_source (as_oaep mem) =? 0)
              && negb (oaep_source (as_oaep mem) =? CKZ_DATA_SPECIFIED));
      [done|].
    destruct ((oaep_source (as_oaep mem) =? CKZ_DATA_SPECIFIED)
              && (negb (oaep_pSourceData (as_oaep mem) =? 0)
                  || negb (oaep_ulSourceDataLen (as_oaep mem) =? 0)));
      [done|].
    by destruct Hbad.
  - intros mem -> Hlen Hok. apply oaep_source_check in Hok as [-> ->].
    rewrite Hlen, Z.eqb_refl. cbn [negb].
    by destruct (find_row _ _).
Qed.

Lemma mech_param_validate_PSS mptr mm :
  parameters mm = PSS ->
  (pParameter mptr = None \/ ulParameterLen mptr <> sizeof_pss ->
   mech_param_validate mptr mm = None)
  /\ (forall mem,
        pParameter mptr = Some mem -> ulParameterLen mptr = sizeof_pss ->
        mech_param_validate mptr mm
        = algs_of_row <$>
            find_row (pss_row_matches (mechanism mptr) (as_pss mem))
                     keychain_param_map).
Proof.
  intros Hp. unfold mech_param_validate. rewrite Hp. split_and!.
  - intros [-> | Hlen]; [done|]. destruct (pParameter mptr); [|done].
    by replace (ulParameterLen mptr =? sizeof_pss) with false
      by (symmetry; by apply Z.eqb_neq).
  - intros mem -> Hlen. rewrite Hlen, Z.eqb_refl. cbn [negb].
    by destruct (find_row _ _).
Qed.
End ParameterValidation.

Section InitEntryPoints.
Context `{Platform}.

Ltac init_inv :=
  repeat first
    [ progress Zbool
    | match goal with
      | H : (_, _) = (_, _) |- _ => injection H as <- <-
      | H : Some _ = Some _ |- _ => injection H as <-
      | H : context [match ?x with _ => _ end] |- _ =>
          destruct x eqn:?
      end ].

Lemma C_DecryptInit_inv se mech key rv se' :
  C_DecryptInit se mech key = (rv, se') ->
  (rv <> CKR_OK /\ se' = se)
  \/ (rv = CKR_OK
      /\ exists mptr, mech = Some mptr
         /\ init_ok se mptr key CKO_PRIVATE_KEY CKF_DECRYPT privcandecrypt
                    id_privkey D_INIT se').
Proof.
  unfold C_DecryptInit. intros Hc. init_inv; try (by left).
  right. split; [done|]. eexists. split; [done|].
  unfold init_ok. by eexists _, _, _, _.
Qed.

Lemma C_SignInit_inv se mptr object rv se' :
  C_SignInit se mptr object = (rv, se') ->
  (rv <> CKR_OK /\ se' = se)
  \/ (rv = CKR_OK
      /\ init_ok se mptr object CKO_PRIVATE_KEY CKF_SIGN privcansign
                 id_privkey S_INIT se').
Proof.
  unfold C_SignInit. intros Hc. init_inv; try (by left).
  right. split; [done|]. unfold init_ok. by eexists _, _, _, _.
Qed.

Lemma C_VerifyInit_inv se mptr key rv se' :
  C_VerifyInit se mptr key = (rv, se') ->
  (rv <> CKR_OK /\ se' = se)
  \/ (rv = CKR_OK
      /\ init_ok se mptr key CKO_PUBLIC_KEY CKF_VERIFY pubcanverify
                 id_pubkey V_INIT se').
Proof.
  unfold C_VerifyInit. intros Hc. init_inv; try (by left).
  right. split; [done|]. unfold init_ok. by eexists _, _, _, _.
Qed.

(** [C_EncryptInit] consults no capability flag. *)
Lemma C_EncryptInit_inv se mech object rv se' :
  C_EncryptInit se mech object = (rv, se') ->
  (rv <> CKR_OK /\ se' = se)
  \/ (rv = CKR_OK
      /\ exists mptr, mech = Some mptr
         /\ init_ok se mptr object CKO_PUBLIC_KEY CKF_ENCRYPT
                    (fun _ => true) id_pubkey E_INIT se').
Proof.
  unfold C_EncryptInit. intros Hc. init_inv; try (by left).
  right. split; [done|]. eexists. split; [done|].
  unfold init_ok. by eexists _, _, _, _.
Qed.
End InitEntryPoints.

Lemma oaep_row_matches_true mech oaep row :
  oaep_row_matches mech oaep row = true <-> oaep_row mech oaep row.
Proof.
  unfold oaep_row_matches, oaep_row.
  rewrite !andb_true_iff, !Z.eqb_eq. tauto.
Qed.

Lemma pss_row_matches_true mech pss row :
  pss_row_matches mech pss row = true <-> pss_row mech pss row.
Proof.
  unfold pss_row_matches, pss_row.
  rewrite !andb_true_iff, !Z.eqb_eq. tauto.
Qed.

Lemma algs_of_row_fields algs row :
  algs = algs_of_row row
  <-> ma_encalg algs = encalg row /\ ma_signalg algs = signalg row
      /\ ma_dsignalg algs = dsignalg row /\ ma_digest algs = hash_alg row.
Proof.
  destruct algs; unfold algs_of_row; cbn. split.
  - by intros [= -> -> -> ->].
  - by intros (-> & -> & -> & ->).
Qed.

Section ParameterClaim.
Context `{Platform}.

Lemma validate_via_find_row mptr mm matches (P : param_map -> Prop) :
  (forall row, matches row = true <-> P row) ->
  mech_param_validate mptr mm = algs_of_row <$> find_row matches keychain_param_map ->
  (is_Some (mech_param_validate mptr mm)
   <-> exists row, row ∈ keychain_param_map /\ P row)
  /\ (forall algs,
        mech_param_validate mptr mm = Some algs
        <-> exists row, first_match matches keychain_param_map row
                        /\ ma_encalg algs = encalg row
                        /\ ma_signalg algs = signalg row
                        /\ ma_dsignalg algs = dsignalg row
                        /\ ma_digest algs = hash_alg row).
Proof.
  intros HP ->. split.
  - rewrite fmap_is_Some, find_row_is_Some.
    split; intros (row & ? & ?); exists row; split; try done; by apply HP.
  - intros algs. rewrite fmap_Some. setoid_rewrite find_row_Some.
    split; intros (row & Hrow & Halgs); exists row; split; try done;
      by apply algs_of_row_fields.
Qed.

Lemma C_EncryptInit_param_invalid se mptr object obj idp mm :
  object_at se object = Some obj -> se_state se = NO_PENDING ->
  obj_class obj = CKO_PUBLIC_KEY -> obj_id obj = Some idp ->
  mechmap_for mptr CKF_ENCRYPT = Some mm ->
  mech_param_validate mptr mm = None ->
  C_EncryptInit se (Some mptr) object = (CKR_MECHANISM_PARAM_INVALID, se).
Proof.
  intros Ho Hs Hc Hi Hm Hv. unfold C_EncryptInit.
  by rewrite Ho, Hs, Hc, Hi, Hm, Hv.
Qed.

Lemma C_DecryptInit_param_invalid se mptr key obj idp mm :
  object_at se key = Some obj -> se_state se = NO_PENDING ->
  obj_class obj = CKO_PRIVATE_KEY -> obj_id obj = Some idp ->
  privcandecrypt idp = true ->
  mechmap_for mptr CKF_DECRYPT = Some mm ->
  mech_param_validate mptr mm = None ->
  C_DecryptInit se (Some mptr) key = (CKR_MECHANISM_PARAM_INVALID, se).
Proof.
  intros Ho Hs Hc Hi Hp Hm Hv. unfold C_DecryptInit.
  by rewrite Ho, Hs, Hc, Hi, Hp, Hm, Hv.
Qed.

Lemma C_SignInit_param_invalid se mptr object obj idp mm :
  object_at se object = Some obj -> se_state se = NO_PENDING ->
  obj_class obj = CKO_PRIVATE_KEY -> obj_id obj = Some idp ->
  privcansign idp = true ->
  mechmap_for mptr CKF_SIGN = Some mm ->
  mech_param_validate mptr mm = None ->
  C_SignInit se mptr object = (CKR_MECHANISM_PARAM_INVALID, se).
Proof.
  intros Ho Hs Hc Hi Hp Hm Hv. unfold C_SignInit.
  by rewrite Ho, Hs, Hc, Hi, Hp, Hm, Hv.
Qed.

Lemma C_VerifyInit_param_invalid se mptr key obj idp mm :
  object_at se key = Some obj -> se_state se = NO_PENDING ->
  obj_class obj = CKO_PUBLIC_KEY -> obj_id obj = Some idp ->
  pubcanverify idp = true ->
  mechmap_for mptr CKF_VERIFY = Some mm ->
  mech_param_validate mptr mm = None ->
  C_VerifyInit se mptr key = (CKR_MECHANISM_PARAM_INVALID, se).
Proof.
  intros Ho Hs Hc Hi Hp Hm Hv. unfold C_VerifyInit.
  by rewrite Ho, Hs, Hc, Hi, Hp, Hm, Hv.
Qed.

(** C3. For a mechanism whose table entry asks for OAEP or PSS
    parameters, validation fails when the parameter pointer is null or
    the parameter length is not the size of the structure, and, for
    OAEP, when [source] is neither 0 nor [CKZ_DATA_SPECIFIED] with a null
    source pointer and length 0. Otherwise validation succeeds exactly
    when the parameter map has a row that agrees with the request on
    (base mechanism, hash algorithm, MGF) for OAEP, and also on the salt
    length for PSS; the four identifiers it returns are, field by
    field, the [encalg], [signalg], [dsignalg] and [hash_alg] of the
    first such row. When validation fails,
    each of the four init entry points that has passed its earlier
    checks returns [CKR_MECHANISM_PARAM_INVALID] and leaves the session
    as it was. *)
Theorem C3_mech_param_validate (mptr : CK_MECHANISM) (mm : mechanism_map) :
  (parameters mm = OAEP ->
     (pParameter mptr = None \/ ulParameterLen mptr <> sizeof_oaep
      \/ (exists mem, pParameter mptr = Some mem
                      /\ ~ oaep_source_ok (as_oaep mem)) ->
      mech_param_validate mptr mm = None)
     /\ (forall mem,
           pParameter mptr = Some mem ->
           ulParameterLen mptr = sizeof_oaep ->
           oaep_source_ok (as_oaep mem) ->
           (is_Some (mech_param_validate mptr mm)
            <-> exists row, row ∈ keychain_param_map
                            /\ oaep_row (mechanism mptr) (as_oaep mem) row)
           /\ (forall algs,
                 mech_param_validate mptr mm = Some algs
                 <-> exists row,
                      first_match
                        (oaep_row_matches (mechanism mptr) (as_oaep mem))
                        keychain_param_map row
                      /\ ma_encalg algs = encalg row
                      /\ ma_signalg algs = signalg row
                      /\ ma_dsignalg algs = dsignalg row
                      /\ ma_digest algs = hash_alg row)))
  /\ (parameters mm = PSS ->
        (pParameter mptr = None \/ ulParameterLen mptr <> sizeof_pss ->
         mech_param_validate mptr mm = None)
        /\ (forall mem,
              pParameter mptr = Some mem ->
              ulParameterLen mptr = sizeof_pss ->
              (is_Some (mech_param_validate mptr mm)
               <-> exists row, row ∈ keychain_param_map
                               /\ pss_row (mechanism mptr) (as_pss mem) row)
              /\ (forall algs,
                    mech_param_validate mptr mm = Some algs
                    <-> exists row,
                         first_match
                           (pss_row_matches (mechanism mptr) (as_pss mem))
                           keychain_param_map row
                         /\ ma_encalg algs = encalg row
                         /\ ma_signalg algs = signalg row
                         /\ ma_dsignalg algs = dsignalg row
                         /\ ma_digest algs = hash_alg row)))
  /\ (mech_param_validate mptr mm = None ->
      forall se handle obj idp,
        object_at se handle = Some obj -> se_state se = NO_PENDING ->
        obj_id obj = Some idp ->
        (obj_class obj = CKO_PUBLIC_KEY ->
         mechmap_for mptr CKF_ENCRYPT = Some mm ->
         C_EncryptInit se (Some mptr) handle
         = (CKR_MECHANISM_PARAM_INVALID, se))
        /\ (obj_class obj = CKO_PRIVATE_KEY -> privcandecrypt idp = true ->
            mechmap_for mptr CKF_DECRYPT = Some mm ->
            C_DecryptInit se (Some mptr) handle
            = (CKR_MECHANISM_PARAM_INVALID, se))
        /\ (obj_class obj = CKO_PRIVATE_KEY -> privcansign idp = true ->
            mechmap_for mptr CKF_SIGN = Some mm ->
            C_SignInit se mptr handle = (CKR_MECHANISM_PARAM_INVALID, se))
        /\ (obj_class obj = CKO_PUBLIC_KEY -> pubcanverify idp = true ->
            mechmap_for mptr CKF_VERIFY = Some mm ->
            C_VerifyInit se mptr handle
            = (CKR_MECHANISM_PARAM_INVALID, se))).
Proof.
  split_and!.
  - intros Hp.
    destruct (mech_param_validate_OAEP mptr mm Hp) as (Hsize & Hsrc & Hrow).
    split.
    + intros [?|[?|(mem & ? & ?)]]; [by apply Hsize; left
                                    |by apply Hsize; right
                                    |by apply (Hsrc mem)].
    + intros mem Hmem Hlen Hok.
      apply validate_via_find_row; [|by apply Hrow].
      intros row. apply oaep_row_matches_true.
  - intros Hp.
    destruct (mech_param_validate_PSS mptr mm Hp) as (Hsize & Hrow).
    split; [done|]. intros mem Hmem Hlen.
    apply validate_via_find_row; [|by apply Hrow].
    intros row. apply pss_row_matches_true.
  - intros Hv se handle obj idp Ho Hs Hi. split_and!; intros.
    + by eapply C_EncryptInit_param_invalid.
    + by eapply C_DecryptInit_param_invalid.
    + by eapply C_SignInit_param_invalid.
    + by eapply C_VerifyInit_param_invalid.
Qed.
End ParameterClaim.

Section SingleShot.
Context `{Platform}.

Lemma single_shot_probe prim se indata len :
  (se_outsize se <> 0 ->
   single_shot prim se indata None len
   = {| cr_rv := CKR_OK; cr_session := se;
        cr_out := None; cr_outlen := se_outsize se |})
  /\ (se_outsize se = 0 ->
      single_shot prim se indata None len
      = {| cr_rv := CKR_BUFFER_TOO_SMALL; cr_session := se;
           cr_out := None; cr_outlen := len |})
  /\ (forall buf : list byte,
        se_outsize se <> 0 -> len < se_outsize se ->
        single_shot prim se indata (Some buf) len
        = {| cr_rv := CKR_BUFFER_TOO_SMALL; cr_session := se;
             cr_out := Some buf; cr_outlen := se_outsize se |}).
Proof.
  unfold single_shot. split_and!.
  - intros Hn. by rewrite (proj2 (Z.eqb_neq _ _) Hn).
  - intros ->. done.
  - intros buf Hn Hlt. rewrite (proj2 (Z.eqb_neq _ _) Hn).
    by rewrite (proj2 (Z.gtb_lt _ _)) by lia.
Qed.

(** C6. [C_Encrypt], [C_Decrypt] and [C_Sign], each in its init state:
    with a null output pointer the call writes the expected size and
    returns [CKR_OK] when that size is known, and returns
    [CKR_BUFFER_TOO_SMALL] when it is not; with a buffer shorter than the
    known size it returns [CKR_BUFFER_TOO_SMALL] and writes the required
    size. In all three cases the session is exactly as before, still in
    the init state with the key held, so the call can be repeated. *)
Theorem C6_output_size_probe :
  probe_behaviour C_Encrypt E_INIT
  /\ probe_behaviour C_Decrypt D_INIT
  /\ probe_behaviour C_Sign S_INIT.
Proof.
  split_and!; intros se indata len Hst;
    unfold C_Encrypt, C_Decrypt, C_Sign; rewrite Hst;
    rewrite bool_decide_eq_true_2 by done; cbn [negb];
    apply single_shot_probe.
Qed.

Lemma single_shot_cases prim se indata outdata len :
  let r := single_shot prim se indata outdata len in
  (cr_session r = se
   /\ (outdata = None \/ cr_rv r = CKR_BUFFER_TOO_SMALL))
  \/ (cr_session r = clear_operation se /\ outdata <> None
      /\ (cr_rv r = CKR_OK \/ cr_rv r = CKR_GENERAL_ERROR)).
Proof.
  unfold single_shot. repeat case_match; cbn; naive_solver.
Qed.

Lemma single_shot_unchanged prim se indata outdata len :
  outdata = None
  \/ cr_rv (single_shot prim se indata outdata len) = CKR_BUFFER_TOO_SMALL ->
  cr_session (single_shot prim se indata outdata len) = se.
Proof.
  unfold single_shot. repeat case_match; cbn; naive_solver.
Qed.

Lemma single_shot_done prim se indata buf len :
  cr_rv (single_shot prim se indata (Some buf) len) = CKR_OK ->
  se_state (cr_session (single_shot prim se indata (Some buf) len))
  = NO_PENDING.
Proof.
  unfold single_shot. repeat case_match; cbn; naive_solver.
Qed.
End SingleShot.

Lemma copy_search_attrs_copied template attrs :
  copy_search_attrs template = Some attrs -> Forall2 copied template attrs.
Proof.
  revert attrs. induction template as [|t l IH]; intros attrs; cbn.
  - intros [= <-]. constructor.
  - destruct (copy_search_attr t) as [t'|] eqn:Ht; [|done].
    destruct (copy_search_attrs l) as [l'|]; [|done].
    intros [= <-]. constructor; [|by apply IH].
    unfold copy_search_attr, read_bytes in Ht. unfold copied.
    destruct (ulValueLen t =? CK_UNAVAILABLE_INFORMATION).
    + by injection Ht as <-.
    + destruct (Z.of_nat (length (bytes_at (pValue t))) <? ulValueLen t);
        [done|]. by injection Ht as <-.
Qed.

Lemma copy_search_attrs_readable template :
  Forall readable template -> is_Some (copy_search_attrs template).
Proof.
  induction 1 as [|t l Ht _ IH]; cbn; [done|].
  destruct IH as [l' ->].
  assert (is_Some (copy_search_attr t)) as [t' ->]; [|done].
  unfold copy_search_attr, read_bytes.
  destruct (ulValueLen t =? CK_UNAVAILABLE_INFORMATION) eqn:E; [done|].
  destruct Ht as [Ht|Ht]; [Zbool; done|].
  by rewrite (proj2 (Z.ltb_ge _ _)) by lia.
Qed.

Lemma copied_wf t t' :
  0 <= ulValueLen t -> readable t -> copied t t' -> attr_wf t'.
Proof.
  intros Hpos Hr (Hty & Hlen & Hval). unfold attr_wf. rewrite Hval, Hlen.
  destruct (ulValueLen t =? CK_UNAVAILABLE_INFORMATION) eqn:E; [done|].
  destruct Hr as [Hr|Hr]; [Zbool; done|].
  rewrite length_take. lia.
Qed.

Lemma copy_search_attr_readable t t' :
  copy_search_attr t = Some t' -> readable t.
Proof.
  unfold copy_search_attr, read_bytes, readable.
  destruct (ulValueLen t =? CK_UNAVAILABLE_INFORMATION) eqn:E;
    [Zbool; by left|].
  destruct (Z.of_nat (length (bytes_at (pValue t))) <? ulValueLen t) eqn:E2;
    [done|]. Zbool. by right.
Qed.

Lemma copy_search_attrs_wf template attrs :
  Forall (fun t => 0 <= ulValueLen t) template ->
  copy_search_attrs template = Some attrs -> Forall attr_wf attrs.
Proof.
  revert attrs. induction template as [|t l IH]; intros attrs Hpos; cbn.
  - intros [= <-]. constructor.
  - apply Forall_cons in Hpos as [Ht Hl].
    destruct (copy_search_attr t) as [t'|] eqn:Hc; [|done].
    destruct (copy_search_attrs l) as [l'|] eqn:Hcl; [|done].
    intros [= <-]. constructor; [|by apply IH].
    apply (copied_wf t); [done|by eapply copy_search_attr_readable|].
    pose proof (copy_search_attrs_copied [t] [t']) as Hcp.
    cbn in Hcp. rewrite Hc in Hcp. specialize (Hcp eq_refl).
    by apply Forall2_cons in Hcp as [? _].
Qed.

(** What [C_FindObjectsInit] returns: [CKR_OK], and the session with only
    its cursor and search attributes replaced. *)
Lemma C_FindObjectsInit_frame (se : session) (template : list CK_ATTRIBUTE)
    (rv : CK_RV) (se' : session) :
  C_FindObjectsInit se template = Some (rv, se') ->
  rv = CKR_OK
  /\ Forall2 copied template (se_search_attrs se')
  /\ se' = set_search 0 (se_search_attrs se') se.
Proof.
  unfold C_FindObjectsInit.
  destruct (copy_search_attrs template) as [attrs|] eqn:Hc; [|done].
  intros [= <- <-]. cbn. split_and!; try done.
  by apply copy_search_attrs_copied.
Qed.

(** C10. [C_FindObjectsInit] on a valid session, whatever operation the
    session has in progress: when it returns, it returns [CKR_OK], the
    cursor is 0 and the session holds the deep copy of the template;
    state, key, digest context, token binding and every other field are
    unchanged. It does return whenever the template can be read. *)
Theorem C10_FindObjectsInit (se : session) (template : list CK_ATTRIBUTE) :
  (Forall readable template -> is_Some (C_FindObjectsInit se template))
  /\ forall rv se',
      C_FindObjectsInit se template = Some (rv, se') ->
      rv = CKR_OK
      /\ se_obj_search_index se' = 0
      /\ Forall2 copied template (se_search_attrs se')
      /\ se' = set_search 0 (se_search_attrs se') se
      /\ se_state se' = se_state se
      /\ se_key se' = se_key se
      /\ se_mdc se' = se_mdc se
      /\ se_token se' = se_token se
      /\ se_slot_id se' = se_slot_id se
      /\ se_obj_list se' = se_obj_list se
      /\ se_outsize se' = se_outsize se
      /\ se_alg se' = se_alg se
      /\ se_dalg se' = se_dalg se
      /\ se_hash_alg se' = se_hash_alg se.
Proof.
  split.
  - unfold C_FindObjectsInit. intros Hr.
    by destruct (copy_search_attrs_readable template Hr) as [? ->].
  - intros rv se' Hf.
    destruct (C_FindObjectsInit_frame se template rv se' Hf)
      as (-> & Hcp & Hse).
    split_and!; try done; by rewrite Hse.
Qed.

(** After [C_FindObjectsInit] has deep-copied the template and reset the
    cursor, repeated calls of [C_FindObjects] on objects whose attributes
    all carry a value, as the builders store them, hand out the handles
    of the matching objects of the session's object list in order, each
    exactly once: the handles returned by any sequence of calls are a
    prefix of the duplicate-free list of all matching handles, as long as
    the sum of the [maxcount]s. An object matches iff every attribute of
    the copied template occurs in it with the same type, the same length
    and the same value; with an empty template every object matches. A
    call with [maxcount = 0] returns [CKR_ARGUMENTS_BAD] and changes
    nothing. *)
Theorem C_FindObjects_matching (se se0 : session)
    (template : list CK_ATTRIBUTE) (rv : CK_RV) :
  Forall obj_ok (se_obj_list se) ->
  Forall (fun t => 0 <= ulValueLen t) template ->
  C_FindObjectsInit se template = Some (rv, se0) ->
  let attrs := se_search_attrs se0 in
  let all := matching_from (se_obj_list se) 0 attrs in
  Forall2 copied template attrs
  /\ se_obj_search_index se0 = 0
  /\ (forall obj, obj ∈ se_obj_list se ->
        search_object obj attrs = Some true
        <-> forall t, t ∈ attrs -> attr_occurs obj t)
  /\ (forall obj, obj ∈ se_obj_list se ->
        search_object obj attrs = Some true
        \/ search_object obj attrs = Some false)
  /\ (template = [] -> forall obj, search_object obj attrs = Some true)
  /\ (forall h, h ∈ all
        <-> exists obj, 1 <= h
              /\ se_obj_list se !! Z.to_nat (h - 1) = Some obj
              /\ search_object obj attrs = Some true)
  /\ NoDup all
  /\ (forall maxcount, 0 < maxcount ->
        exists se1,
          C_FindObjects se0 true maxcount
          = Some (CKR_OK, se1, take (Z.to_nat maxcount) all))
  /\ (forall maxcounts, Forall (fun m => 0 < m) maxcounts ->
        find_repeatedly se0 maxcounts
        = take (Z.to_nat (foldr Z.add 0 maxcounts)) all)
  /\ (forall s object,
        C_FindObjects s object 0 = Some (CKR_ARGUMENTS_BAD, s, [])).
Proof.
  intros Hok Hpos Hinit attrs all.
  destruct (C_FindObjectsInit_frame se template rv se0 Hinit)
    as (_ & Hcopy & Hse).
  assert (Hidx : se_obj_search_index se0 = 0) by (by rewrite Hse).
  assert (Hobjs : se_obj_list se0 = se_obj_list se) by (by rewrite Hse).
  assert (Hwf : Forall attr_wf attrs).
  { unfold C_FindObjectsInit in Hinit.
    destruct (copy_search_attrs template) as [a|] eqn:Hc; [|done].
    injection Hinit as <- <-. by eapply copy_search_attrs_wf. }
  assert (Hrem : remaining se0 = all).
  { unfold remaining. by rewrite Hidx, Hobjs. }
  split_and!; try done.
  - intros obj Hin. apply search_object_spec; [|done].
    rewrite Forall_forall in Hok. by apply Hok.
  - intros obj Hin. rewrite Forall_forall in Hok.
    destruct (search_object_defined obj attrs (Hok obj Hin)) as [[|] ->];
      [by left|by right].
  - intros -> obj. apply Forall2_nil_inv_l in Hcopy.
    subst attrs. by rewrite Hcopy.
  - intros h. subst all. rewrite matching_from_spec. split.
    + intros (i & obj & Hi & -> & Hs). exists obj. split_and!; [lia| |done].
      by replace (Z.to_nat (0 + Z.of_nat i + 1 - 1)) with i by lia.
    + intros (obj & Hh & Hi & Hs). exists (Z.to_nat (h - 1)), obj.
      split_and!; [done|lia|done].
  - apply matching_from_NoDup.
  - intros maxcount Hm.
    destruct (C_FindObjects_spec se0 maxcount) as
      ([[rv1 se1] found] & Hf & Hrv & Hfound & _); [by rewrite Hobjs|lia|done|].
    cbn in Hrv, Hfound. subst rv1 found. exists se1. by rewrite Hf, Hrem.
  - intros maxcounts Hm.
    rewrite find_repeatedly_spec; [by rewrite Hrem|by rewrite Hobjs|lia|done].
  - intros s object. unfold C_FindObjects. cbn. by rewrite orb_true_r.
Qed.


Section Counting.
Context {A : Type} (p : A -> bool).

Lemma count_if_app l1 l2 :
  count_if p (l1 ++ l2) = (count_if p l1 + count_if p l2)%nat.
Proof. induction l1 as [|x l1 IH]; cbn; [done|]. rewrite IH. lia. Qed.

Lemma count_if_le_length l : (count_if p l <= length l)%nat.
Proof. induction l as [|x l IH]; cbn; [done|]. destruct (p x); lia. Qed.

Lemma count_if_insert l i x y :
  l !! i = Some x ->
  (count_if p (<[i := y]> l) + (if p x then 1 else 0)
   = count_if p l + (if p y then 1 else 0))%nat.
Proof.
  revert i. induction l as [|z l IH]; intros [|i] Hi; try done.
  - cbn in Hi. injection Hi as ->.
    change (<[0%nat := y]> (x :: l)) with (y :: l). cbn [count_if].
    destruct (p x), (p y); lia.
  - cbn in Hi. specialize (IH i Hi).
    change (<[S i := y]> (z :: l)) with (z :: <[i := y]> l).
    cbn [count_if]. lia.
Qed.

Lemma count_if_replicate n x : p x = false -> count_if p (replicate n x) = 0%nat.
Proof. intros Hx. induction n as [|n IH]; cbn; [done|]. by rewrite Hx, IH. Qed.

Lemma count_if_pos l i x : l !! i = Some x -> p x = true -> (0 < count_if p l)%nat.
Proof.
  revert i. induction l as [|z l IH]; intros [|i] Hi Hx; try done; cbn in *.
  - injection Hi as ->. rewrite Hx. lia.
  - specialize (IH i Hi Hx). lia.
Qed.

Lemma count_if_zero l :
  (forall i x, l !! i = Some x -> p x = false) -> count_if p l = 0%nat.
Proof.
  induction l as [|z l IH]; intros Hall; cbn; [done|].
  rewrite (Hall 0%nat z eq_refl), IH; [done|].
  intros i x Hi. by apply (Hall (S i)).
Qed.
End Counting.

Lemma count_if_ext {A} (p q : A -> bool) l :
  (forall x, x ∈ l -> p x = q x) -> count_if p l = count_if q l.
Proof.
  induction l as [|x l IH]; intros Hpq; cbn; [done|].
  rewrite (Hpq x) by (by apply elem_of_cons; left).
  rewrite IH; [done|]. intros y Hy. apply Hpq. by apply elem_of_cons; right.
Qed.

(** ** What [slot_entry_free] does to the heap *)

Lemma slot_entry_free_frame a lg d :
  slot_list (slot_entry_free a lg d) = slot_list d
  /\ sess_list (slot_entry_free a lg d) = sess_list d
  /\ sess_list_count (slot_entry_free a lg d) = sess_list_count d
  /\ cert_slot_enabled (slot_entry_free a lg d) = cert_slot_enabled d
  /\ cert_list_status (slot_entry_free a lg d) = cert_list_status d
  /\ cert_obj_list (slot_entry_free a lg d) = cert_obj_list d
  /\ forall b, b <> a ->
       tokens (slot_entry_free a lg d) !! b = tokens d !! b.
Proof.
  unfold slot_entry_free. destruct (tokens d !! a) as [entry|] eqn:Ha; [|done].
  cbn zeta. repeat case_match; cbn; split_and!; try done;
    intros b Hb; by rewrite ?lookup_insert_ne, ?lookup_delete_ne by done.
Qed.

Lemma slot_entry_free_token a lg d entry :
  tokens d !! a = Some entry ->
  1 <= tok_refcount entry <= UINT_MODULUS ->
  (tok_refcount entry = 1 -> tokens (slot_entry_free a lg d) !! a = None)
  /\ (1 < tok_refcount entry ->
      exists entry',
        tokens (slot_entry_free a lg d) !! a = Some entry'
        /\ tok_refcount entry' = tok_refcount entry - 1
        /\ tok_tokenid entry' = tok_tokenid entry
        /\ tok_id_list entry' = tok_id_list entry
        /\ tok_obj_list entry' = tok_obj_list entry
        /\ (tok_refcount entry = 2 ->
            tok_logged_in entry' = false /\ tok_lacontext entry' = None)
        /\ (2 < tok_refcount entry ->
            entry' = set_refcount (tok_refcount entry - 1) entry)).
Proof.
  intros Ha Hr. unfold slot_entry_free. rewrite Ha. cbn zeta.
  assert (Hmod : (tok_refcount entry - 1) mod UINT_MODULUS
                 = tok_refcount entry - 1).
  { apply Z.mod_small. unfold UINT_MODULUS in *. lia. }
  rewrite Hmod. split.
  - intros H1. destruct (tok_refcount entry - 1 >? 0) eqn:E; Zbool; [lia|].
    cbn. by rewrite lookup_delete_eq.
  - intros H1. rewrite (proj2 (Z.gtb_lt _ _)) by lia.
    destruct (tok_refcount entry - 1 =? 1) eqn:E; Zbool.
    + unfold token_logout. cbn [tok_lacontext set_refcount].
      destruct (tok_lacontext entry) eqn:El; cbn; rewrite lookup_insert_eq;
        eexists; split_and!; try done; intros; try lia;
        cbn; by rewrite ?El.
    + cbn. rewrite lookup_insert_eq. eexists.
      split_and!; try done; intros; lia.
Qed.

(** ** The session array *)

Lemma find_free_session_Some l k j :
  find_free_session l k = Some j ->
  (k <= j)%nat /\ l !! (j - k)%nat = Some None.
Proof.
  revert k. induction l as [|[se|] l IH]; intros k; cbn; try done.
  - intros Hf. destruct (IH (S k) Hf) as [Hle Hl]. split; [lia|].
    replace (j - k)%nat with (S (j - S k)) by lia. done.
  - intros [= <-]. split; [lia|]. by rewrite Nat.sub_diag.
Qed.

Lemma find_free_session_None l k i s :
  find_free_session l k = None -> l !! i = Some s -> s <> None.
Proof.
  revert k i. induction l as [|[se|] l IH]; intros k i; cbn; try done.
  intros Hf. destruct i as [|i]; cbn; [by intros [= <-]|]. by apply (IH (S k)).
Qed.

(** The session array after [sess_list_add]: the new session sits at
    index [handle - 1], which is in use; nothing else changed but free or
    fresh cells. *)
Lemma sess_list_add_spec l count sess :
  0 <= count <= Z.of_nat (length l) ->
  (forall i s, count <= Z.of_nat i -> l !! i = Some s -> s = None) ->
  exists (i : nat) l' count',
    sess_list_add l count sess = (l', count', Z.of_nat i + 1)
    /\ l' !! i = Some (Some sess)
    /\ Z.of_nat i < count' /\ count <= count'
    /\ count' <= Z.of_nat (length l')
    /\ (length l <= length l' <= length l + 5)%nat
    /\ (forall j s, count' <= Z.of_nat j -> l' !! j = Some s -> s = None)
    /\ (forall p : option session -> bool,
          p None = false ->
          count_if p l'
          = (count_if p l + (if p (Some sess) then 1 else 0))%nat).
Proof.
  intros Hc Htail. unfold sess_list_add.
  destruct (find_free_session l 0) as [i|] eqn:Hf.
  - apply find_free_session_Some in Hf as [_ Hi]. rewrite Nat.sub_0_r in Hi.
    pose proof (lookup_lt_Some _ _ _ Hi) as Hlt.
    eexists i, _, _. split; [done|]. rewrite length_insert.
    split_and!.
    + by apply list_lookup_insert_eq.
    + case_match; Zbool; lia.
    + case_match; Zbool; lia.
    + case_match; Zbool; lia.
    + lia.
    + lia.
    + intros j s Hj Hs. destruct (decide (i = j)) as [->|Hne].
      * case_match; Zbool; lia.
      * rewrite list_lookup_insert_ne in Hs by done.
        apply (Htail j); [|done]. case_match; Zbool; lia.
    + intros p Hp. pose proof (count_if_insert p l i None (Some sess) Hi) as Hci.
      rewrite Hp in Hci. revert Hci. destruct (p (Some sess)); lia.
  - assert (Hfull : count = Z.of_nat (length l)).
    { destruct (decide (count = Z.of_nat (length l))) as [|Hne]; [done|].
      exfalso. assert (Hlt : (Z.to_nat count < length l)%nat) by lia.
      apply lookup_lt_is_Some in Hlt as [s Hs].
      apply (find_free_session_None _ _ _ _ Hf Hs).
      apply (Htail (Z.to_nat count)); [lia|done]. }
    assert (Hcl : take (Z.to_nat (count + 1)) (l ++ replicate 5 None)
                  ++ replicate (length (l ++ replicate 5 None)
                                - Z.to_nat (count + 1)) None
                  = l ++ replicate 5 None).
    { rewrite length_app, length_replicate.
      replace (Z.to_nat (count + 1)) with (length l + 1)%nat by lia.
      replace (length l + 5 - (length l + 1))%nat with 4%nat by lia.
      rewrite take_app_add'; [|done]. cbn. by rewrite <- app_assoc. }
    rewrite Hcl.
    replace (Z.to_nat count) with (length l + 0)%nat by lia.
    rewrite insert_app_r. cbn [replicate]. 
    change (<[0%nat := Some sess]> (None :: ?r)) with (Some sess :: r).
    eexists (length l), _, _. split; [by rewrite Hfull|].
    rewrite length_app. cbn [length].
    split_and!; try lia.
    + rewrite lookup_app_r by lia. by rewrite Nat.sub_diag.
    + intros j s Hj Hs. rewrite lookup_app_r in Hs by lia.
      destruct (j - length l)%nat as [|[|[|[|[|k]]]]] eqn:E; cbn in Hs;
        try congruence; try lia. by destruct k.
    + intros p Hp. rewrite count_if_app. cbn. rewrite Hp.
      destruct (p (Some sess)); lia.
Qed.

Lemma handle_index_succ (i : nat) :
  Z.of_nat i + 1 < 2 ^ 64 -> handle_index (Z.of_nat i + 1) = Z.of_nat i.
Proof. intros Hi. unfold handle_index. rewrite Z.mod_small; lia. Qed.

Lemma CHECKSESSION_Some d h i se :
  CHECKSESSION d h = Some (i, se) ->
  sess_list d !! i = Some (Some se) /\ Z.of_nat i < sess_list_count d
  /\ Z.of_nat i = handle_index h.
Proof.
  unfold CHECKSESSION. intros Hc.
  assert (0 <= handle_index h).
  { unfold handle_index. apply Z.mod_pos_bound. lia. }
  destruct (handle_index h >=? sess_list_count d) eqn:E; [done|]. Zbool.
  destruct (sess_list d !! Z.to_nat (handle_index h)) as [[s|]|] eqn:El;
    try done.
  injection Hc as <- <-. split_and!; [done|lia|lia].
Qed.

Lemma session_on_None a : session_on a None = false.
Proof. done. Qed.

Lemma slot_holds_None a : slot_holds a None = false.
Proof. done. Qed.

Lemma slot_holds_Some a b : slot_holds a (Some b) = bool_decide (b = a).
Proof.
  unfold slot_holds. apply bool_decide_ext. split; congruence.
Qed.

(** A driver whose heap, slot counts and session counts agree with those
    of a driver that satisfies the invariant, except possibly at one
    address where the count is right again, satisfies it too. *)
Lemma driver_inv_update d d' a :
  driver_inv d ->
  (forall b, b <> a ->
     tokens d' !! b = tokens d !! b
     /\ slots_holding d' b = slots_holding d b
     /\ open_sessions d' b = open_sessions d b) ->
  match tokens d' !! a with
  | Some e =>
      tok_refcount e
      = Z.of_nat (slots_holding d' a) + Z.of_nat (open_sessions d' a)
      /\ 0 < tok_refcount e
  | None => slots_holding d' a = 0%nat /\ open_sessions d' a = 0%nat
  end ->
  (slots_holding d' a <= 1)%nat ->
  0 <= sess_list_count d' <= Z.of_nat (length (sess_list d')) ->
  (forall i s, sess_list_count d' <= Z.of_nat i ->
               sess_list d' !! i = Some s -> s = None) ->
  Z.of_nat (length (sess_list d')) < UINT_MODULUS ->
  driver_inv d'.
Proof.
  intros [Hrc Hfr Hone _ _ _] Hother Ha Ha1 Hcount Htail Hsize.
  constructor; try done.
  - intros b e Hb. destruct (decide (b = a)) as [->|Hne].
    + by rewrite Hb in Ha.
    + destruct (Hother b Hne) as (Ht & -> & ->). rewrite Ht in Hb.
      by apply Hrc.
  - intros b Hb. destruct (decide (b = a)) as [->|Hne].
    + by rewrite Hb in Ha.
    + destruct (Hother b Hne) as (Ht & -> & ->). rewrite Ht in Hb.
      by apply Hfr.
  - intros b. destruct (decide (b = a)) as [->|Hne]; [done|].
    destruct (Hother b Hne) as (_ & -> & _). apply Hone.
Qed.

(** The same when the heap changes nowhere. *)
Lemma driver_inv_same_tokens d d' :
  driver_inv d ->
  (forall b, (exists e e', tokens d !! b = Some e /\ tokens d' !! b = Some e'
                           /\ tok_refcount e' = tok_refcount e)
             \/ (tokens d !! b = None /\ tokens d' !! b = None)) ->
  (forall b, slots_holding d' b = slots_holding d b) ->
  (forall b, open_sessions d' b = open_sessions d b) ->
  0 <= sess_list_count d' <= Z.of_nat (length (sess_list d')) ->
  (forall i s, sess_list_count d' <= Z.of_nat i ->
               sess_list d' !! i = Some s -> s = None) ->
  Z.of_nat (length (sess_list d')) < UINT_MODULUS ->
  driver_inv d'.
Proof.
  intros [Hrc Hfr Hone _ _ _] Htok Hsl Hse Hcount Htail Hsize.
  constructor; try done.
  - intros b e' Hb. rewrite Hsl, Hse.
    destruct (Htok b) as [(e & e2 & He & He' & Hr)|[_ Hn]]; [|congruence].
    rewrite Hb in He'. injection He' as <-. rewrite Hr. by apply Hrc.
  - intros b Hb. rewrite Hsl, Hse.
    destruct (Htok b) as [(e & e2 & He & He' & Hr)|[Hn _]]; [congruence|].
    by apply Hfr.
  - intros b. rewrite Hsl. apply Hone.
Qed.

Lemma driver_inv_init cert_slot : driver_inv (driver_init cert_slot).
Proof.
  constructor; cbn; try done.
  intros a. rewrite slot_holds_None. lia.
Qed.

Lemma session_on_token a se :
  session_on a (Some se) = bool_decide (se_token se = Some a).
Proof. done. Qed.

Lemma open_sessions_insert d a i s s' l :
  sess_list d !! i = Some s -> l = <[i := s']> (sess_list d) ->
  (count_if (session_on a) l + (if session_on a s then 1 else 0)
   = open_sessions d a + (if session_on a s' then 1 else 0))%nat.
Proof. intros Hi ->. by apply count_if_insert. Qed.

Lemma slots_holding_insert d a i s s' l :
  slot_list d !! i = Some s -> l = <[i := s']> (slot_list d) ->
  (count_if (slot_holds a) l + (if slot_holds a s then 1 else 0)
   = slots_holding d a + (if slot_holds a s' then 1 else 0))%nat.
Proof. intros Hi ->. by apply count_if_insert. Qed.

(** A token that a session is bound to, or that a slot holds, is live,
    and its count is within the range of [unsigned int]. *)
Lemma driver_inv_session_live d i se a :
  driver_inv d -> sess_list d !! i = Some (Some se) ->
  se_token se = Some a ->
  exists entry, tokens d !! a = Some entry
                /\ (1 <= open_sessions d a)%nat
                /\ 1 <= tok_refcount entry < UINT_MODULUS + 1.
Proof.
  intros Hinv Hi Ht.
  assert (Hpos : (0 < open_sessions d a)%nat).
  { apply (count_if_pos _ _ i (Some se)); [done|].
    rewrite session_on_token. by apply bool_decide_eq_true. }
  destruct (tokens d !! a) as [entry|] eqn:Ha.
  - exists entry. destruct (inv_refcount d Hinv a entry Ha) as [Hr Hp].
    pose proof (inv_one_slot d Hinv a).
    pose proof (count_if_le_length (session_on a) (sess_list d)).
    pose proof (inv_size d Hinv). unfold open_sessions in *.
    split_and!; [done|lia|lia|lia].
  - destruct (inv_freed d Hinv a Ha). lia.
Qed.

Lemma driver_inv_slot_live d i a :
  driver_inv d -> slot_list d !! i = Some (Some a) ->
  exists entry, tokens d !! a = Some entry
                /\ slots_holding d a = 1%nat
                /\ tok_refcount entry = 1 + Z.of_nat (open_sessions d a)
                /\ 1 <= tok_refcount entry < UINT_MODULUS + 1.
Proof.
  intros Hinv Hi.
  assert (Hpos : (0 < slots_holding d a)%nat).
  { apply (count_if_pos _ _ i (Some a)); [done|].
    rewrite slot_holds_Some. by apply bool_decide_eq_true. }
  pose proof (inv_one_slot d Hinv a).
  destruct (tokens d !! a) as [entry|] eqn:Ha.
  - exists entry. destruct (inv_refcount d Hinv a entry Ha) as [Hr Hp].
    pose proof (count_if_le_length (session_on a) (sess_list d)).
    pose proof (inv_size d Hinv). unfold open_sessions in *.
    split_and!; [done|lia|lia|lia|lia].
  - destruct (inv_freed d Hinv a Ha). lia.
Qed.

(** Closing the session in cell [i]. *)
Lemma driver_inv_close d i se :
  driver_inv d -> sess_list d !! i = Some (Some se) ->
  driver_inv
    (set_sess_list (<[i := None]> (sess_list (sess_free se d)))
                   (sess_list_count (sess_free se d)) (sess_free se d)).
Proof.
  intros Hinv Hi. unfold sess_free.
  destruct (se_token se) as [a|] eqn:Ht.
  - destruct (driver_inv_session_live d i se a Hinv Hi Ht)
      as (entry & Ha & Hopen & Hrange).
    destruct (slot_entry_free_frame a true d)
      as (Hsl & Hse & Hct & _ & _ & _ & Hoth).
    destruct (slot_entry_free_token a true d entry Ha ltac:(lia))
      as [Hone Hmany].
    destruct (inv_refcount d Hinv a entry Ha) as [Hrc _].
    rewrite Hse, Hct.
    assert (Hcnt : forall b,
      (count_if (session_on b) (<[i := None]> (sess_list d))
       + (if bool_decide (b = a) then 1 else 0)
       = open_sessions d b)%nat).
    { intros b.
      pose proof (open_sessions_insert d b i (Some se) None _ Hi eq_refl)
        as Hc.
      rewrite session_on_token, Ht, session_on_None in Hc.
      rewrite (bool_decide_ext (Some a = Some b) (b = a)) in Hc
        by (split; congruence).
      lia. }
    apply (driver_inv_update d _ a Hinv).
    + intros b Hb. cbn. split_and!.
      * by apply Hoth.
      * unfold slots_holding. by rewrite Hsl.
      * specialize (Hcnt b). rewrite bool_decide_eq_false_2 in Hcnt by done.
        unfold open_sessions in *. cbn [sess_list set_sess_list]. lia.
    + cbn [tokens set_sess_list]. specialize (Hcnt a).
      rewrite bool_decide_eq_true_2 in Hcnt by done.
      unfold slots_holding, open_sessions in *.
      cbn [slot_list sess_list set_sess_list]. rewrite Hsl.
      destruct (decide (tok_refcount entry = 1)) as [H1|H1].
      * rewrite (Hone H1). lia.
      * destruct Hmany as (e' & -> & Hr' & _); [lia|]. lia.
    + unfold slots_holding. cbn. rewrite Hsl. apply (inv_one_slot d Hinv).
    + cbn. rewrite length_insert. apply (inv_count d Hinv).
    + cbn. intros j s Hj Hs. destruct (decide (i = j)) as [->|Hne].
      * apply list_lookup_insert_Some in Hs. naive_solver.
      * rewrite list_lookup_insert_ne in Hs by done.
        by apply (inv_tail d Hinv j).
    + cbn. rewrite length_insert. apply (inv_size d Hinv).
  - apply (driver_inv_same_tokens d); cbn; try done.
    + intros b. destruct (tokens d !! b) as [e|] eqn:Hb; [left|right]; eauto.
    + intros b.
      pose proof (open_sessions_insert d b i (Some se) None _ Hi eq_refl)
        as Hc.
      rewrite session_on_token, Ht, session_on_None in Hc.
      rewrite bool_decide_eq_false_2 in Hc by done.
      unfold open_sessions in *. cbn [sess_list set_sess_list]. lia.
    + rewrite length_insert. apply (inv_count d Hinv).
    + intros j s Hj Hs. destruct (decide (i = j)) as [->|Hne].
      * apply list_lookup_insert_Some in Hs. naive_solver.
      * rewrite list_lookup_insert_ne in Hs by done.
        by apply (inv_tail d Hinv j).
    + rewrite length_insert. apply (inv_size d Hinv).
Qed.

Lemma find_free_slot_Some l k j :
  find_free_slot l k = Some j ->
  (k <= j)%nat /\ l !! (j - k)%nat = Some None.
Proof.
  revert k. induction l as [|[se|] l IH]; intros k; cbn; try done.
  - intros Hf. destruct (IH (S k) Hf) as [Hle Hl]. split; [lia|].
    replace (j - k)%nat with (S (j - S k)) by lia. done.
  - intros [= <-]. split; [lia|]. by rewrite Nat.sub_diag.
Qed.

Lemma find_token_slot_Some m tokenid l k i a :
  find_token_slot m tokenid l k = Some (i, a) ->
  (k <= i)%nat /\ l !! (i - k)%nat = Some (Some a)
  /\ exists entry, m !! a = Some entry /\ tok_tokenid entry = tokenid.
Proof.
  revert k. induction l as [|s l IH]; intros k; cbn; [done|].
  assert (Hrec : find_token_slot m tokenid l (S k) = Some (i, a) ->
                 (k <= i)%nat /\ (s :: l) !! (i - k)%nat = Some (Some a)
                 /\ exists entry, m !! a = Some entry
                                  /\ tok_tokenid entry = tokenid).
  { intros Hf. destruct (IH (S k) Hf) as (Hle & Hl & He).
    split; [lia|]. split; [|done].
    replace (i - k)%nat with (S (i - S k)) by lia. done. }
  destruct s as [b|]; [|done].
  destruct (m !! b) as [entry|] eqn:Hb; [|done].
  destruct (tokenid =? tok_tokenid entry) eqn:E; [|done].
  intros [= <- <-]. Zbool. rewrite Nat.sub_diag. split_and!; [lia|done|].
  by exists entry.
Qed.

(** Taking the token out of slot [i]. *)
Lemma driver_inv_remove d i a :
  driver_inv d -> slot_list d !! i = Some (Some a) ->
  driver_inv
    (set_slot_list (<[i := None]> (slot_list (slot_entry_free a false d)))
                   (slot_entry_free a false d)).
Proof.
  intros Hinv Hi.
  destruct (driver_inv_slot_live d i a Hinv Hi)
    as (entry & Ha & Hslot & Hrc & Hrange).
  destruct (slot_entry_free_frame a false d)
    as (Hsl & Hse & Hct & _ & _ & _ & Hoth).
  destruct (slot_entry_free_token a false d entry Ha ltac:(lia))
    as [Hone Hmany].
  rewrite Hsl.
  assert (Hcnt : forall b,
    (count_if (slot_holds b) (<[i := None]> (slot_list d))
     + (if bool_decide (a = b) then 1 else 0)
     = slots_holding d b)%nat).
  { intros b.
    pose proof (slots_holding_insert d b i (Some a) None _ Hi eq_refl) as Hc.
    rewrite slot_holds_Some, slot_holds_None in Hc. lia. }
  apply (driver_inv_update d _ a Hinv).
  - intros b Hb. cbn. split_and!.
    + by apply Hoth.
    + specialize (Hcnt b). rewrite bool_decide_eq_false_2 in Hcnt by done.
      unfold slots_holding in *. cbn [slot_list set_slot_list]. lia.
    + unfold open_sessions. cbn. by rewrite Hse.
  - cbn [tokens set_slot_list]. specialize (Hcnt a).
    rewrite bool_decide_eq_true_2 in Hcnt by done.
    unfold slots_holding, open_sessions in *.
    cbn [slot_list sess_list set_slot_list]. rewrite Hse.
    destruct (decide (tok_refcount entry = 1)) as [H1|H1].
    + rewrite (Hone H1). lia.
    + destruct Hmany as (e' & -> & Hr' & _); [lia|]. lia.
  - specialize (Hcnt a). rewrite bool_decide_eq_true_2 in Hcnt by done.
    unfold slots_holding in *. cbn [slot_list set_slot_list]. lia.
  - cbn. rewrite Hse, Hct. apply (inv_count d Hinv).
  - cbn. rewrite Hse, Hct. apply (inv_tail d Hinv).
  - cbn. rewrite Hse. apply (inv_size d Hinv).
Qed.

(** A change of a token's login state or context leaves the counts. *)
Lemma driver_inv_token_fields d a entry entry' :
  driver_inv d -> tokens d !! a = Some entry ->
  tok_refcount entry' = tok_refcount entry ->
  driver_inv (set_tokens (<[a := entry']> (tokens d)) d).
Proof.
  intros Hinv Ha Hr. apply (driver_inv_same_tokens d); cbn; try done.
  - intros b. destruct (decide (b = a)) as [->|Hne].
    + left. exists entry, entry'. by rewrite lookup_insert_eq.
    + rewrite lookup_insert_ne by done.
      destruct (tokens d !! b) as [e|] eqn:Hb; [left|right]; eauto.
  - apply (inv_count d Hinv).
  - apply (inv_tail d Hinv).
  - apply (inv_size d Hinv).
Qed.

Lemma driver_inv_log d evs : driver_inv d -> driver_inv (log_events evs d).
Proof.
  intros Hinv. apply (driver_inv_same_tokens d); cbn; try done.
  - intros b. destruct (tokens d !! b) as [e|] eqn:Hb; [left|right]; eauto.
  - apply (inv_count d Hinv).
  - apply (inv_tail d Hinv).
  - apply (inv_size d Hinv).
Qed.

(** Replacing a session by one bound to the same token. *)
Lemma driver_inv_session_update d i se se' :
  driver_inv d -> sess_list d !! i = Some (Some se) ->
  se_token se' = se_token se ->
  driver_inv (set_sess_list (<[i := Some se']> (sess_list d))
                            (sess_list_count d) d).
Proof.
  intros Hinv Hi Ht. apply (driver_inv_same_tokens d); cbn; try done.
  - intros b. destruct (tokens d !! b) as [e|] eqn:Hb; [left|right]; eauto.
  - intros b.
    pose proof (open_sessions_insert d b i (Some se) (Some se') _ Hi eq_refl)
      as Hc.
    rewrite !session_on_token, Ht in Hc.
    unfold open_sessions in *. cbn [sess_list set_sess_list].
    destruct (bool_decide (se_token se = Some b)); lia.
  - rewrite length_insert. apply (inv_count d Hinv).
  - intros j s Hj Hs. destruct (decide (i = j)) as [->|Hne].
    + pose proof (inv_tail d Hinv j _ Hj Hi). done.
    + rewrite list_lookup_insert_ne in Hs by done.
      by apply (inv_tail d Hinv j).
  - rewrite length_insert. apply (inv_size d Hinv).
Qed.

Lemma CHECKSLOT_present d slot_id :
  CHECKSLOT d slot_id true = None ->
  (slot_id = CERTIFICATE_SLOT /\ cert_list_status d = initialized)
  \/ (slot_id <> CERTIFICATE_SLOT
      /\ exists a, slot_list d !! Z.to_nat slot_id = Some (Some a)).
Proof.
  unfold CHECKSLOT. repeat case_match; try done; Zbool; intros _.
  - by left.
  - right. eauto.
Qed.

(** [C_OpenSession] keeps the invariant, and the handle it returns names
    a session in state [NO_PENDING]. *)
Lemma C_OpenSession_inv d slot_id flags mem :
  driver_inv d ->
  Z.of_nat (length (sess_list d)) + 5 < UINT_MODULUS ->
  driver_inv (C_OpenSession d slot_id flags mem).1.2
  /\ forall d' handle,
      C_OpenSession d slot_id flags mem = (CKR_OK, d', Some handle) ->
      exists i se, CHECKSESSION d' handle = Some (i, se)
                   /\ se_state se = NO_PENDING /\ se_key se = None
                   /\ se_mdc se = None /\ se_slot_id se = slot_id.
Proof.
  intros Hinv Hsize. unfold C_OpenSession.
  destruct (CHECKSLOT d slot_id true) as [rv|] eqn:Hslot; [by split|].
  destruct (Z.land flags CKF_SERIAL_SESSION =? 0); [by split|].
  apply CHECKSLOT_present in Hslot.
  set (open := fun objs tok (d0 : driver) =>
     let sess :=
       {| se_slot_id := slot_id; se_token := tok; se_obj_list := objs;
          se_obj_search_index := se_obj_search_index mem;
          se_search_attrs := []; se_state := NO_PENDING; se_key := None;
          se_outsize := se_outsize mem; se_alg := se_alg mem;
          se_dalg := se_dalg mem; se_hash_alg := se_hash_alg mem;
          se_mdc := None |} in
     let '(l, count, handle) :=
       sess_list_add (sess_list d0) (sess_list_count d0) sess in
     (CKR_OK, set_sess_list l count d0, Some handle)).
  assert (Hgen : forall objs tok d0,
    sess_list d0 = sess_list d -> sess_list_count d0 = sess_list_count d ->
    (forall b, slots_holding d0 b = slots_holding d b) ->
    (forall b, tok <> Some b -> tokens d0 !! b = tokens d !! b) ->
    match tok with
    | Some a =>
        exists e, tokens d !! a = Some e
          /\ tokens d0 !! a = Some (set_refcount (tok_refcount e + 1) e)
    | None => True
    end ->
    driver_inv (open objs tok d0).1.2
    /\ forall d' handle,
        open objs tok d0 = (CKR_OK, d', Some handle) ->
        exists i se, CHECKSESSION d' handle = Some (i, se)
                     /\ se_state se = NO_PENDING /\ se_key se = None
                     /\ se_mdc se = None /\ se_slot_id se = slot_id).
  { intros objs tok d0 Hl Hc Hsl Htok Hnew. unfold open. cbn zeta.
    rewrite Hl, Hc.
    destruct (sess_list_add_spec (sess_list d) (sess_list_count d)
      {| se_slot_id := slot_id; se_token := tok; se_obj_list := objs;
         se_obj_search_index := se_obj_search_index mem;
         se_search_attrs := []; se_state := NO_PENDING; se_key := None;
         se_outsize := se_outsize mem; se_alg := se_alg mem;
         se_dalg := se_dalg mem; se_hash_alg := se_hash_alg mem;
         se_mdc := None |} (inv_count d Hinv) (inv_tail d Hinv))
      as (i & l' & count' & -> & Hi & Hlt & Hle & Hlen & Hlen' & Htail & Hcnt).
    cbn [fst snd]. split.
    - assert (Hsess : forall b,
        open_sessions (set_sess_list l' count' d0) b
        = (open_sessions d b + (if bool_decide (tok = Some b) then 1 else 0))%nat).
      { intros b. unfold open_sessions. cbn. rewrite (Hcnt _ (session_on_None b)).
        by rewrite session_on_token. }
      assert (Hsz : Z.of_nat (length l') < UINT_MODULUS) by lia.
      assert (Hsl' : forall b,
        slots_holding (set_sess_list l' count' d0) b = slots_holding d b).
      { intros b. rewrite <- Hsl. done. }
      destruct tok as [a|].
      + destruct Hnew as (e & Ha & Ha0).
        apply (driver_inv_update d _ a Hinv).
        * intros b Hb. split_and!.
          -- cbn. apply Htok. congruence.
          -- apply Hsl'.
          -- rewrite Hsess. rewrite bool_decide_eq_false_2 by congruence. lia.
        * cbn [tokens set_sess_list]. rewrite Ha0.
          cbn [tok_refcount set_refcount].
          destruct (inv_refcount d Hinv a e Ha) as [Hr Hp].
          rewrite Hsl', Hsess. rewrite bool_decide_eq_true_2 by done. lia.
        * rewrite Hsl'. apply (inv_one_slot d Hinv).
        * cbn. lia.
        * cbn. done.
        * cbn. done.
      + apply (driver_inv_same_tokens d).
        * done.
        * intros b. cbn. rewrite (Htok b) by done.
          destruct (tokens d !! b) as [e|] eqn:Hb; [left|right]; eauto.
        * done.
        * intros b. rewrite Hsess. rewrite bool_decide_eq_false_2 by done. lia.
        * cbn. lia.
        * cbn. done.
        * cbn. done.
    - intros d' handle [= <- <-]. eexists i, _.
      unfold CHECKSESSION. cbn [sess_list sess_list_count set_sess_list].
      rewrite handle_index_succ by (unfold UINT_MODULUS in *; lia).
      assert (Hge : (Z.of_nat i >=? count') = false).
      { rewrite Z.geb_leb. apply Z.leb_gt. lia. }
      rewrite Hge, Nat2Z.id, Hi. done. }
  destruct Hslot as [[-> Hst]|[Hne (a & Ha)]].
  - rewrite Z.eqb_refl. apply (Hgen _ None d); try done.
  - rewrite (proj2 (Z.eqb_neq _ _) Hne), Ha.
    destruct (driver_inv_slot_live d _ a Hinv Ha)
      as (entry & Hentry & _ & Hrc & _).
    rewrite Hentry.
    assert (Hmod : (tok_refcount entry + 1) mod UINT_MODULUS
                   = tok_refcount entry + 1).
    { apply Z.mod_small.
      pose proof (count_if_le_length (session_on a) (sess_list d)).
      unfold open_sessions in Hrc. lia. }
    rewrite Hmod. apply (Hgen _ (Some a)); try done.
    + intros b Hb. cbn. rewrite lookup_insert_ne; [done|congruence].
    + exists entry. cbn. by rewrite lookup_insert_eq.
Qed.

Section RegistryInvariant.
Context `{Platform}.

Lemma run_op_frame op se rv se' :
  run_op op se = Some (rv, se') ->
  se_token se' = se_token se /\ se_slot_id se' = se_slot_id se
  /\ se_obj_list se' = se_obj_list se.
Proof.
  destruct op; cbn [run_op].
  - by intros [= <- <-].
  - intros Hf.
    destruct (C_FindObjectsInit_frame _ _ _ _ Hf) as (_ & _ & ->). done.
  - destruct (C_FindObjects se object maxcount) as [[[rv0 se0] found]|]
      eqn:Hf; [|done].
    intros [= <- <-].
    by destruct (C_FindObjects_frame _ _ _ _ _ _ Hf) as [->|[idx ->]].
  - by intros [= <- <-].
  - unfold C_EncryptInit. repeat case_match; by intros [= <- <-].
  - unfold C_Encrypt, single_shot. repeat case_match; by intros [= <- <-].
  - unfold C_DecryptInit. repeat case_match; by intros [= <- <-].
  - unfold C_Decrypt, single_shot. repeat case_match; by intros [= <- <-].
  - unfold C_SignInit. repeat case_match; by intros [= <- <-].
  - unfold C_Sign, single_shot. repeat case_match; by intros [= <- <-].
  - unfold C_SignUpdate, multipart_update.
    repeat case_match; by intros [= <- <-].
  - unfold C_SignFinal. repeat case_match; by intros [= <- <-].
  - unfold C_VerifyInit. repeat case_match; by intros [= <- <-].
  - unfold C_Verify. repeat case_match; by intros [= <- <-].
  - unfold C_VerifyUpdate, multipart_update.
    repeat case_match; by intros [= <- <-].
  - unfold C_VerifyFinal. repeat case_match; by intros [= <- <-].
Qed.

Lemma add_token_id_inv d tokenid a lac found :
  driver_inv d -> tokens d !! a = None ->
  driver_inv (add_token_id d tokenid a lac found).
Proof.
  intros Hinv Ha. unfold add_token_id.
  destruct found as [[|id0 ids]|]; [| |done].
  - unfold slot_entry_free. cbn [tokens set_tokens].
    rewrite lookup_insert_eq. cbn.
    rewrite delete_insert_eq, delete_id by done.
    apply (driver_inv_same_tokens d); cbn; try done.
    + intros b. destruct (tokens d !! b) as [e|] eqn:Hb; [left|right]; eauto.
    + apply (inv_count d Hinv).
    + apply (inv_tail d Hinv).
    + apply (inv_size d Hinv).
  - destruct (inv_freed d Hinv a Ha) as [Hs0 Ho0].
    assert (Hslots : forall b,
      count_if (slot_holds b)
        match find_free_slot (slot_list d) 0 with
        | Some i => <[i := Some a]> (slot_list d)
        | None => slot_list d ++ [Some a]
        end
      = (slots_holding d b + (if bool_decide (a = b) then 1 else 0))%nat).
    { intros b. destruct (find_free_slot (slot_list d) 0) as [i|] eqn:Hf.
      - apply find_free_slot_Some in Hf as [_ Hi].
        rewrite Nat.sub_0_r in Hi.
        pose proof (slots_holding_insert d b i None (Some a) _ Hi eq_refl)
          as Hc.
        rewrite slot_holds_Some, slot_holds_None in Hc. lia.
      - rewrite count_if_app. cbn. rewrite slot_holds_Some.
        unfold slots_holding. lia. }
    apply (driver_inv_update d _ a Hinv).
    + intros b Hb. split_and!.
      * cbn. by rewrite lookup_insert_ne.
      * unfold slots_holding at 1. cbn [slot_list set_slot_list].
        rewrite Hslots. rewrite bool_decide_eq_false_2 by done. lia.
      * done.
    + cbn [tokens set_slot_list set_tokens]. rewrite lookup_insert_eq.
      cbn [tok_refcount]. unfold slots_holding at 1.
      cbn [slot_list set_slot_list]. rewrite Hslots.
      rewrite bool_decide_eq_true_2 by done.
      unfold open_sessions in *. cbn [sess_list set_slot_list set_tokens].
      lia.
    + unfold slots_holding at 1. cbn [slot_list set_slot_list].
      rewrite Hslots. rewrite bool_decide_eq_true_2 by done. lia.
    + cbn. apply (inv_count d Hinv).
    + cbn. apply (inv_tail d Hinv).
    + cbn. apply (inv_size d Hinv).
Qed.

Lemma remove_token_id_inv d tokenid :
  driver_inv d -> driver_inv (remove_token_id d tokenid).
Proof.
  intros Hinv. unfold remove_token_id.
  destruct (find_token_slot _ _ _ _) as [[i a]|] eqn:Hf; [|done].
  apply find_token_slot_Some in Hf as (_ & Hi & _).
  rewrite Nat.sub_0_r in Hi. by apply driver_inv_remove.
Qed.

Lemma C_CloseSession_inv d hSession :
  driver_inv d -> driver_inv (C_CloseSession d hSession).2.
Proof.
  intros Hinv. unfold C_CloseSession.
  destruct (CHECKSESSION d hSession) as [[i se]|] eqn:Hc; [|done].
  apply CHECKSESSION_Some in Hc as (Hi & _). by apply driver_inv_close.
Qed.

Lemma close_if_on_slot_inv slot_id d i :
  driver_inv d -> driver_inv (close_if_on_slot slot_id d i).
Proof.
  intros Hinv. unfold close_if_on_slot.
  destruct (sess_list d !! i) as [[se|]|] eqn:Hi; try done.
  destruct (se_slot_id se =? slot_id); [|done].
  by apply driver_inv_close.
Qed.

Lemma C_CloseAllSessions_inv d slot_id :
  driver_inv d -> driver_inv (C_CloseAllSessions d slot_id).2.
Proof.
  intros Hinv. unfold C_CloseAllSessions.
  destruct (CHECKSLOT d slot_id true); [done|]. cbn [snd].
  generalize (seq 0 (Z.to_nat (sess_list_count d))). intros l.
  revert d Hinv. induction l as [|i l IH]; intros d Hinv; [done|].
  cbn [fold_left]. apply IH. by apply close_if_on_slot_inv.
Qed.

Lemma C_Login_inv d hSession usertype pin :
  driver_inv d -> driver_inv (C_Login d hSession usertype pin).2.
Proof.
  intros Hinv. unfold C_Login.
  destruct (CHECKSESSION d hSession) as [[i se]|]; [|done].
  destruct (se_token se) as [a|]; [|done].
  destruct (tokens d !! a) as [token|] eqn:Ha; [|done].
  destruct pin as [p|].
  - destruct (tok_lacontext token) as [ctx|]; [|done].
    destruct (login_loop ctx p (tok_id_list token)) as [rv evs].
    destruct rv; cbn [snd]; apply driver_inv_log; try done.
    by apply (driver_inv_token_fields d a token).
  - cbn [snd]. by apply (driver_inv_token_fields d a token).
Qed.

Lemma C_Logout_inv d hSession :
  driver_inv d -> driver_inv (C_Logout d hSession).2.
Proof.
  intros Hinv. unfold C_Logout.
  destruct (CHECKSESSION d hSession) as [[i se]|]; [|done].
  destruct (se_token se) as [a|]; [|done].
  destruct (tokens d !! a) as [token|] eqn:Ha; [|done].
  destruct (token_logout token) as [token' evs] eqn:Hl. cbn [snd].
  apply driver_inv_log.
  apply (driver_inv_token_fields d a token); [done|done|].
  unfold token_logout in Hl.
  destruct (tok_lacontext token); by injection Hl as <- <-.
Qed.

(** Every reachable state satisfies the registry invariant. *)
Lemma reachable_inv d : reachable d -> driver_inv d.
Proof.
  induction 1 as
    [ cert_slot
    | d tokenid a lac found _ IH Ha
    | d tokenid _ IH
    | d cert_list _ IH Hst
    | d slot_id flags mem _ IH Hsize
    | d hSession _ IH
    | d slot_id _ IH
    | d hSession usertype pin _ IH
    | d hSession _ IH
    | d hSession i se op rv se' _ IH Hc Hop ].
  - apply driver_inv_init.
  - by apply add_token_id_inv.
  - by apply remove_token_id_inv.
  - apply (driver_inv_same_tokens d); cbn; try done.
    + intros b. destruct (tokens d !! b) as [e|] eqn:Hb; [left|right]; eauto.
    + apply (inv_count d IH).
    + apply (inv_tail d IH).
    + apply (inv_size d IH).
  - by apply C_OpenSession_inv.
  - by apply C_CloseSession_inv.
  - by apply C_CloseAllSessions_inv.
  - by apply C_Login_inv.
  - by apply C_Logout_inv.
  - apply CHECKSESSION_Some in Hc as (Hi & _).
    apply run_op_frame in Hop as (Ht & _).
    by apply (driver_inv_session_update d i se).
Qed.
End RegistryInvariant.

Lemma slot_entry_free_released d a lg entry :
  tokens d !! a = Some entry ->
  1 <= tok_refcount entry <= UINT_MODULUS ->
  released d a (slot_entry_free a lg d).
Proof.
  intros Ha Hr. unfold released, slot_entry_free. rewrite Ha. cbn zeta.
  assert (Hmod : (tok_refcount entry - 1) mod UINT_MODULUS
                 = tok_refcount entry - 1).
  { apply Z.mod_small. unfold UINT_MODULUS in *. lia. }
  rewrite Hmod.
  destruct (tok_refcount entry =? 1) eqn:E1; Zbool.
  - destruct (tok_refcount entry - 1 >? 0) eqn:E; Zbool; [lia|].
    cbn. by rewrite lookup_delete_eq.
  - rewrite (proj2 (Z.gtb_lt _ _)) by lia.
    destruct (tok_refcount entry - 1 =? 1) eqn:E; Zbool.
    + unfold token_logout. cbn [tok_lacontext set_refcount].
      destruct (tok_lacontext entry) eqn:El; cbn; rewrite lookup_insert_eq;
        eexists; split_and!; try done; intros; try lia;
        cbn; by rewrite ?El, ?app_nil_r.
    + cbn. rewrite lookup_insert_eq. eexists.
      split_and!; try done; intros; lia.
Qed.

Lemma released_frame d a d1 d2 :
  tokens d2 = tokens d1 -> la_trace d2 = la_trace d1 ->
  released d a d1 -> released d a d2.
Proof. unfold released. by intros -> ->. Qed.

Section RefcountClaim.
Context `{Platform}.

Lemma C_CloseSession_released d hSession i se a :
  driver_inv d -> CHECKSESSION d hSession = Some (i, se) ->
  se_token se = Some a ->
  (C_CloseSession d hSession).1 = CKR_OK
  /\ released d a (C_CloseSession d hSession).2
  /\ sess_list (C_CloseSession d hSession).2 !! i = Some None.
Proof.
  intros Hinv Hc Ht. unfold C_CloseSession. rewrite Hc. cbn [fst snd].
  apply CHECKSESSION_Some in Hc as (Hi & _).
  destruct (driver_inv_session_live d i se a Hinv Hi Ht)
    as (entry & Ha & _ & Hr).
  unfold sess_free. rewrite Ht. split_and!; [done| |].
  - eapply released_frame; [| |apply (slot_entry_free_released d a true entry);
                                [done|lia]]; done.
  - cbn. destruct (slot_entry_free_frame a true d) as (_ & -> & _).
    apply list_lookup_insert_eq. by eapply lookup_lt_Some.
Qed.

Lemma remove_token_id_released d tokenid i a :
  driver_inv d ->
  find_token_slot (tokens d) tokenid (slot_list d) 0 = Some (i, a) ->
  released d a (remove_token_id d tokenid)
  /\ slot_list (remove_token_id d tokenid) !! i = Some None.
Proof.
  intros Hinv Hf. unfold remove_token_id. rewrite Hf.
  apply find_token_slot_Some in Hf as (_ & Hi & _).
  rewrite Nat.sub_0_r in Hi.
  destruct (driver_inv_slot_live d i a Hinv Hi) as (entry & Ha & _ & _ & Hr).
  split.
  - eapply released_frame; [| |apply (slot_entry_free_released d a false entry);
                                [done|lia]]; done.
  - cbn. destruct (slot_entry_free_frame a false d) as (-> & _).
    apply list_lookup_insert_eq. by eapply lookup_lt_Some.
Qed.

Lemma add_token_id_created d tokenid a lac id0 ids :
  driver_inv d -> tokens d !! a = None ->
  let d' := add_token_id d tokenid a lac (Some (id0 :: ids)) in
  exists entry i,
    tokens d' !! a = Some entry /\ tok_refcount entry = 1
    /\ slot_list d' !! i = Some (Some a) /\ open_sessions d' a = 0%nat.
Proof.
  intros Hinv Ha. cbn zeta. unfold add_token_id. eexists.
  destruct (find_free_slot (slot_list d) 0) as [i|] eqn:Hf.
  - exists i. apply find_free_slot_Some in Hf as [_ Hi].
    rewrite Nat.sub_0_r in Hi. cbn. rewrite lookup_insert_eq.
    split_and!; [done|done| |].
    + apply list_lookup_insert_eq. by eapply lookup_lt_Some.
    + apply (inv_freed d Hinv a Ha).
  - exists (length (slot_list d)). cbn. rewrite lookup_insert_eq.
    split_and!; [done|done| |].
    + rewrite lookup_app_r by lia. by rewrite Nat.sub_diag.
    + apply (inv_freed d Hinv a Ha).
Qed.

Lemma C_OpenSession_incremented d slot_id flags mem d' handle a entry :
  driver_inv d ->
  Z.of_nat (length (sess_list d)) + 5 < UINT_MODULUS ->
  slot_id <> CERTIFICATE_SLOT ->
  slot_list d !! Z.to_nat slot_id = Some (Some a) ->
  tokens d !! a = Some entry ->
  C_OpenSession d slot_id flags mem = (CKR_OK, d', Some handle) ->
  exists entry',
    tokens d' !! a = Some entry'
    /\ tok_refcount entry' = tok_refcount entry + 1
    /\ exists i se, CHECKSESSION d' handle = Some (i, se)
                    /\ se_token se = Some a.
Proof.
  intros Hinv Hsize Hne Hslot Ha. unfold C_OpenSession.
  destruct (CHECKSLOT d slot_id true); [done|].
  destruct (Z.land flags CKF_SERIAL_SESSION =? 0); [done|].
  rewrite (proj2 (Z.eqb_neq _ _) Hne), Hslot, Ha.
  destruct (driver_inv_slot_live d _ a Hinv Hslot)
    as (entry0 & Hentry & _ & Hrc & _).
  assert (entry0 = entry) as -> by congruence.
  assert (Hmod : (tok_refcount entry + 1) mod UINT_MODULUS
                 = tok_refcount entry + 1).
  { apply Z.mod_small.
    pose proof (count_if_le_length (session_on a) (sess_list d)).
    unfold open_sessions in Hrc. lia. }
  rewrite Hmod. cbn [sess_list sess_list_count set_tokens].
  match goal with
  | |- context [sess_list_add _ _ ?s] =>
      destruct (sess_list_add_spec (sess_list d) (sess_list_count d) s
                  (inv_count d Hinv) (inv_tail d Hinv))
        as (i & l' & count' & -> & Hi & Hlt & _ & _ & Hlen & _)
  end.
  pose proof (lookup_lt_Some _ _ _ Hi) as Hil.
  intros [= <- <-]. eexists. cbn. rewrite lookup_insert_eq.
  split_and!; [done|done|]. eexists i, _.
  unfold CHECKSESSION. cbn [sess_list sess_list_count set_sess_list].
  rewrite handle_index_succ by (unfold UINT_MODULUS in *; lia).
  assert (Hge : (Z.of_nat i >=? count') = false).
  { rewrite Z.geb_leb. apply Z.leb_gt. lia. }
  rewrite Hge, Nat2Z.id, Hi. done.
Qed.
End RefcountClaim.

Lemma sess_free_frame se d :
  slot_list (sess_free se d) = slot_list d
  /\ sess_list (sess_free se d) = sess_list d
  /\ sess_list_count (sess_free se d) = sess_list_count d.
Proof.
  unfold sess_free. destruct (se_token se) as [a|]; [|done].
  by destruct (slot_entry_free_frame a true d) as (? & ? & ? & _).
Qed.

Lemma close_if_on_slot_frame slot_id d i :
  slot_list (close_if_on_slot slot_id d i) = slot_list d
  /\ sess_list_count (close_if_on_slot slot_id d i) = sess_list_count d
  /\ sess_list (close_if_on_slot slot_id d i)
     = match sess_list d !! i with
       | Some s => <[i := closed_on slot_id s]> (sess_list d)
       | None => sess_list d
       end.
Proof.
  unfold close_if_on_slot.
  destruct (sess_list d !! i) as [[se|]|] eqn:Hi;
    cbn [closed_on]; try done.
  - destruct (se_slot_id se =? slot_id).
    + destruct (sess_free_frame se d) as (Hs & Hl & Hc).
      cbn [slot_list sess_list sess_list_count set_sess_list].
      by rewrite Hs, Hl, Hc.
    + split_and!; try done. by rewrite list_insert_id.
  - split_and!; try done. by rewrite list_insert_id.
Qed.

Lemma close_loop_spec slot_id m k d :
  let d' := fold_left (close_if_on_slot slot_id) (seq k m) d in
  slot_list d' = slot_list d
  /\ sess_list_count d' = sess_list_count d
  /\ forall j,
       sess_list d' !! j
       = if bool_decide (k <= j < k + m)%nat
         then closed_on slot_id <$> sess_list d !! j
         else sess_list d !! j.
Proof.
  revert k d. induction m as [|m IH]; intros k d; cbn zeta.
  - cbn. split_and!; try done. intros j.
    rewrite bool_decide_eq_false_2 by lia. done.
  - cbn [seq fold_left].
    destruct (IH (S k) (close_if_on_slot slot_id d k)) as (Hs & Hc & Hl).
    destruct (close_if_on_slot_frame slot_id d k) as (Hs1 & Hc1 & Hl1).
    rewrite Hs, Hc. split_and!; try done. intros j. rewrite Hl, Hl1.
    destruct (decide (j = k)) as [->|Hne].
    + rewrite bool_decide_eq_false_2 by lia.
      rewrite bool_decide_eq_true_2 by lia.
      destruct (sess_list d !! k) as [s|] eqn:Hk; [|by rewrite Hk].
      rewrite list_lookup_insert_eq by (by eapply lookup_lt_Some). done.
    + assert (Hj : match sess_list d !! k with
                   | Some s => <[k := closed_on slot_id s]> (sess_list d)
                   | None => sess_list d
                   end !! j = sess_list d !! j).
      { destruct (sess_list d !! k); [|done].
        by rewrite list_lookup_insert_ne. }
      rewrite Hj.
      destruct (bool_decide (S k <= j < S k + m)%nat) eqn:E1,
               (bool_decide (k <= j < k + S m)%nat) eqn:E2; try done.
      * apply bool_decide_eq_true in E1.
        apply bool_decide_eq_false in E2. lia.
      * apply bool_decide_eq_false in E1.
        apply bool_decide_eq_true in E2. lia.
Qed.


Lemma find_token_slot_complete m tokenid l k i a entry :
  l !! i = Some (Some a) -> m !! a = Some entry ->
  tok_tokenid entry = tokenid ->
  (forall j b eb, (j < i)%nat -> l !! j = Some (Some b) ->
     m !! b = Some eb -> tok_tokenid eb <> tokenid) ->
  find_token_slot m tokenid l k = Some ((k + i)%nat, a).
Proof.
  revert k i. induction l as [|c rest IH]; intros k i; [done|].
  destruct i as [|i]; cbn.
  - intros [= ->] -> <- _. rewrite Z.eqb_refl, Nat.add_0_r. done.
  - intros Hi Ha Hid Hfirst.
    assert (Hrec : find_token_slot m tokenid rest (S k)
                   = Some ((k + S i)%nat, a)).
    { replace (k + S i)%nat with (S k + i)%nat by lia.
      apply (IH (S k) i Hi Ha Hid).
      intros j b eb Hj. apply (Hfirst (S j) b eb). lia. }
    destruct c as [b|]; [|done].
    destruct (m !! b) as [eb|] eqn:Hb; [|done].
    destruct (tokenid =? tok_tokenid eb) eqn:E; [|done].
    apply Z.eqb_eq in E.
    by destruct (Hfirst 0%nat b eb ltac:(lia) eq_refl Hb).
Qed.

Lemma count_if_closed_on a slot_id l :
  (count_if (session_on a) (closed_on slot_id <$> l)
   <= count_if (session_on a) l)%nat.
Proof.
  induction l as [|s l IH]; cbn; [done|].
  destruct s as [se|]; cbn; [|lia].
  destruct (se_slot_id se =? slot_id); cbn; [|lia].
  destruct (bool_decide (se_token se = Some a)); lia.
Qed.

Lemma C_CloseAllSessions_sessions d slot_id :
  driver_inv d -> CHECKSLOT d slot_id true = None ->
  slot_list (C_CloseAllSessions d slot_id).2 = slot_list d
  /\ sess_list (C_CloseAllSessions d slot_id).2
     = closed_on slot_id <$> sess_list d.
Proof.
  intros Hinv Hc. unfold C_CloseAllSessions. rewrite Hc. cbn [snd].
  destruct (close_loop_spec slot_id (Z.to_nat (sess_list_count d)) 0 d)
    as (Hs & _ & Hl). cbn zeta in *.
  split; [done|]. apply list_eq. intros j.
  rewrite Hl, list_lookup_fmap.
  destruct (bool_decide (0 <= j < 0 + Z.to_nat (sess_list_count d))%nat)
    eqn:E; [done|].
  apply bool_decide_eq_false in E.
  destruct (sess_list d !! j) as [s|] eqn:Hj; [|done].
  pose proof (inv_count d Hinv).
  rewrite (inv_tail d Hinv j s) by (done || lia). done.
Qed.

Lemma C_CloseAllSessions_released d slot_id a entry :
  driver_inv d -> CHECKSLOT d slot_id true = None ->
  tokens d !! a = Some entry ->
  let d' := (C_CloseAllSessions d slot_id).2 in
  slot_list d' = slot_list d
  /\ sess_list d' = closed_on slot_id <$> sess_list d
  /\ (open_sessions d' a <= open_sessions d a)%nat
  /\ match tokens d' !! a with
     | Some entry' =>
         0 < tok_refcount entry'
         /\ tok_refcount entry'
            = tok_refcount entry
              - (Z.of_nat (open_sessions d a)
                 - Z.of_nat (open_sessions d' a))
     | None =>
         tok_refcount entry
         = Z.of_nat (open_sessions d a) - Z.of_nat (open_sessions d' a)
     end.
Proof.
  intros Hinv Hc Ha d'.
  destruct (C_CloseAllSessions_sessions d slot_id Hinv Hc) as [Hs Hl].
  pose proof (C_CloseAllSessions_inv d slot_id Hinv) as Hinv'.
  fold d' in Hs, Hl, Hinv'.
  destruct (inv_refcount d Hinv a entry Ha) as [Hr _].
  assert (Hsl : slots_holding d' a = slots_holding d a).
  { unfold slots_holding. by rewrite Hs. }
  split_and!; try done.
  - unfold open_sessions. rewrite Hl. apply count_if_closed_on.
  - destruct (tokens d' !! a) as [entry'|] eqn:Ha'.
    + destruct (inv_refcount d' Hinv' a entry' Ha') as [Hr' Hp']. lia.
    + destruct (inv_freed d' Hinv' a Ha') as [H0 H1]. lia.
Qed.

Section RefcountTheorem.
Context `{Platform}.

(** C4. In every reachable state a live token's reference count is the
    number of slots that hold it (at most one) plus the number of open
    sessions bound to it, hence 1 plus the number of those sessions
    while its slot holds it; the count of a live token is positive and
    no slot or session refers to a freed one. A token is created with
    count 1 in a slot and without sessions; a successful
    [C_OpenSession] on its slot adds 1 and binds the new session to it;
    [C_CloseSession] on a session bound to it drops one reference:
    the entry is freed exactly when the count was 1, and otherwise the
    count is one less, with a logout of the token when it goes from 2
    to 1. [C_CloseAllSessions] on a slot closes the sessions of that
    slot and no other, and takes from the count of each token the
    number of its sessions that were closed; the token is freed
    exactly when that number was its whole count. The removal of a
    token identifier takes the first slot whose token has that
    identifier: it drops one reference of that token, in the same way
    as closing a session does, and empties that slot and no other;
    when no slot holds a token with that identifier the removal
    changes nothing. *)
Theorem C4_token_refcount (d : driver) :
  reachable d ->
  (forall a entry,
      tokens d !! a = Some entry ->
      0 < tok_refcount entry
      /\ tok_refcount entry
         = Z.of_nat (slots_holding d a) + Z.of_nat (open_sessions d a)
      /\ (slots_holding d a <= 1)%nat
      /\ (forall i, slot_list d !! i = Some (Some a) ->
            tok_refcount entry = 1 + Z.of_nat (open_sessions d a)))
  /\ (forall a,
        tokens d !! a = None ->
        (forall i, slot_list d !! i <> Some (Some a))
        /\ (forall i se, sess_list d !! i = Some (Some se) ->
              se_token se <> Some a))
  /\ (forall tokenid a lac id0 ids,
        tokens d !! a = None ->
        let d' := add_token_id d tokenid a lac (Some (id0 :: ids)) in
        exists entry i,
          tokens d' !! a = Some entry /\ tok_refcount entry = 1
          /\ slot_list d' !! i = Some (Some a)
          /\ open_sessions d' a = 0%nat)
  /\ (forall slot_id flags mem d' handle a entry,
        Z.of_nat (length (sess_list d)) + 5 < UINT_MODULUS ->
        slot_id <> CERTIFICATE_SLOT ->
        slot_list d !! Z.to_nat slot_id = Some (Some a) ->
        tokens d !! a = Some entry ->
        C_OpenSession d slot_id flags mem = (CKR_OK, d', Some handle) ->
        exists entry',
          tokens d' !! a = Some entry'
          /\ tok_refcount entry' = tok_refcount entry + 1
          /\ exists i se, CHECKSESSION d' handle = Some (i, se)
                          /\ se_token se = Some a)
  /\ (forall hSession i se a,
        CHECKSESSION d hSession = Some (i, se) -> se_token se = Some a ->
        (C_CloseSession d hSession).1 = CKR_OK
        /\ released d a (C_CloseSession d hSession).2
        /\ sess_list (C_CloseSession d hSession).2 !! i = Some None)
  /\ (forall slot_id a entry,
        CHECKSLOT d slot_id true = None ->
        tokens d !! a = Some entry ->
        let d' := (C_CloseAllSessions d slot_id).2 in
        slot_list d' = slot_list d
        /\ sess_list d' = closed_on slot_id <$> sess_list d
        /\ (open_sessions d' a <= open_sessions d a)%nat
        /\ match tokens d' !! a with
           | Some entry' =>
               0 < tok_refcount entry'
               /\ tok_refcount entry'
                  = tok_refcount entry
                    - (Z.of_nat (open_sessions d a)
                       - Z.of_nat (open_sessions d' a))
           | None =>
               tok_refcount entry
               = Z.of_nat (open_sessions d a)
                 - Z.of_nat (open_sessions d' a)
           end)
  /\ (forall tokenid (i : nat) a entry,
        slot_list d !! i = Some (Some a) ->
        tokens d !! a = Some entry ->
        tok_tokenid entry = tokenid ->
        (forall (j : nat) b eb,
            (j < i)%nat -> slot_list d !! j = Some (Some b) ->
            tokens d !! b = Some eb -> tok_tokenid eb <> tokenid) ->
        released d a (remove_token_id d tokenid)
        /\ slot_list (remove_token_id d tokenid) !! i = Some None
        /\ (forall j, j <> i ->
              slot_list (remove_token_id d tokenid) !! j
              = slot_list d !! j))
  /\ (forall tokenid,
        (forall (i : nat) a entry,
            slot_list d !! i = Some (Some a) ->
            tokens d !! a = Some entry ->
            tok_tokenid entry <> tokenid) ->
        remove_token_id d tokenid = d).
Proof.
  intros Hreach. pose proof (reachable_inv d Hreach) as Hinv.
  split_and!.
  - intros a entry Ha.
    destruct (inv_refcount d Hinv a entry Ha) as [Hr Hp].
    split_and!; [done|done|apply (inv_one_slot d Hinv)|].
    intros i Hi.
    destruct (driver_inv_slot_live d i a Hinv Hi) as (e & He & _ & Hrc & _).
    congruence.
  - intros a Ha. destruct (inv_freed d Hinv a Ha) as [Hs Ho]. split.
    + intros i Hi.
      pose proof (count_if_pos (slot_holds a) _ i _ Hi) as Hpos.
      rewrite slot_holds_Some in Hpos.
      specialize (Hpos (bool_decide_eq_true_2 _ eq_refl)).
      unfold slots_holding in Hs. lia.
    + intros i se Hi Ht.
      pose proof (count_if_pos (session_on a) _ i _ Hi) as Hpos.
      rewrite session_on_token in Hpos.
      specialize (Hpos (bool_decide_eq_true_2 _ Ht)).
      unfold open_sessions in Ho. lia.
  - intros. by apply add_token_id_created.
  - intros. by eapply C_OpenSession_incremented.
  - intros. by eapply C_CloseSession_released.
  - intros slot_id a entry Hc Ha.
    by apply C_CloseAllSessions_released.
  - intros tokenid i a entry Hi Ha Hid Hfirst.
    pose proof (find_token_slot_complete (tokens d) tokenid (slot_list d)
                  0 i a entry Hi Ha Hid Hfirst) as Hf.
    rewrite Nat.add_0_l in Hf.
    destruct (remove_token_id_released d tokenid i a Hinv Hf) as [Hr Hn].
    split_and!; try done.
    intros j Hj. unfold remove_token_id. rewrite Hf. cbn.
    destruct (slot_entry_free_frame a false d) as (-> & _).
    by rewrite list_lookup_insert_ne.
  - intros tokenid Hnone. unfold remove_token_id.
    destruct (find_token_slot (tokens d) tokenid (slot_list d) 0)
      as [[i a]|] eqn:Hf; [|done].
    apply find_token_slot_Some in Hf as (_ & Hi & entry & Ha & Hid).
    by destruct (Hnone _ _ _ Hi Ha).
Qed.
End RefcountTheorem.

Section Login.
Context `{Platform}.

Lemma C_Login_sets_flag d hSession usertype pin b tb tb' :
  tokens d !! b = Some tb ->
  tokens (C_Login d hSession usertype pin).2 !! b = Some tb' ->
  tok_logged_in tb = false -> tok_logged_in tb' = true ->
  (C_Login d hSession usertype pin).1 = CKR_OK
  /\ (pin = None \/ is_Some (tok_lacontext tb))
  /\ exists i se, CHECKSESSION d hSession = Some (i, se)
                  /\ se_token se = Some b.
Proof.
  intros Hb. unfold C_Login.
  destruct (CHECKSESSION d hSession) as [[i se]|] eqn:Hc;
    [|cbn; congruence].
  destruct (se_token se) as [a|] eqn:Ht; [|cbn; congruence].
  destruct (tokens d !! a) as [token|] eqn:Ha; [|cbn; congruence].
  assert (Hset : forall evs,
    tokens (log_events evs
              (set_tokens (<[a := set_logged_in true token]> (tokens d)) d))
      !! b = Some tb' ->
    tok_logged_in tb = false -> tok_logged_in tb' = true ->
    a = b /\ token = tb).
  { intros evs. cbn. destruct (decide (a = b)) as [->|Hne].
    - intros _ _ _. split; congruence.
    - rewrite lookup_insert_ne by done. congruence. }
  destruct pin as [p|].
  - destruct (tok_lacontext token) as [ctx|] eqn:Hctx; [|cbn; congruence].
    destruct (login_loop ctx p (tok_id_list token)) as [rv evs].
    destruct rv; cbn [fst snd]; try (cbn; congruence).
    intros H1 H2 H3. destruct (Hset evs H1 H2 H3) as [-> ->].
    split_and!; [done|right; by rewrite Hctx|by eexists _, _].
  - cbn [fst snd]. intros H1 H2 H3.
    destruct (Hset [] ltac:(cbn; exact H1) H2 H3) as [-> ->].
    split_and!; [done|by left|by eexists _, _].
Qed.

(** C9. On a session bound to a hardware token that has no
    local-authentication context, [C_Login] with a non-null PIN returns
    [CKR_OK] and leaves the whole driver state as it was: the
    authentication primitive is not called (the trace of calls into
    [localauth.m] is the same) and the logged-in flag is not set, so
    [C_GetSessionInfo] answers as before, with the public-session state
    when the token was not logged in. No [C_Login] turns a token's
    logged-in flag on unless it returns [CKR_OK] for a session bound to
    that token and either the PIN is null or the token has a context. *)
Theorem C9_Login_without_context (d : driver) (hSession usertype : Z)
    (i : nat) (se : session) (a : addr) (token : slot_entry)
    (pin : list byte) :
  CHECKSESSION d hSession = Some (i, se) ->
  se_token se = Some a ->
  tokens d !! a = Some token ->
  tok_lacontext token = None ->
  C_Login d hSession usertype (Some pin) = (CKR_OK, d)
  /\ la_trace (C_Login d hSession usertype (Some pin)).2 = la_trace d
  /\ tokens (C_Login d hSession usertype (Some pin)).2 !! a = Some token
  /\ C_GetSessionInfo (C_Login d hSession usertype (Some pin)).2
                      hSession true
     = C_GetSessionInfo d hSession true
  /\ (tok_logged_in token = false ->
      C_GetSessionInfo (C_Login d hSession usertype (Some pin)).2
                       hSession true
      = (CKR_OK,
         Some {| slotID := se_slot_id se;
                 info_state := CKS_RO_PUBLIC_SESSION;
                 info_flags := CKF_SERIAL_SESSION;
                 ulDeviceError := 0 |}))
  /\ (forall hSession' usertype' pin' b tb tb',
        tokens d !! b = Some tb ->
        tokens (C_Login d hSession' usertype' pin').2 !! b = Some tb' ->
        tok_logged_in tb = false -> tok_logged_in tb' = true ->
        (C_Login d hSession' usertype' pin').1 = CKR_OK
        /\ (pin' = None \/ is_Some (tok_lacontext tb))
        /\ exists i' se', CHECKSESSION d hSession' = Some (i', se')
                          /\ se_token se' = Some b).
Proof.
  intros Hc Ht Ha Hctx.
  assert (Hlogin : C_Login d hSession usertype (Some pin) = (CKR_OK, d)).
  { unfold C_Login. by rewrite Hc, Ht, Ha, Hctx. }
  rewrite Hlogin. cbn [snd]. split_and!; try done.
  - intros Hout. unfold C_GetSessionInfo. rewrite Hc, Ht, Ha, Hout. done.
  - intros. by eapply C_Login_sets_flag.
Qed.
End Login.

Section OperationState.
Context `{Platform}.

Lemma C_SignFinal_cases se sig siglen :
  se_state se = S_UPDATE ->
  let r := C_SignFinal se sig siglen in
  (cr_session r = se
   /\ (sig = None \/ cr_rv r = CKR_BUFFER_TOO_SMALL))
  \/ (se_state (cr_session r) = NO_PENDING /\ sig <> None
      /\ (cr_rv r = CKR_OK \/ cr_rv r = CKR_FUNCTION_FAILED))
  \/ (se_state (cr_session r) = S_UPDATE /\ sig <> None
      /\ cr_rv r = CKR_FUNCTION_FAILED).
Proof.
  intros Hst. unfold C_SignFinal. rewrite Hst.
  rewrite bool_decide_eq_true_2 by done. cbn [negb].
  repeat case_match; cbn; naive_solver.
Qed.

Lemma C_SignFinal_unchanged se sig siglen :
  sig = None \/ cr_rv (C_SignFinal se sig siglen) = CKR_BUFFER_TOO_SMALL ->
  cr_session (C_SignFinal se sig siglen) = se.
Proof.
  unfold C_SignFinal. repeat case_match; cbn; naive_solver.
Qed.

Lemma C_SignFinal_done se buf siglen :
  cr_rv (C_SignFinal se (Some buf) siglen) = CKR_OK ->
  se_state (cr_session (C_SignFinal se (Some buf) siglen)) = NO_PENDING.
Proof.
  unfold C_SignFinal. repeat case_match; cbn; naive_solver.
Qed.

Lemma multipart_update_state init update se indata :
  init <> NO_PENDING -> update <> NO_PENDING ->
  se_state se <> NO_PENDING ->
  se_state (multipart_update init update se indata).2 = NO_PENDING ->
  se_state se = init
  /\ (multipart_update init update se indata).1 = CKR_GENERAL_ERROR.
Proof.
  intros Hi Hu Hs. unfold multipart_update.
  repeat case_match; cbn; Zbool; naive_solver.
Qed.

Lemma single_shot_state prim se indata outdata len :
  se_state se <> NO_PENDING ->
  se_state (cr_session (single_shot prim se indata outdata len))
  = NO_PENDING ->
  cr_rv (single_shot prim se indata outdata len) = CKR_OK
  \/ cr_rv (single_shot prim se indata outdata len) = CKR_GENERAL_ERROR.
Proof.
  intros Hs. unfold single_shot. repeat case_match; cbn; naive_solver.
Qed.

(** No entry point turns a state other than [NO_PENDING] into
    [NO_PENDING] except a single-shot, update or final call of the
    operation in progress that has passed its state test. *)
Lemma run_op_ends op se rv se' :
  run_op op se = Some (rv, se') ->
  se_state se <> NO_PENDING -> se_state se' = NO_PENDING ->
  ends_operation op (se_state se)
  /\ rv <> CKR_OPERATION_NOT_INITIALIZED /\ rv <> CKR_BUFFER_TOO_SMALL
  /\ rv <> CKR_OPERATION_ACTIVE.
Proof.
  destruct op; cbn [run_op]; intros Hrun Hs Hs'.
  - injection Hrun as <- <-. done.
  - destruct (C_FindObjectsInit_frame _ _ _ _ Hrun) as (_ & _ & Hse).
    rewrite Hse in Hs'. cbn in Hs'. congruence.
  - exfalso.
    destruct (C_FindObjects se object maxcount) as [[[rv0 se0] found]|]
      eqn:Hf; [|done].
    injection Hrun as <- <-.
    destruct (C_FindObjects_frame _ _ _ _ _ _ Hf) as [->|[idx ->]];
      cbn in Hs'; congruence.
  - injection Hrun as <- <-. done.
  - exfalso. injection Hrun as Hrun.
    destruct (C_EncryptInit se mech object) as [rv0 se0] eqn:E.
    injection Hrun as <- <-.
    apply C_EncryptInit_inv in E as [[_ ->]|(_ & m & _ & Hok)]; [done|].
    destruct Hok as (? & ? & ? & ? & _ & ? & _). done.
  - injection Hrun as <- <-. revert Hs'. unfold C_Encrypt.
    destruct (bool_decide (se_state se = E_INIT)) eqn:E; Zbool;
      cbn [negb cr_session cr_rv]; [|done].
    intros Hs'. rewrite E. cbn.
    destruct (single_shot_state _ _ _ _ _ Hs Hs') as [-> | ->]; done.
  - exfalso. injection Hrun as Hrun.
    destruct (C_DecryptInit se mech key) as [rv0 se0] eqn:E.
    injection Hrun as <- <-.
    apply C_DecryptInit_inv in E as [[_ ->]|(_ & m & _ & Hok)]; [done|].
    destruct Hok as (? & ? & ? & ? & _ & ? & _). done.
  - injection Hrun as <- <-. revert Hs'. unfold C_Decrypt.
    destruct (bool_decide (se_state se = D_INIT)) eqn:E; Zbool;
      cbn [negb cr_session cr_rv]; [|done].
    intros Hs'. rewrite E. cbn.
    destruct (single_shot_state _ _ _ _ _ Hs Hs') as [-> | ->]; done.
  - exfalso. injection Hrun as Hrun.
    destruct (C_SignInit se mech object) as [rv0 se0] eqn:E.
    injection Hrun as <- <-.
    apply C_SignInit_inv in E as [[_ ->]|(_ & Hok)]; [done|].
    destruct Hok as (? & ? & ? & ? & _ & ? & _). done.
  - injection Hrun as <- <-. revert Hs'. unfold C_Sign.
    destruct (bool_decide (se_state se = S_INIT)) eqn:E; Zbool;
      cbn [negb cr_session cr_rv]; [|done].
    intros Hs'. rewrite E. cbn.
    destruct (single_shot_state _ _ _ _ _ Hs Hs') as [-> | ->]; done.
  - injection Hrun as Hrun. unfold C_SignUpdate in Hrun.
    destruct (multipart_update_state S_INIT S_UPDATE se indata) as [-> Hrv];
      [done|done|done|by rewrite Hrun|].
    rewrite Hrun in Hrv. cbn in Hrv. by subst rv.
  - injection Hrun as <- <-.
    destruct (decide (se_state se = S_UPDATE)) as [Hst|Hst].
    + rewrite Hst. cbn.
      destruct (C_SignFinal_cases se sig siglen Hst)
        as [[Hse _]|[(_ & _ & [-> | ->])|(Hse & _)]];
        [congruence|done|done|congruence].
    + exfalso. revert Hs'. unfold C_SignFinal.
      rewrite bool_decide_eq_false_2 by done. done.
  - exfalso. injection Hrun as Hrun.
    destruct (C_VerifyInit se mech key) as [rv0 se0] eqn:E.
    injection Hrun as <- <-.
    apply C_VerifyInit_inv in E as [[_ ->]|(_ & Hok)]; [done|].
    destruct Hok as (? & ? & ? & ? & _ & ? & _). done.
  - injection Hrun as Hrun. revert Hrun. unfold C_Verify.
    destruct (bool_decide (se_state se = V_INIT)) eqn:E; Zbool;
      cbn [negb]; [|intros [= <- <-]; done].
    rewrite E. intros [= <- <-]. cbn. by case_match.
  - injection Hrun as Hrun. unfold C_VerifyUpdate in Hrun.
    destruct (multipart_update_state V_INIT V_UPDATE se indata) as [-> Hrv];
      [done|done|done|by rewrite Hrun|].
    rewrite Hrun in Hrv. cbn in Hrv. by subst rv.
  - injection Hrun as Hrun. revert Hrun. unfold C_VerifyFinal.
    destruct (bool_decide (se_state se = V_UPDATE)) eqn:E; Zbool;
      cbn [negb]; [|intros [= <- <-]; done].
    intros [= <- <-]. cbn in Hs'. congruence.
Qed.
End OperationState.

Section OperationStateClaim.
Context `{Platform}.

(** C1, as amended. The operation state is [NO_PENDING] right after a
    successful [C_OpenSession]; after a [C_Encrypt], [C_Decrypt] or
    [C_Sign] that returns [CKR_OK] for a non-null output buffer; after
    every [C_Verify] that passes its state test; and after a
    [C_SignFinal] that returns [CKR_OK] for a non-null signature buffer.
    A call of [C_Encrypt], [C_Decrypt], [C_Sign] or [C_SignFinal] with a
    null output pointer, or one that returns [CKR_BUFFER_TOO_SMALL],
    leaves the session as it was. A successful [*-init] puts the session
    into the corresponding init state, and from then on no call on the
    session makes the state [NO_PENDING] except a single-shot, update or
    final call of the operation in progress that passes its state
    test. *)
Theorem C1_operation_state :
  (forall d slot_id flags mem d' handle,
      reachable d ->
      Z.of_nat (length (sess_list d)) + 5 < UINT_MODULUS ->
      C_OpenSession d slot_id flags mem = (CKR_OK, d', Some handle) ->
      exists i se, CHECKSESSION d' handle = Some (i, se)
                   /\ se_state se = NO_PENDING)
  /\ (forall se indata buf len,
        (cr_rv (C_Encrypt se indata (Some buf) len) = CKR_OK ->
         se_state (cr_session (C_Encrypt se indata (Some buf) len))
         = NO_PENDING)
        /\ (cr_rv (C_Decrypt se indata (Some buf) len) = CKR_OK ->
            se_state (cr_session (C_Decrypt se indata (Some buf) len))
            = NO_PENDING)
        /\ (cr_rv (C_Sign se indata (Some buf) len) = CKR_OK ->
            se_state (cr_session (C_Sign se indata (Some buf) len))
            = NO_PENDING)
        /\ (cr_rv (C_SignFinal se (Some buf) len) = CKR_OK ->
            se_state (cr_session (C_SignFinal se (Some buf) len))
            = NO_PENDING))
  /\ (forall se indata sig,
        se_state se = V_INIT ->
        se_state (C_Verify se indata sig).2 = NO_PENDING)
  /\ (forall se indata out len,
        (out = None
         \/ cr_rv (C_Encrypt se indata out len) = CKR_BUFFER_TOO_SMALL ->
         cr_session (C_Encrypt se indata out len) = se)
        /\ (out = None
            \/ cr_rv (C_Decrypt se indata out len) = CKR_BUFFER_TOO_SMALL ->
            cr_session (C_Decrypt se indata out len) = se)
        /\ (out = None
            \/ cr_rv (C_Sign se indata out len) = CKR_BUFFER_TOO_SMALL ->
            cr_session (C_Sign se indata out len) = se)
        /\ (out = None
            \/ cr_rv (C_SignFinal se out len) = CKR_BUFFER_TOO_SMALL ->
            cr_session (C_SignFinal se out len) = se))
  /\ (forall se mech mptr handle,
        ((C_EncryptInit se mech handle).1 = CKR_OK ->
         se_state (C_EncryptInit se mech handle).2 = E_INIT)
        /\ ((C_DecryptInit se mech handle).1 = CKR_OK ->
            se_state (C_DecryptInit se mech handle).2 = D_INIT)
        /\ ((C_SignInit se mptr handle).1 = CKR_OK ->
            se_state (C_SignInit se mptr handle).2 = S_INIT)
        /\ ((C_VerifyInit se mptr handle).1 = CKR_OK ->
            se_state (C_VerifyInit se mptr handle).2 = V_INIT))
  /\ (forall op se rv se',
        run_op op se = Some (rv, se') ->
        se_state se <> NO_PENDING -> se_state se' = NO_PENDING ->
        ends_operation op (se_state se)
        /\ rv <> CKR_OPERATION_NOT_INITIALIZED
        /\ rv <> CKR_BUFFER_TOO_SMALL /\ rv <> CKR_OPERATION_ACTIVE).
Proof.
  split_and!.
  - intros d slot_id flags mem d' handle Hr Hsize Hopen.
    destruct (C_OpenSession_inv d slot_id flags mem (reachable_inv d Hr)
                Hsize) as [_ Hh].
    destruct (Hh d' handle Hopen) as (i & se & Hc & Hs & _).
    by exists i, se.
  - intros se indata buf len.
    unfold C_Encrypt, C_Decrypt, C_Sign.
    split_and!; try (case_match; [done|apply single_shot_done]).
    apply C_SignFinal_done.
  - intros se indata sig Hst. unfold C_Verify. rewrite Hst.
    by rewrite bool_decide_eq_true_2.
  - intros se indata out len. unfold C_Encrypt, C_Decrypt, C_Sign.
    split_and!; try (case_match; [done|apply single_shot_unchanged]).
    apply C_SignFinal_unchanged.
  - intros se mech mptr handle. split_and!; intros Hok.
    + destruct (C_EncryptInit se mech handle) as [rv se'] eqn:E.
      apply C_EncryptInit_inv in E as [[? _]|(_ & m & _ & Hi)]; [done|].
      by destruct Hi as (? & ? & ? & ? & _ & _ & _ & _ & _ & _ & _ & ? & _).
    + destruct (C_DecryptInit se mech handle) as [rv se'] eqn:E.
      apply C_DecryptInit_inv in E as [[? _]|(_ & m & _ & Hi)]; [done|].
      by destruct Hi as (? & ? & ? & ? & _ & _ & _ & _ & _ & _ & _ & ? & _).
    + destruct (C_SignInit se mptr handle) as [rv se'] eqn:E.
      apply C_SignInit_inv in E as [[? _]|(_ & Hi)]; [done|].
      by destruct Hi as (? & ? & ? & ? & _ & _ & _ & _ & _ & _ & _ & ? & _).
    + destruct (C_VerifyInit se mptr handle) as [rv se'] eqn:E.
      apply C_VerifyInit_inv in E as [[? _]|(_ & Hi)]; [done|].
      by destruct Hi as (? & ? & ? & ? & _ & _ & _ & _ & _ & _ & _ & ? & _).
  - intros. by eapply run_op_ends.
Qed.

(** The capability test of [C_DecryptInit], [C_SignInit] and
    [C_VerifyInit]: a key without the capability is refused with
    [CKR_KEY_FUNCTION_NOT_PERMITTED] and the session stays as it was. *)
Lemma capability_enforced se mech handle obj idp :
  object_at se handle = Some obj -> se_state se = NO_PENDING ->
  obj_id obj = Some idp ->
  (obj_class obj = CKO_PRIVATE_KEY -> privcandecrypt idp = false ->
   C_DecryptInit se (Some mech) handle
   = (CKR_KEY_FUNCTION_NOT_PERMITTED, se))
  /\ (privcansign idp = false ->
      C_SignInit se mech handle = (CKR_KEY_FUNCTION_NOT_PERMITTED, se))
  /\ (pubcanverify idp = false ->
      C_VerifyInit se mech handle = (CKR_KEY_FUNCTION_NOT_PERMITTED, se)).
Proof.
  intros Ho Hs Hi. unfold C_DecryptInit, C_SignInit, C_VerifyInit.
  rewrite Ho, Hs, Hi. split_and!.
  - by intros -> ->.
  - by intros ->.
  - by intros ->.
Qed.

(** [C_EncryptInit] never reads [pubcanencrypt]: a public key that may
    not encrypt starts an encryption all the same. *)
Lemma C_EncryptInit_ignores_capability se mech handle obj idp mm algs :
  object_at se handle = Some obj -> se_state se = NO_PENDING ->
  obj_class obj = CKO_PUBLIC_KEY -> obj_id obj = Some idp ->
  pubcanencrypt idp = false ->
  mechmap_for mech CKF_ENCRYPT = Some mm ->
  mech_param_validate mech mm = Some algs ->
  (C_EncryptInit se (Some mech) handle).1 = CKR_OK
  /\ se_state (C_EncryptInit se (Some mech) handle).2 = E_INIT
  /\ se_key (C_EncryptInit se (Some mech) handle).2 = Some (id_pubkey idp).
Proof.
  intros Ho Hs Hc Hi _ Hm Hv. unfold C_EncryptInit.
  by rewrite Ho, Hs, Hc, Hi, Hm, Hv.
Qed.
End OperationStateClaim.

(** Past its state test [C_VerifyFinal] assigns neither the state nor the
    key of the session. *)
Lemma C_VerifyFinal_state `{Platform} (se : session) (sig : list byte) :
  se_state se = V_UPDATE ->
  se_state (C_VerifyFinal se sig).2 = V_UPDATE
  /\ se_key (C_VerifyFinal se sig).2 = se_key se.
Proof.
  intros Hs. unfold C_VerifyFinal. rewrite Hs.
  by rewrite bool_decide_eq_true_2.
Qed.

(** C1 as stated fails on a size probe. After a successful [C_SignInit]
    on the private key of [example_session], [C_Sign] with a null
    signature pointer returns [CKR_OK] and the state is still [S_INIT];
    after a successful [C_SignInit] with PSS parameters and a
    [C_SignUpdate], [C_SignFinal] with a null signature pointer passes the
    state test, returns [CKR_OK], and the state is still [S_UPDATE]. *)
Lemma C1_counterexample :
  let se1 := (@C_SignInit example_platform example_session
                example_mechanism 3).2 in
  let se2 := (@C_SignUpdate example_platform
                (@C_SignInit example_platform example_session
                   example_pss 3).2 [Byte.x41]).2 in
  (@C_SignInit example_platform example_session example_mechanism 3).1
  = CKR_OK
  /\ cr_rv (@C_Sign example_platform se1 [Byte.x41] None 0) = CKR_OK
  /\ se_state (cr_session (@C_Sign example_platform se1 [Byte.x41] None 0))
     = S_INIT
  /\ (@C_SignInit example_platform example_session example_pss 3).1
     = CKR_OK
  /\ se_state se2 = S_UPDATE
  /\ cr_rv (@C_SignFinal example_platform se2 None 0) = CKR_OK
  /\ se_state (cr_session (@C_SignFinal example_platform se2 None 0))
     = S_UPDATE
  /\ S_INIT <> NO_PENDING /\ S_UPDATE <> NO_PENDING.
Proof. vm_compute. by split_and!. Qed.

(** C2 at the failing input: object 2 of [example_session] is the public
    key of an identity whose [pubcanencrypt] is false, and
    [C_EncryptInit] returns [CKR_OK] and moves the session to [E_INIT]
    with that key held, where the claim asks for
    [CKR_KEY_FUNCTION_NOT_PERMITTED] and state [NO_PENDING]. The sibling
    [C_DecryptInit], given the private key (object 3) of the same
    identity, whose [privcandecrypt] is false, does refuse. *)
Lemma C2_EncryptInit_failing_input :
  (exists obj, object_at example_session 2 = Some obj
               /\ obj_class obj = CKO_PUBLIC_KEY
               /\ obj_id obj = Some example_identity)
  /\ pubcanencrypt example_identity = false
  /\ se_state example_session = NO_PENDING
  /\ (@C_EncryptInit example_platform example_session
        (Some example_mechanism) 2).1 = CKR_OK
  /\ se_state (@C_EncryptInit example_platform example_session
                 (Some example_mechanism) 2).2 = E_INIT
  /\ se_key (@C_EncryptInit example_platform example_session
               (Some example_mechanism) 2).2 = Some 4
  /\ @C_DecryptInit example_platform example_session
       (Some example_mechanism) 3
     = (CKR_KEY_FUNCTION_NOT_PERMITTED, example_session).
Proof.
  split_and!; try (vm_compute; reflexivity).
  eexists. split_and!; [vm_compute; reflexivity|reflexivity|reflexivity].
Qed.

(** The amended C1 at [example_session]: a successful [C_SignInit] puts
    it into [S_INIT]. *)
Lemma C1_operation_state_witness :
  (@C_SignInit example_platform example_session example_mechanism 3).1
  = CKR_OK
  /\ se_state (@C_SignInit example_platform example_session
                 example_mechanism 3).2 = S_INIT.
Proof.
  split; [vm_compute; reflexivity|].
  destruct (@C1_operation_state example_platform)
    as (_ & _ & _ & _ & Hinit & _).
  destruct (Hinit example_session (Some example_mechanism)
              example_mechanism 3) as (_ & _ & Hs & _).
  apply Hs. vm_compute. reflexivity.
Defined.

(** C3 at OAEP requests with SHA-256, for which the example parameter map
    has a row, and with SHA-512, for which it has none. *)
Lemma C3_mech_param_validate_witness :
  parameters example_oaep_entry = OAEP
  /\ is_Some (@mech_param_validate example_platform
                (example_oaep CKM_SHA256) example_oaep_entry)
  /\ ~ is_Some (@mech_param_validate example_platform
                  (example_oaep CKM_SHA512) example_oaep_entry).
Proof.
  split; [reflexivity|]. split.
  - destruct (@C3_mech_param_validate example_platform
                (example_oaep CKM_SHA256) example_oaep_entry)
      as (Hoaep & _).
    destruct (Hoaep eq_refl) as [_ Hfind].
    destruct (Hfind [CKM_SHA256; CKG_MGF1_SHA256; CKZ_DATA_SPECIFIED; 0; 0]
                eq_refl eq_refl) as [Hex _].
    { right. vm_compute. by split_and!. }
    apply Hex. eexists. split; [apply list_elem_of_here|].
    vm_compute. by split_and!.
  - destruct (@C3_mech_param_validate example_platform
                (example_oaep CKM_SHA512) example_oaep_entry)
      as (Hoaep & _).
    destruct (Hoaep eq_refl) as [_ Hfind].
    destruct (Hfind [CKM_SHA512; CKG_MGF1_SHA256; CKZ_DATA_SPECIFIED; 0; 0]
                eq_refl eq_refl) as [Hex _].
    { right. vm_compute. by split_and!. }
    intros Hs. apply Hex in Hs as (row & Hin & _ & Hhash & _).
    cbn in Hin. rewrite !elem_of_cons in Hin.
    destruct Hin as [->| [->|Hin]]; [done|done|by apply elem_of_nil in Hin].
Defined.

(** C4 at the driver reached by initialising, inserting a token and
    opening one session on its slot: the token's count is 2. *)
Lemma C4_token_refcount_witness :
  @reachable example_platform example_reached
  /\ exists entry,
      tokens example_reached !! 0%nat = Some entry
      /\ tok_refcount entry
         = 1 + Z.of_nat (open_sessions example_reached 0%nat)
      /\ open_sessions example_reached 0%nat = 1%nat.
Proof.
  assert (Hr : @reachable example_platform example_reached).
  { unfold example_reached. apply reach_OpenSession.
    - apply reach_add_token; [apply reach_init|reflexivity].
    - vm_compute. reflexivity. }
  split; [exact Hr|].
  destruct (@C4_token_refcount example_platform example_reached Hr)
    as (Hcount & _).
  destruct (tokens example_reached !! 0%nat) as [entry|] eqn:Hlook;
    [|by vm_compute in Hlook].
  exists entry. destruct (Hcount 0%nat entry Hlook) as (_ & _ & _ & Hone).
  split_and!; [done|by apply (Hone 0%nat)|by vm_compute].
Defined.

(** C5 at two identities, for the second one. *)
Lemma C5_build_id_objects_witness :
  [example_identity; example_identity] !! 1%nat = Some example_identity
  /\ Z.of_nat 1 < 2 ^ 32
  /\ length example_objects = 6%nat
  /\ exists k, example_objects !! 5%nat = Some k
               /\ obj_class k = CKO_PRIVATE_KEY
               /\ find_attribute k CKA_ID
                  = Some (id_attribute [Byte.x01]).
Proof.
  split; [reflexivity|]. split; [lia|].
  destruct (@C5_build_id_objects example_platform
              [example_identity; example_identity]) as [Hlen Hobj].
  split; [exact Hlen|].
  destruct (Hobj 1%nat example_identity eq_refl ltac:(lia))
    as ((c & p & k & _ & _ & Hk & _ & _ & Hcl & _ & _ & _ & _ & _ & Hid) & _).
  exists k. split_and!; [exact Hk|exact Hcl|exact Hid].
Defined.

(** C6 at a session right after [C_SignInit]: probing [C_Sign] with a
    null pointer answers 256 and changes nothing. *)
Lemma C6_output_size_probe_witness :
  se_state example_sign_init_session = S_INIT
  /\ se_outsize example_sign_init_session <> 0
  /\ @C_Sign example_platform example_sign_init_session [Byte.x41] None 0
     = {| cr_rv := CKR_OK; cr_session := example_sign_init_session;
          cr_out := None; cr_outlen := 256 |}.
Proof.
  split; [reflexivity|]. split; [by vm_compute|].
  destruct (@C6_output_size_probe example_platform) as (_ & _ & Hsign).
  destruct (Hsign example_sign_init_session [Byte.x41] 0 eq_refl)
    as (Hprobe & _).
  apply Hprobe. by vm_compute.
Defined.


(** [example_session] and a template asking for private keys: the
    search finds the handles 3 and 6, one at a time. *)
Lemma C_FindObjects_matching_witness :
  Forall obj_ok (se_obj_list example_session)
  /\ Forall (fun t => 0 <= ulValueLen t) example_template
  /\ exists se0,
      C_FindObjectsInit example_session example_template
      = Some (CKR_OK, se0)
      /\ matching_from (se_obj_list example_session) 0
           (se_search_attrs se0) = [3; 6]
      /\ find_repeatedly se0 [1; 1; 1] = [3; 6].
Proof.
  assert (Hok : Forall obj_ok (se_obj_list example_session)).
  { apply (@build_id_objects_ok example_platform). }
  assert (Hlen : Forall (fun t => 0 <= ulValueLen t) example_template).
  { apply Forall_cons_2; [by vm_compute|apply Forall_nil_2]. }
  split; [exact Hok|]. split; [exact Hlen|].
  destruct (C_FindObjectsInit example_session example_template)
    as [[rv se0]|] eqn:Hinit; [|by vm_compute in Hinit].
  assert (rv = CKR_OK) as -> by (vm_compute in Hinit; congruence).
  exists se0. split; [reflexivity|].
  destruct (C_FindObjects_matching example_session se0 example_template CKR_OK
              Hok Hlen Hinit) as (_ & _ & _ & _ & _ & _ & _ & _ & Hrep & _).
  assert (Hall : matching_from (se_obj_list example_session) 0
                   (se_search_attrs se0) = [3; 6]).
  { vm_compute in Hinit. injection Hinit as <-. vm_compute. reflexivity. }
  split; [exact Hall|].
  rewrite Hrep, Hall; [reflexivity|].
  repeat (apply Forall_cons_2; [lia|]). apply Forall_nil_2.
Defined.

(** C9 at [example_driver], whose token has no context: [C_Login] with
    a PIN answers [CKR_OK] and the driver is as before. *)
Lemma C9_Login_without_context_witness :
  CHECKSESSION example_driver 1 = Some (0%nat, example_session)
  /\ tokens example_driver !! 0%nat = Some example_token
  /\ tok_lacontext example_token = None
  /\ @C_Login example_platform example_driver 1 1 (Some [Byte.x31])
     = (CKR_OK, example_driver).
Proof.
  assert (Hc : CHECKSESSION example_driver 1 = Some (0%nat, example_session))
    by (vm_compute; reflexivity).
  assert (Ht : tokens example_driver !! 0%nat = Some example_token)
    by (vm_compute; reflexivity).
  split_and!; [exact Hc|exact Ht|reflexivity|].
  destruct (@C9_Login_without_context example_platform example_driver 1 1
              0%nat example_session 0%nat example_token [Byte.x31]
              Hc eq_refl Ht eq_refl) as (Hlogin & _).
  exact Hlogin.
Defined.

(** C10 at [example_session] in the middle of a signature: the search
    starts and the signature is still in progress. *)
Lemma C10_FindObjectsInit_witness :
  Forall readable example_template
  /\ exists se',
      C_FindObjectsInit example_signing_session example_template
      = Some (CKR_OK, se')
      /\ se_state se' = S_UPDATE /\ se_obj_search_index se' = 0.
Proof.
  assert (Hr : Forall readable example_template).
  { apply Forall_cons_2; [right; by vm_compute|apply Forall_nil_2]. }
  split; [exact Hr|].
  destruct (C10_FindObjectsInit example_signing_session example_template)
    as [Htotal Hframe].
  destruct (Htotal Hr) as [[rv se'] Hinit].
  destruct (Hframe rv se' Hinit) as (-> & Hidx & _ & _ & Hst & _).
  exists se'. split_and!; [exact Hinit|by rewrite Hst|exact Hidx].
Defined.

(** *** Slot and mechanism listings *)

Lemma listed_from_length tp slots i :
  (length (listed_from tp slots i) <= length slots)%nat.
Proof.
  revert i. induction slots as [|s rest IH]; intros i; cbn; [lia|].
  specialize (IH (i + 1)). case_match; cbn; lia.
Qed.

Lemma listed_from_all slots i :
  length (listed_from false slots i) = length slots.
Proof.
  revert i. induction slots as [|s rest IH]; intros i; [done|].
  cbn [listed_from negb orb length]. by rewrite IH.
Qed.

Lemma listed_from_elem tp slots i s :
  s ∈ listed_from tp slots i
  <-> exists (k : nat) cell,
        slots !! k = Some cell /\ s = i + Z.of_nat k
        /\ (tp = true -> cell <> None).
Proof.
  revert i. induction slots as [|c rest IH]; intros i; cbn.
  - split; [by intros ?%elem_of_nil|by intros (k & cell & ? & _)].
  - assert (Hrest : (exists (k : nat) cell,
                        rest !! k = Some cell /\ s = i + 1 + Z.of_nat k
                        /\ (tp = true -> cell <> None))
                    <-> exists (k : nat) cell,
                        (c :: rest) !! S k = Some cell
                        /\ s = i + Z.of_nat (S k)
                        /\ (tp = true -> cell <> None)).
    { split; intros (k & cell & Hk & -> & Hp); exists k, cell;
        split_and!; try done; lia. }
    destruct (negb tp || bool_decide (c <> None)) eqn:Hc.
    + rewrite elem_of_cons, IH, Hrest. split.
      * intros [->|(k & cell & ? & ? & ?)].
        -- exists 0%nat, c. split_and!; [done|lia|].
           intros ->. cbn in Hc. by apply bool_decide_eq_true in Hc.
        -- by exists (S k), cell.
      * intros ([|k] & cell & Hk & Hs & Hp).
        -- left. lia.
        -- right. by exists k, cell.
    + rewrite IH, Hrest. split.
      * intros (k & cell & ? & ? & ?). by exists (S k), cell.
      * intros ([|k] & cell & Hk & Hs & Hp).
        -- exfalso. cbn in Hk. injection Hk as <-.
           apply orb_false_iff in Hc as [Ht Hn].
           apply negb_false_iff in Ht.
           apply bool_decide_eq_false in Hn. by apply Hn, Hp.
        -- by exists k, cell.
Qed.

Lemma count_present_spec slots c i :
  0 <= c -> c + Z.of_nat (length slots) < UINT_MODULUS ->
  count_present slots c = c + Z.of_nat (length (listed_from true slots i)).
Proof.
  revert c i. induction slots as [|s rest IH]; intros c i Hc Hlt; cbn.
  - lia.
  - cbn [length] in Hlt. destruct s as [a|]; cbn.
    + rewrite Z.mod_small by lia.
      rewrite (IH (c + 1) (i + 1)) by lia. lia.
    + rewrite (IH c (i + 1)) by lia. lia.
Qed.

Lemma store_slots_index tp slots i buf sindex :
  0 <= sindex -> sindex + Z.of_nat (length slots) < UINT_MODULUS ->
  (store_slots tp slots i buf sindex).2
  = sindex + Z.of_nat (length (listed_from tp slots i)).
Proof.
  revert i buf sindex.
  induction slots as [|s rest IH]; intros i buf sindex Hs Hlt;
    cbn [store_slots listed_from].
  - cbn. lia.
  - cbn [length] in Hlt.
    destruct (negb tp || bool_decide (s <> None)) eqn:Hc.
    + rewrite Z.mod_small by lia. rewrite IH by lia. cbn [length]. lia.
    + by rewrite IH by (done || lia).
Qed.

Lemma store_slots_spec tp slots i buf sindex :
  0 <= sindex -> sindex + Z.of_nat (length slots) < UINT_MODULUS ->
  sindex + Z.of_nat (length (listed_from tp slots i))
  <= Z.of_nat (length buf) ->
  (store_slots tp slots i buf sindex).1
  = take (Z.to_nat sindex) buf ++ listed_from tp slots i
    ++ drop (Z.to_nat sindex + length (listed_from tp slots i)) buf.
Proof.
  revert i buf sindex.
  induction slots as [|s rest IH]; intros i buf sindex Hs Hlt;
    cbn [store_slots listed_from].
  - intros _. cbn. by rewrite Nat.add_0_r, take_drop.
  - cbn [length] in Hlt.
    destruct (negb tp || bool_decide (s <> None)) eqn:Hc; intros Hbuf.
    + cbn [length] in Hbuf. rewrite Z.mod_small by lia.
      rewrite IH; [|lia|lia|rewrite length_insert; lia].
      replace (Z.to_nat (sindex + 1)) with (S (Z.to_nat sindex)) by lia.
      assert (Hi : (Z.to_nat sindex < length buf)%nat) by lia.
      rewrite (take_S_r _ _ i) by (by apply list_lookup_insert_eq).
      rewrite take_insert_ge by lia. rewrite <- app_assoc. cbn [app length].
      do 2 f_equal. rewrite drop_insert_lt by lia. do 2 f_equal. lia.
    + by rewrite IH by (done || lia).
Qed.

Lemma listed_slots_elem d token_present s :
  s ∈ listed_slots d token_present
  <-> (s = CERTIFICATE_SLOT /\ cert_slot_enabled d = true)
      \/ (0 <= s
          /\ exists cell, slot_list d !! Z.to_nat s = Some cell
               /\ (token_present = true -> cell <> None)).
Proof.
  unfold listed_slots. rewrite elem_of_app, listed_from_elem. split.
  - intros [(k & cell & Hk & -> & Hp)|Hc].
    + right. split; [lia|]. exists cell.
      by rewrite Z.add_0_l, Nat2Z.id.
    + left. destruct (cert_slot_enabled d); [|by apply elem_of_nil in Hc].
      by apply list_elem_of_singleton in Hc.
  - intros [[-> ->]|(Hs & cell & Hk & Hp)].
    + right. apply list_elem_of_singleton. done.
    + left. exists (Z.to_nat s), cell. split_and!; [done|lia|done].
Qed.

Lemma C_GetSlotList_cases d token_present ret_slot_list slot_num :
  Z.of_nat (length (slot_list d)) + 1 < UINT_MODULUS ->
  let n := Z.of_nat (length (listed_slots d token_present)) in
  let r := C_GetSlotList d token_present ret_slot_list slot_num in
  r.2 = n
  /\ (ret_slot_list = None -> r = (CKR_OK, None, n))
  /\ (forall buf, ret_slot_list = Some buf -> slot_num < n ->
        r = (CKR_BUFFER_TOO_SMALL, Some buf, n))
  /\ (forall buf, ret_slot_list = Some buf -> n <= slot_num ->
        r.1.1 = CKR_OK)
  /\ (forall buf, ret_slot_list = Some buf ->
        n <= slot_num <= Z.of_nat (length buf) ->
        r = (CKR_OK,
             Some (listed_slots d token_present ++ drop (Z.to_nat n) buf),
             n)).
Proof.
  intros Hsize n r. subst n r. unfold C_GetSlotList, listed_slots.
  pose proof (listed_from_length token_present (slot_list d) 0) as Hle.
  set (listed := listed_from token_present (slot_list d) 0) in *.
  assert (Hcnt : (if token_present then count_present (slot_list d) 0
                  else Z.of_nat (length (slot_list d)))
                 = Z.of_nat (length listed)).
  { subst listed. destruct token_present.
    - by rewrite (count_present_spec _ 0 0) by lia.
    - by rewrite listed_from_all. }
  rewrite Hcnt. clear Hcnt.
  set (count := if cert_slot_enabled d
                then (Z.of_nat (length listed) + 1) mod UINT_MODULUS
                else Z.of_nat (length listed)).
  assert (Hcount : count
                   = Z.of_nat (length (listed ++ if cert_slot_enabled d
                                                 then [CERTIFICATE_SLOT]
                                                 else []))).
  { subst count. rewrite length_app.
    destruct (cert_slot_enabled d); cbn; [|lia].
    rewrite Z.mod_small by lia. lia. }
  assert (Hindex : forall buf,
            (store_slots token_present (slot_list d) 0 buf 0).2
            = Z.of_nat (length listed)).
  { intros buf. subst listed. by rewrite store_slots_index by lia. }
  assert (Hstore : forall buf,
            Z.of_nat (length listed) <= Z.of_nat (length buf) ->
            (store_slots token_present (slot_list d) 0 buf 0).1
            = listed ++ drop (length listed) buf).
  { intros buf Hb. subst listed. by rewrite store_slots_spec by lia. }
  assert (Hlast : cert_slot_enabled d = true ->
            Z.of_nat (length listed) = (count - 1) mod UINT_MODULUS).
  { intros Hc. subst count. rewrite Hc.
    rewrite (Z.mod_small (_ + 1)) by lia. rewrite Z.mod_small by lia. lia. }
  assert (Hlen : forall buf : list Z,
            count <= Z.of_nat (length buf) ->
            Z.of_nat (length listed) <= Z.of_nat (length buf)).
  { intros buf. rewrite Hcount, length_app. lia. }
  split_and!.
  - destruct ret_slot_list as [buf|]; [|done].
    destruct (slot_num <? count); [done|].
    destruct (store_slots _ _ _ _ _) as [b s].
    by repeat case_match.
  - intros ->. by rewrite <- Hcount.
  - intros buf -> Hlt. rewrite <- Hcount.
    by rewrite (proj2 (Z.ltb_lt _ _)) by lia.
  - intros buf -> Hn. rewrite <- Hcount in Hn.
    rewrite (proj2 (Z.ltb_ge _ _)) by lia.
    destruct (store_slots _ _ _ _ _) as [b s] eqn:Hst.
    destruct (cert_slot_enabled d) eqn:Hc; [|done].
    specialize (Hindex buf). rewrite Hst in Hindex. cbn in Hindex.
    rewrite Hindex, <- Hlast, Z.eqb_refl by done. done.
  - intros buf -> [Hn Hb]. rewrite <- Hcount in *.
    rewrite (proj2 (Z.ltb_ge _ _)) by lia.
    specialize (Hstore buf (Hlen buf ltac:(lia))). specialize (Hindex buf).
    destruct (store_slots _ _ _ _ _) as [b si]. cbn in Hstore, Hindex.
    subst b si.
    destruct (cert_slot_enabled d) eqn:Hc.
    + rewrite <- Hlast by done. rewrite Z.eqb_refl. cbn [negb].
      do 2 f_equal. rewrite Nat2Z.id.
      assert (Hroom : (length listed < length buf)%nat).
      { rewrite Hcount, length_app in Hn. cbn in Hn. lia. }
      rewrite insert_app_r_alt by lia. rewrite Nat.sub_diag.
      rewrite <- app_assoc. f_equal.
      rewrite Hcount, length_app, Nat2Z.id. cbn [length].
      replace (length listed + 1)%nat with (S (length listed)) by lia.
      destruct (lookup_lt_is_Some_2 buf (length listed) Hroom) as [x Hx].
      by rewrite (drop_S _ x _ Hx).
    + rewrite app_nil_r. do 2 f_equal. by rewrite Hcount, app_nil_r, Nat2Z.id.
Qed.

(** [C_GetSlotList] reports the number of listed slots through
    [*slot_num] in every case. With a null array it returns [CKR_OK] and
    stores nothing; with an array of fewer cells it returns
    [CKR_BUFFER_TOO_SMALL] and leaves the array alone; otherwise it
    returns [CKR_OK] and the array starts with the positions, in
    ascending order, of the occupied slots (of all slots when
    [token_present] is false), followed by [CERTIFICATE_SLOT] when that
    slot is enabled, whether or not its scan has finished. It never
    returns [CKR_GENERAL_ERROR]. *)
Theorem C_GetSlotList_spec (d : driver) (token_present : bool)
    (ret_slot_list : option (list Z)) (slot_num : Z) :
  Z.of_nat (length (slot_list d)) + 1 < UINT_MODULUS ->
  let n := Z.of_nat (length (listed_slots d token_present)) in
  let r := C_GetSlotList d token_present ret_slot_list slot_num in
  r.2 = n
  /\ r.1.1 <> CKR_GENERAL_ERROR
  /\ (ret_slot_list = None -> r = (CKR_OK, None, n))
  /\ (forall buf, ret_slot_list = Some buf -> slot_num < n ->
        r = (CKR_BUFFER_TOO_SMALL, Some buf, n))
  /\ (forall buf, ret_slot_list = Some buf ->
        n <= slot_num <= Z.of_nat (length buf) ->
        r = (CKR_OK,
             Some (listed_slots d token_present ++ drop (Z.to_nat n) buf),
             n))
  /\ (forall s, s ∈ listed_slots d token_present
        <-> (s = CERTIFICATE_SLOT /\ cert_slot_enabled d = true)
            \/ (0 <= s
                /\ exists cell, slot_list d !! Z.to_nat s = Some cell
                     /\ (token_present = true -> cell <> None))).
Proof.
  intros Hsize n r.
  pose proof (C_GetSlotList_cases d token_present ret_slot_list slot_num
                Hsize) as Hcases.
  cbv zeta in Hcases. fold n r in Hcases.
  destruct Hcases as (Hn & Hnull & Hsmall & Hok & Hfill).
  split_and!; try done.
  - destruct ret_slot_list as [buf|]; [|by rewrite Hnull].
    destruct (decide (slot_num < n)) as [Hlt|Hge].
    + by rewrite (Hsmall buf eq_refl Hlt).
    + by rewrite (Hok buf eq_refl) by lia.
  - intros s. apply listed_slots_elem.
Qed.

Lemma C_GetSlotList_spec_witness :
  Z.of_nat (length (slot_list example_driver)) + 1 < UINT_MODULUS
  /\ C_GetSlotList example_driver true (Some [9; 9]) 2
     = (CKR_OK, Some [0; 9], 1).
Proof.
  assert (Hsize : Z.of_nat (length (slot_list example_driver)) + 1
                  < UINT_MODULUS) by (by vm_compute).
  split; [exact Hsize|].
  pose proof (C_GetSlotList_spec example_driver true (Some [9; 9]) 2 Hsize)
    as Hspec.
  cbv zeta in Hspec. destruct Hspec as (_ & _ & _ & _ & Hfill & _).
  apply (Hfill [9; 9] eq_refl). by vm_compute.
Defined.

Lemma store_mechanisms_spec (table : list mechanism_map) (i : nat)
    (buf : list Z) :
  (i + length table <= length buf)%nat ->
  store_mechanisms table i buf
  = take i buf ++ map cki_mech table ++ drop (i + length table) buf.
Proof.
  revert i buf. induction table as [|mm rest IH]; intros i buf Hlen.
  - cbn. by rewrite Nat.add_0_r, take_drop.
  - cbn [store_mechanisms map length app] in *.
    rewrite IH by (rewrite length_insert; lia).
    rewrite (take_S_r _ _ (cki_mech mm))
      by (apply list_lookup_insert_eq; lia).
    rewrite take_insert_ge by lia. rewrite <- app_assoc. cbn [app].
    do 2 f_equal. rewrite drop_insert_lt by lia. do 2 f_equal. lia.
Qed.

Lemma get_mechmap_in_Some table m mm :
  get_mechmap_in table m = Some mm ->
  cki_mech mm = m
  /\ exists before after,
       table = before ++ mm :: after
       /\ Forall (fun r => cki_mech r <> m) before.
Proof.
  induction table as [|r rest IH]; [done|]. cbn.
  destruct (m =? cki_mech r) eqn:E.
  - intros [= <-]. apply Z.eqb_eq in E. split; [done|].
    exists [], rest. split; [done|constructor].
  - intros Hrest. apply Z.eqb_neq in E.
    destruct (IH Hrest) as (Hm & before & after & -> & Hb).
    split; [done|]. exists (r :: before), after.
    split; [done|]. constructor; [congruence|done].
Qed.

Lemma get_mechmap_in_is_Some table m :
  is_Some (get_mechmap_in table m) <-> m ∈ map cki_mech table.
Proof.
  induction table as [|r rest IH]; cbn.
  - split; [by intros [? ?]|by intros ?%elem_of_nil].
  - rewrite elem_of_cons. destruct (m =? cki_mech r) eqn:E.
    + apply Z.eqb_eq in E. split; [by left|by eexists].
    + apply Z.eqb_neq in E. rewrite IH. naive_solver.
Qed.

Section MechanismList.
Context `{Platform}.

(** [C_GetMechanismList] on a slot with a token reports the number of
    rows of the mechanism table through [*mechnum] in every case; with
    a null array it returns [CKR_OK], with an array of fewer cells
    [CKR_BUFFER_TOO_SMALL] leaving the array alone, and otherwise
    [CKR_OK] with the mechanisms of the table in table order at the
    start of the array. On a slot that [CHECKSLOT] refuses it returns
    the code of [CHECKSLOT] and stores nothing. The mechanisms listed
    are exactly those [get_mechmap] knows, and [get_mechmap] returns
    the first row of the table for the mechanism. *)
Theorem C_GetMechanismList_spec (d : driver) (slot_id : Z)
    (mechlist : option (list Z)) (mechnum : Z) :
  let mechs := map cki_mech keychain_mechmap in
  let n := Z.of_nat (length mechs) in
  let r := C_GetMechanismList d slot_id mechlist mechnum in
  (forall rv, CHECKSLOT d slot_id true = Some rv ->
     r = (rv, mechlist, mechnum))
  /\ (CHECKSLOT d slot_id true = None ->
      r.2 = n
      /\ (mechlist = None -> r = (CKR_OK, None, n))
      /\ (forall buf, mechlist = Some buf -> mechnum < n ->
            r = (CKR_BUFFER_TOO_SMALL, Some buf, n))
      /\ (forall buf, mechlist = Some buf ->
            n <= mechnum <= Z.of_nat (length buf) ->
            r = (CKR_OK, Some (mechs ++ drop (Z.to_nat n) buf), n)))
  /\ (forall m, m ∈ mechs <-> is_Some (get_mechmap m))
  /\ (forall m mm, get_mechmap m = Some mm ->
        cki_mech mm = m
        /\ exists before after,
             keychain_mechmap = before ++ mm :: after
             /\ Forall (fun r => cki_mech r <> m) before).
Proof.
  intros mechs n r. subst mechs n r. unfold C_GetMechanismList.
  rewrite length_map. split_and!.
  - by intros rv ->.
  - intros ->. split_and!.
    + destruct mechlist as [buf|]; [|done]. by case_match.
    + by intros ->.
    + intros buf -> Hlt. by rewrite (proj2 (Z.ltb_lt _ _)) by lia.
    + intros buf -> [Hn Hb]. rewrite (proj2 (Z.ltb_ge _ _)) by lia.
      rewrite store_mechanisms_spec by lia.
      by rewrite Nat2Z.id.
  - intros m. symmetry. apply get_mechmap_in_is_Some.
  - intros m mm. apply get_mechmap_in_Some.
Qed.
End MechanismList.

Lemma C_GetMechanismList_spec_witness :
  CHECKSLOT example_driver 0 true = None
  /\ @C_GetMechanismList example_platform example_driver 0
       (Some [0; 0; 0; 0]) 4
     = (CKR_OK, Some [CKM_RSA_PKCS; CKM_RSA_PKCS_OAEP; CKM_RSA_PKCS_PSS; 0],
        3)
  /\ @C_GetMechanismList example_platform example_driver 1 None 0
     = (CKR_SLOT_ID_INVALID, None, 0).
Proof.
  pose proof (@C_GetMechanismList_spec example_platform example_driver 0
                (Some [0; 0; 0; 0]) 4) as Hspec.
  cbv zeta in Hspec. destruct Hspec as (_ & Hok & _).
  destruct (Hok eq_refl) as (_ & _ & _ & Hfill).
  split; [reflexivity|]. split.
  - apply (Hfill [0; 0; 0; 0] eq_refl). by vm_compute.
  - pose proof (@C_GetMechanismList_spec example_platform example_driver 1
                  None 0) as Hspec.
    cbv zeta in Hspec. destruct Hspec as (Hbad & _).
    apply (Hbad CKR_SLOT_ID_INVALID). reflexivity.
Defined.

(** *** Padded strings *)

(** [sprintfpad] overwrites the whole field: the result is the formatted
    string cut to the size of the field, or followed by spaces up to that
    size; a failed or empty formatting gives a field of spaces. The field
    keeps its size and, the string being free of null bytes, holds no
    null byte: there is no terminator, also when the string fills the
    field or is cut. *)
Theorem sprintfpad_spec (dest : list byte) (destsize : Z)
    (formatted : option (list byte)) :
  Z.of_nat (length dest) = destsize ->
  let s := default [] formatted in
  let r := sprintfpad dest destsize formatted in
  r = take (Z.to_nat destsize) (s ++ replicate (Z.to_nat destsize) Byte.x20)
  /\ Z.of_nat (length r) = destsize
  /\ (Byte.x00 ∉ s -> Byte.x00 ∉ r)
  /\ (Z.of_nat (length s) <= destsize ->
      r = s ++ replicate (Z.to_nat destsize - length s) Byte.x20)
  /\ (destsize <= Z.of_nat (length s) -> r = take (Z.to_nat destsize) s).
Proof.
  intros Hlen s r.
  assert (Hr : r = take (Z.to_nat destsize)
                     (s ++ replicate (Z.to_nat destsize) Byte.x20)).
  { subst r s. unfold sprintfpad.
    assert (Hn : Z.to_nat destsize = length dest) by lia.
    rewrite Hn.
    destruct formatted as [str|]; cbn [default]; unfold id.
    - destruct (Z.of_nat (length str) <? 1) eqn:Hrc.
      + apply Z.ltb_lt in Hrc. destruct str; [|cbn in Hrc; lia].
        unfold memset. cbn. rewrite drop_all, app_nil_r.
        by rewrite take_replicate, Nat.min_id.
      + apply Z.ltb_ge in Hrc. unfold strncpy.
        rewrite drop_all, app_nil_r.
        destruct (Z.of_nat (length str) <? destsize) eqn:Hd.
        * apply Z.ltb_lt in Hd. unfold memset. rewrite Nat2Z.id.
          rewrite (take_ge (str ++ _))
            by (rewrite length_app, length_replicate; lia).
          rewrite take_app_length.
          rewrite drop_ge
            by (rewrite length_app, length_replicate; lia).
          rewrite app_nil_r. rewrite take_app_ge by lia.
          rewrite take_replicate. do 2 f_equal. lia.
        * apply Z.ltb_ge in Hd.
          replace (length dest - length str)%nat with 0%nat by lia.
          cbn [replicate]. rewrite app_nil_r.
          by rewrite take_app_le by lia.
    - unfold memset. cbn. rewrite drop_all, app_nil_r.
      by rewrite take_replicate, Nat.min_id. }
  split; [exact Hr|]. rewrite Hr. split_and!.
  - rewrite length_take, length_app, length_replicate. lia.
  - intros Hs Hin. apply elem_of_take in Hin as (i & Hi & _).
    apply lookup_app_Some in Hi as [Hi|[_ Hi]].
    + apply Hs. by eapply list_elem_of_lookup_2.
    + by apply lookup_replicate in Hi as [? _].
  - intros Hle. rewrite take_app_ge by lia. by rewrite take_replicate,
      Nat.min_l by lia.
  - intros Hge. by rewrite take_app_le by lia.
Qed.

Lemma sprintfpad_spec_witness :
  Z.of_nat (length [Byte.x00; Byte.x00; Byte.x00; Byte.x00]) = 4
  /\ sprintfpad [Byte.x00; Byte.x00; Byte.x00; Byte.x00] 4
       (Some [Byte.x41; Byte.x42])
     = [Byte.x41; Byte.x42; Byte.x20; Byte.x20].
Proof.
  split; [reflexivity|].
  pose proof (sprintfpad_spec [Byte.x00; Byte.x00; Byte.x00; Byte.x00] 4
                (Some [Byte.x41; Byte.x42]) eq_refl) as Hspec.
  cbv zeta in Hspec. destruct Hspec as (_ & _ & _ & Hpad & _).
  apply Hpad. by vm_compute.
Defined.

(** *** Session handles *)

Lemma find_free_session_first l k j m :
  find_free_session l k = Some j -> (k <= m < j)%nat ->
  exists se, l !! (m - k)%nat = Some (Some se).
Proof.
  revert k. induction l as [|s rest IH]; intros k; [done|]. cbn.
  destruct s as [se|].
  - intros Hf Hm. destruct (decide (m = k)) as [->|Hne].
    + rewrite Nat.sub_diag. by exists se.
    + destruct (IH (S k) Hf ltac:(lia)) as [se' Hse'].
      exists se'. replace (m - k)%nat with (S (m - S k)) by lia. done.
  - intros [= ->]. lia.
Qed.

Lemma handle_index_range h : 0 <= handle_index h < 2 ^ 64.
Proof. unfold handle_index. apply Z.mod_pos_bound. lia. Qed.

Lemma sess_list_add_lookup l count sess :
  0 <= count <= Z.of_nat (length l) ->
  (forall i s, count <= Z.of_nat i -> l !! i = Some s -> s = None) ->
  exists (i : nat) l' count',
    sess_list_add l count sess = (l', count', Z.of_nat i + 1)
    /\ (forall se, l !! i <> Some (Some se))
    /\ (forall j, (j < i)%nat -> exists se, l !! j = Some (Some se))
    /\ l' !! i = Some (Some sess)
    /\ (forall j, j <> i ->
          l' !! j = l !! j \/ (l !! j = None /\ l' !! j = Some None))
    /\ count' = Z.max count (Z.of_nat i + 1)
    /\ Z.of_nat i <= count.
Proof.
  intros Hcount Htail. unfold sess_list_add.
  destruct (find_free_session l 0) as [i|] eqn:Hf.
  - destruct (find_free_session_Some _ _ _ Hf) as [_ Hi].
    rewrite Nat.sub_0_r in Hi.
    assert (Hfirst : forall j, (j < i)%nat ->
                       exists se, l !! j = Some (Some se)).
    { intros j Hj.
      destruct (find_free_session_first l 0 i j Hf ltac:(lia)) as [se Hse].
      rewrite Nat.sub_0_r in Hse. by exists se. }
    assert (Hle : Z.of_nat i <= count).
    { destruct i as [|i']; [lia|].
      destruct (Hfirst i' ltac:(lia)) as [se Hse].
      destruct (decide (count <= Z.of_nat i')) as [Hge|]; [|lia].
      by specialize (Htail _ _ Hge Hse). }
    exists i, (<[i := Some sess]> l), (Z.max count (Z.of_nat i + 1)).
    split_and!; try done.
    + do 2 f_equal. destruct (Z.of_nat i >=? count) eqn:E; Zbool; lia.
    + intros se. by rewrite Hi.
    + apply list_lookup_insert_eq. by eapply lookup_lt_Some.
    + intros j Hj. left. by apply list_lookup_insert_ne.
  - assert (Hfull : forall j s, l !! j = Some s -> s <> None).
    { intros j s. by apply (find_free_session_None l 0 j s Hf). }
    assert (Hn : count = Z.of_nat (length l)).
    { destruct (decide (count = Z.of_nat (length l))) as [|Hne]; [done|].
      destruct (lookup_lt_is_Some_2 l (Z.to_nat count) ltac:(lia))
        as [s Hs].
      specialize (Hfull _ _ Hs).
      by specialize (Htail (Z.to_nat count) s ltac:(lia) Hs). }
    set (n := length l) in *.
    assert (Hl' :
      <[Z.to_nat count := Some sess]>
        (take (Z.to_nat (count + 1)) (l ++ replicate 5 None)
         ++ replicate (length (l ++ replicate 5 None)
                       - Z.to_nat (count + 1)) None)
      = l ++ Some sess :: replicate 4 None).
    { rewrite length_app, length_replicate. fold n.
      replace (Z.to_nat (count + 1)) with (n + 1)%nat by lia.
      replace (Z.to_nat count) with (n + 0)%nat by lia.
      rewrite take_app_add'
        by done. cbn [replicate take].
      replace (n + 5 - (n + 1))%nat with 4%nat by lia.
      rewrite <- app_assoc. unfold n. rewrite insert_app_r. done. }
    rewrite Hl'. exists n, (l ++ Some sess :: replicate 4 None), (count + 1).
    split_and!.
    + do 2 f_equal. lia.
    + intros se Hse. apply lookup_lt_Some in Hse. lia.
    + intros j Hj.
      destruct (lookup_lt_is_Some_2 l j ltac:(lia)) as [[se|] Hs];
        [by exists se|]. by specialize (Hfull _ _ Hs).
    + by rewrite lookup_app_r, Nat.sub_diag by lia.
    + intros j Hj. destruct (decide (j < n)%nat) as [Hlt|Hge].
      * left. by rewrite lookup_app_l by lia.
      * rewrite (lookup_ge_None_2 l j) by lia.
        rewrite lookup_app_r by lia.
        destruct (j - length l)%nat as [|k] eqn:Hk; [unfold n in *; lia|].
        change ((Some sess :: replicate 4 None) !! S k)
          with (replicate 4 (@None session) !! k).
        destruct (replicate 4 (@None session) !! k) as [s|] eqn:Hr;
          [|by left].
        apply lookup_replicate in Hr as [-> _]. by right.
    + lia.
    + lia.
Qed.

Lemma CHECKSLOT_codes d slot present rv :
  CHECKSLOT d slot present = Some rv ->
  rv = CKR_SLOT_ID_INVALID \/ rv = CKR_TOKEN_NOT_PRESENT.
Proof. unfold CHECKSLOT. repeat case_match; naive_solver. Qed.

(** The shape of a [C_OpenSession] that passes its two tests: a session
    is stored into [sess_list] of a driver that differs from [d] in the
    reference count of the token at most. *)
Lemma C_OpenSession_stores d slot_id flags mem :
  CHECKSLOT d slot_id true = None ->
  Z.land flags CKF_SERIAL_SESSION <> 0 ->
  exists sess d1,
    sess_list d1 = sess_list d /\ sess_list_count d1 = sess_list_count d
    /\ slot_list d1 = slot_list d /\ se_slot_id sess = slot_id
    /\ C_OpenSession d slot_id flags mem
       = (CKR_OK,
          set_sess_list
            (sess_list_add (sess_list d) (sess_list_count d) sess).1.1
            (sess_list_add (sess_list d) (sess_list_count d) sess).1.2 d1,
          Some (sess_list_add (sess_list d) (sess_list_count d) sess).2).
Proof.
  intros Hslot Hflag. unfold C_OpenSession. rewrite Hslot.
  rewrite (proj2 (Z.eqb_neq _ _) Hflag).
  destruct (if slot_id =? CERTIFICATE_SLOT then _ else _)
    as [[objs tok] d1] eqn:He.
  assert (Hd1 : sess_list d1 = sess_list d
                /\ sess_list_count d1 = sess_list_count d
                /\ slot_list d1 = slot_list d).
  { revert He. repeat case_match; by intros [= <- <- <-]. }
  destruct Hd1 as (Hl & Hc & Hs).
  exists {| se_slot_id := slot_id; se_token := tok; se_obj_list := objs;
            se_obj_search_index := se_obj_search_index mem;
            se_search_attrs := [];
            se_state := NO_PENDING; se_key := None;
            se_outsize := se_outsize mem; se_alg := se_alg mem;
            se_dalg := se_dalg mem; se_hash_alg := se_hash_alg mem;
            se_mdc := None |}, d1.
  split_and!; [done|done|done|done|]. rewrite Hl, Hc.
  by destruct (sess_list_add _ _ _) as [[l c] h].
Qed.

(** [C_OpenSession] succeeds exactly when [CHECKSLOT] finds a token in
    the slot and [CKF_SERIAL_SESSION] is set; otherwise it returns
    [CKR_SLOT_ID_INVALID], [CKR_TOKEN_NOT_PRESENT] or
    [CKR_SESSION_PARALLEL_NOT_SUPPORTED], stores no handle and leaves the
    driver as it was. A handle it returns is positive, was not valid
    before, and is the smallest such handle, so the handle of a closed
    session is used again; every other handle names the session it named
    before, and the slot list is unchanged. *)
Theorem C_OpenSession_handles (d : driver) (slot_id flags : Z)
    (mem : session) :
  driver_inv d ->
  Z.of_nat (length (sess_list d)) + 5 < UINT_MODULUS ->
  let r := C_OpenSession d slot_id flags mem in
  (r.1.1 = CKR_OK
   <-> CHECKSLOT d slot_id true = None
       /\ Z.land flags CKF_SERIAL_SESSION <> 0)
  /\ (r.1.1 <> CKR_OK ->
      r.1.2 = d /\ r.2 = None
      /\ (r.1.1 = CKR_SLOT_ID_INVALID \/ r.1.1 = CKR_TOKEN_NOT_PRESENT
          \/ r.1.1 = CKR_SESSION_PARALLEL_NOT_SUPPORTED))
  /\ (r.1.1 = CKR_OK ->
      exists h,
        r.2 = Some h /\ 1 <= h /\ CHECKSESSION d h = None
        /\ (forall h', 1 <= h' < h -> is_Some (CHECKSESSION d h'))
        /\ is_Some (CHECKSESSION r.1.2 h)
        /\ (forall h', handle_index h' <> handle_index h ->
              CHECKSESSION r.1.2 h' = CHECKSESSION d h')
        /\ slot_list r.1.2 = slot_list d).
Proof.
  intros Hinv Hsize r.
  assert (Hiff : r.1.1 = CKR_OK
                 <-> CHECKSLOT d slot_id true = None
                     /\ Z.land flags CKF_SERIAL_SESSION <> 0).
  { split.
    - subst r. unfold C_OpenSession.
      destruct (CHECKSLOT d slot_id true) as [rv|] eqn:Hs.
      + cbn. intros ->. by apply CHECKSLOT_codes in Hs as [?|?].
      + destruct (Z.land flags CKF_SERIAL_SESSION =? 0) eqn:Hf; [done|].
        by apply Z.eqb_neq in Hf.
    - intros [Hs Hf].
      destruct (C_OpenSession_stores d slot_id flags mem Hs Hf)
        as (sess & d1 & _ & _ & _ & _ & Heq).
      subst r. by rewrite Heq. }
  split; [exact Hiff|]. split.
  - intros Hne. destruct (CHECKSLOT d slot_id true) as [rv|] eqn:Hs.
    + assert (r = (rv, d, None)) as ->.
      { subst r. unfold C_OpenSession. by rewrite Hs. }
      cbn. split_and!; try done.
      apply CHECKSLOT_codes in Hs. naive_solver.
    + destruct (Z.land flags CKF_SERIAL_SESSION =? 0) eqn:Hf.
      * assert (r = (CKR_SESSION_PARALLEL_NOT_SUPPORTED, d, None)) as ->.
        { subst r. unfold C_OpenSession. by rewrite Hs, Hf. }
        cbn. naive_solver.
      * exfalso. apply Hne, Hiff. split; [done|]. by apply Z.eqb_neq.
  - intros Hok. apply Hiff in Hok as [Hs Hf].
    destruct (C_OpenSession_stores d slot_id flags mem Hs Hf)
      as (sess & d1 & Hl1 & Hc1 & Hs1 & _ & Heq).
    destruct Hinv as [_ _ _ Hcount Htail Hlen].
    destruct (sess_list_add_lookup (sess_list d) (sess_list_count d) sess
                Hcount Htail)
      as (i & l' & count' & Hadd & Hfree & Hfirst & Hnew & Hframe
          & Hcount' & Hi).
    subst r. rewrite Heq, Hadd. cbn [fst snd].
    assert (Hidx : handle_index (Z.of_nat i + 1) = Z.of_nat i).
    { apply handle_index_succ. unfold UINT_MODULUS in *. lia. }
    exists (Z.of_nat i + 1). split_and!; try done.
    + lia.
    + unfold CHECKSESSION. rewrite Hidx, Nat2Z.id.
      destruct (Z.of_nat i >=? sess_list_count d); [done|].
      destruct (sess_list d !! i) as [[se|]|] eqn:Hse; try done.
      by destruct (Hfree se).
    + intros h' Hh'. unfold CHECKSESSION.
      assert (Hidx' : handle_index h' = h' - 1).
      { unfold handle_index. apply Z.mod_small.
        unfold UINT_MODULUS in *. lia. }
      rewrite Hidx'.
      destruct (Hfirst (Z.to_nat (h' - 1)) ltac:(lia)) as [se Hse].
      rewrite Hse.
      destruct (h' - 1 >=? sess_list_count d) eqn:E; Zbool; [lia|done].
    + unfold CHECKSESSION. cbn. rewrite Hidx, Nat2Z.id, Hnew.
      destruct (Z.of_nat i >=? count') eqn:E; Zbool; [lia|done].
    + intros h' Hne. rewrite Hidx in Hne.
      pose proof (handle_index_range h') as Hr.
      unfold CHECKSESSION. cbn.
      set (j := handle_index h') in *.
      assert (Hj : Z.to_nat j <> i) by lia.
      destruct (Hframe _ Hj) as [Hsame|[Hnone Hsome]].
      * rewrite Hsame.
        destruct (j >=? count') eqn:E1, (j >=? sess_list_count d) eqn:E2;
          Zbool; try done; try lia.
      * rewrite Hnone, Hsome. by repeat case_match.
Qed.

Lemma example_reached_reachable : @reachable example_platform example_reached.
Proof.
  unfold example_reached. apply reach_OpenSession.
  - apply reach_add_token; [apply reach_init|reflexivity].
  - by vm_compute.
Qed.

Lemma example_reached_inv : driver_inv example_reached.
Proof.
  apply (@reachable_inv example_platform), example_reached_reachable.
Qed.

Lemma C_OpenSession_handles_witness :
  driver_inv example_reached
  /\ Z.of_nat (length (sess_list example_reached)) + 5 < UINT_MODULUS
  /\ (C_OpenSession example_reached 0 CKF_SERIAL_SESSION example_session).2
     = Some 2
  /\ is_Some (CHECKSESSION example_reached 1).
Proof.
  assert (Hsize : Z.of_nat (length (sess_list example_reached)) + 5
                  < UINT_MODULUS) by (by vm_compute).
  split; [exact example_reached_inv|]. split; [exact Hsize|].
  pose proof (C_OpenSession_handles example_reached 0 CKF_SERIAL_SESSION
                example_session example_reached_inv Hsize) as Hspec.
  cbv zeta in Hspec. destruct Hspec as (_ & _ & Hok).
  destruct (Hok ltac:(by vm_compute)) as (h & Hh & _ & _ & Hbelow & _).
  split; [by vm_compute|].
  apply Hbelow. assert (h = 2) as -> by (vm_compute in Hh; congruence). lia.
Defined.

(** [C_CloseSession] returns [CKR_SESSION_HANDLE_INVALID] for a handle
    that names no open session and then changes nothing. For an open
    session it returns [CKR_OK]; afterwards the handle is invalid, so
    that closing it again returns [CKR_SESSION_HANDLE_INVALID], every
    other handle names the session it named before, and the slot list
    and [sess_list_count] are as before. *)
Theorem C_CloseSession_handles (d : driver) (h : Z) :
  let r := C_CloseSession d h in
  (CHECKSESSION d h = None -> r = (CKR_SESSION_HANDLE_INVALID, d))
  /\ (is_Some (CHECKSESSION d h) ->
      r.1 = CKR_OK /\ CHECKSESSION r.2 h = None
      /\ (forall h', handle_index h' <> handle_index h ->
            CHECKSESSION r.2 h' = CHECKSESSION d h')
      /\ C_CloseSession r.2 h = (CKR_SESSION_HANDLE_INVALID, r.2)
      /\ slot_list r.2 = slot_list d
      /\ sess_list_count r.2 = sess_list_count d).
Proof.
  intros r. split.
  { intros Hn. subst r. unfold C_CloseSession. by rewrite Hn. }
  intros [[i se] Hc].
  destruct (CHECKSESSION_Some _ _ _ _ Hc) as (Hse & Hlt & Hi).
  destruct (sess_free_frame se d) as (Hsl & Hl & Hcnt).
  set (d' := set_sess_list (<[i := None]> (sess_list (sess_free se d)))
                           (sess_list_count (sess_free se d))
                           (sess_free se d)).
  assert (r = (CKR_OK, d')) as ->.
  { subst r. unfold C_CloseSession. by rewrite Hc. }
  cbn [fst snd].
  assert (Hgone : CHECKSESSION d' h = None).
  { unfold CHECKSESSION. subst d'. cbn. rewrite Hl, Hcnt, <- Hi, Nat2Z.id.
    rewrite list_lookup_insert_eq by (by eapply lookup_lt_Some).
    by case_match. }
  split_and!; try done.
  - intros h' Hne. unfold CHECKSESSION. subst d'. cbn. rewrite Hl, Hcnt.
    pose proof (handle_index_range h').
    rewrite list_lookup_insert_ne by lia. done.
  - unfold C_CloseSession. by rewrite Hgone.
Qed.

Lemma C_CloseSession_handles_witness :
  is_Some (CHECKSESSION example_driver 1)
  /\ (C_CloseSession example_driver 1).1 = CKR_OK
  /\ CHECKSESSION (C_CloseSession example_driver 1).2 1
     = None.
Proof.
  assert (Hs : is_Some (CHECKSESSION example_driver 1))
    by (eexists; vm_compute; reflexivity).
  split; [exact Hs|].
  pose proof (C_CloseSession_handles example_driver 1)
    as Hspec.
  cbv zeta in Hspec. destruct Hspec as (_ & Hok).
  destruct (Hok Hs) as (Hrv & Hgone & _). by split.
Defined.

(** [C_CloseAllSessions] on a slot that [CHECKSLOT] refuses (no such
    slot, or no token in it) returns the code of [CHECKSLOT] and closes
    nothing. Otherwise it returns [CKR_OK]; afterwards the handle of
    every session that was open on this slot is invalid, every session
    on another slot is still open under its handle and unchanged, no
    handle has become valid, and the slot list is as before. *)
Theorem C_CloseAllSessions_spec (d : driver) (slot_id : Z) :
  let r := C_CloseAllSessions d slot_id in
  (forall rv, CHECKSLOT d slot_id true = Some rv -> r = (rv, d))
  /\ (CHECKSLOT d slot_id true = None ->
      r.1 = CKR_OK
      /\ (forall h i se,
            CHECKSESSION d h = Some (i, se) ->
            CHECKSESSION r.2 h
            = if se_slot_id se =? slot_id then None else Some (i, se))
      /\ (forall h, CHECKSESSION d h = None -> CHECKSESSION r.2 h = None)
      /\ (forall h i se,
            CHECKSESSION r.2 h = Some (i, se) -> se_slot_id se <> slot_id)
      /\ slot_list r.2 = slot_list d).
Proof.
  intros r. subst r. unfold C_CloseAllSessions. split.
  { by intros rv ->. }
  intros ->. cbn [fst snd].
  destruct (close_loop_spec slot_id (Z.to_nat (sess_list_count d)) 0 d)
    as (Hs & Hc & Hl). cbn zeta in *.
  set (d' := fold_left _ _ d) in *.
  assert (Hcheck : forall h,
            CHECKSESSION d' h
            = match CHECKSESSION d h with
              | Some (i, se) =>
                  if se_slot_id se =? slot_id then None else Some (i, se)
              | None => None
              end).
  { intros h. unfold CHECKSESSION. rewrite Hc, Hl.
    pose proof (handle_index_range h) as Hr.
    destruct (handle_index h >=? sess_list_count d) eqn:E; [done|].
    Zbool. rewrite bool_decide_eq_true_2 by lia.
    destruct (sess_list d !! Z.to_nat (handle_index h)) as [[se|]|];
      cbn; try done.
    by destruct (se_slot_id se =? slot_id). }
  split_and!; try done.
  - intros h i se Hh. by rewrite Hcheck, Hh.
  - intros h Hh. by rewrite Hcheck, Hh.
  - intros h i se. rewrite Hcheck.
    destruct (CHECKSESSION d h) as [[i' se']|]; [|done].
    destruct (se_slot_id se' =? slot_id) eqn:E; [done|].
    intros [= <- <-]. by apply Z.eqb_neq.
Qed.

Lemma C_CloseAllSessions_spec_witness :
  CHECKSLOT example_driver 0 true = None
  /\ (C_CloseAllSessions example_driver 0).1 = CKR_OK
  /\ CHECKSESSION (C_CloseAllSessions example_driver 0).2 1 = None.
Proof.
  pose proof (C_CloseAllSessions_spec example_driver 0) as Hspec.
  cbv zeta in Hspec. destruct Hspec as (_ & Hok).
  destruct (Hok eq_refl) as (Hrv & Hclosed & _).
  split; [reflexivity|]. split; [exact Hrv|].
  rewrite (Hclosed 1 0%nat example_session); [reflexivity|].
  vm_compute. reflexivity.
Defined.

(** *** Login and logout *)

Section LoginFlow.
Context `{Platform}.

Lemma login_loop_ok ctx pin ids :
  Forall (fun idp => login_auth ctx pin idp = CKR_OK) ids ->
  login_loop ctx pin ids = (CKR_OK, map (login_event ctx pin) ids).
Proof.
  induction 1 as [|idp rest Hok _ IH]; [done|].
  cbn [login_loop map]. unfold login_auth, login_usage in Hok.
  unfold login_event at 1. unfold login_usage at 1. cbv zeta.
  rewrite Hok, IH. done.
Qed.

Lemma login_loop_fail ctx pin before bad after rv :
  Forall (fun idp => login_auth ctx pin idp = CKR_OK) before ->
  login_auth ctx pin bad = rv -> rv <> CKR_OK ->
  login_loop ctx pin (before ++ bad :: after)
  = (rv, map (login_event ctx pin) (before ++ [bad])).
Proof.
  intros Hb Hbad Hrv. induction Hb as [|idp rest Hok _ IH].
  - cbn [app login_loop map]. unfold login_auth, login_usage in Hbad.
    unfold login_event, login_usage. cbv zeta. rewrite Hbad.
    by destruct rv.
  - cbn [app login_loop map]. unfold login_auth, login_usage in Hok.
    unfold login_event at 1. unfold login_usage at 1. cbv zeta.
    rewrite Hok, IH. done.
Qed.
End LoginFlow.

Section LoginEntry.
Context `{Platform}.

Lemma first_failure ctx pin ids :
  Forall (fun idp => login_auth ctx pin idp = CKR_OK) ids
  \/ exists before bad after,
       ids = before ++ bad :: after
       /\ Forall (fun idp => login_auth ctx pin idp = CKR_OK) before
       /\ login_auth ctx pin bad <> CKR_OK.
Proof.
  induction ids as [|idp rest IH]; [by left|].
  destruct (decide (login_auth ctx pin idp = CKR_OK)) as [Hok|Hbad].
  - destruct IH as [Hall|(before & bad & after & -> & Hb & Hbad)].
    + left. by constructor.
    + right. exists (idp :: before), bad, after.
      split_and!; [done|by constructor|done].
  - right. exists [], idp, rest. split_and!; [done|constructor|done].
Qed.

(** [C_Login] with a PIN on a token that has a local-authentication
    context authenticates the identities of the token in order, each
    with [USAGE_SIGN] when its private key can sign and
    [USAGE_DECRYPT] otherwise. When all succeed it returns [CKR_OK]
    and sets the token's logged-in flag. At the first failure it
    returns the code of that failure, does not try the identities
    after it, and leaves the tokens, and so the logged-in flag, as
    they were. *)
Theorem C_Login_with_pin (d : driver) (h usertype : Z) (i : nat)
    (se : session) (a : addr) (token : slot_entry) (ctx : LAContext)
    (pin : list byte) :
  CHECKSESSION d h = Some (i, se) ->
  se_token se = Some a ->
  tokens d !! a = Some token ->
  tok_lacontext token = Some ctx ->
  let r := C_Login d h usertype (Some pin) in
  let ids := tok_id_list token in
  let ok := fun idp => login_auth ctx pin idp = CKR_OK in
  (Forall ok ids ->
   r = (CKR_OK,
        log_events (map (login_event ctx pin) ids)
          (set_tokens (<[a := set_logged_in true token]> (tokens d)) d)))
  /\ (forall before bad after,
        ids = before ++ bad :: after -> Forall ok before -> ~ ok bad ->
        r = (login_auth ctx pin bad,
             log_events (map (login_event ctx pin) (before ++ [bad])) d))
  /\ (r.1 = CKR_OK <-> Forall ok ids)
  /\ (r.1 <> CKR_OK -> tokens r.2 = tokens d).
Proof.
  intros Hc Ht Ha Hctx r ids ok.
  assert (Hr : r = match login_loop ctx pin ids with
                   | (CKR_OK, evs) =>
                       (CKR_OK,
                        log_events evs
                          (set_tokens
                             (<[a := set_logged_in true token]>
                                (tokens d)) d))
                   | (rv, evs) => (rv, log_events evs d)
                   end).
  { subst r. unfold C_Login. by rewrite Hc, Ht, Ha, Hctx. }
  assert (Hall : Forall ok ids ->
            r = (CKR_OK,
                 log_events (map (login_event ctx pin) ids)
                   (set_tokens
                      (<[a := set_logged_in true token]> (tokens d)) d))).
  { intros Hok. by rewrite Hr, (login_loop_ok ctx pin ids Hok). }
  assert (Hfail : forall before bad after,
            ids = before ++ bad :: after -> Forall ok before ->
            ~ ok bad ->
            r = (login_auth ctx pin bad,
                 log_events (map (login_event ctx pin) (before ++ [bad]))
                            d)).
  { intros before bad after Hids Hb Hbad. rewrite Hr, Hids.
    rewrite (login_loop_fail ctx pin before bad after _ Hb eq_refl Hbad).
    unfold ok in Hbad. by destruct (login_auth ctx pin bad). }
  split; [exact Hall|]. split; [exact Hfail|].
  destruct (first_failure ctx pin ids)
    as [Hok|(before & bad & after & Hids & Hb & Hbad)].
  - rewrite (Hall Hok). by split.
  - rewrite (Hfail before bad after Hids Hb Hbad). cbn [fst snd].
    split; [|done]. split; [done|].
    intros Hok. exfalso. rewrite Hids in Hok.
    apply Forall_app in Hok as [_ Hok]. by apply Forall_cons in Hok as [? _].
Qed.

(** The login state belongs to the token, and [C_Logout] discards the
    token's local-authentication context. After a [C_Logout] through
    one session of a token, [C_GetSessionInfo] reports
    [CKS_RO_PUBLIC_SESSION] for every session of that token, and a
    later [C_Login] with a PIN through any of them returns [CKR_OK]
    without authenticating and without logging in: the driver is
    unchanged and the sessions stay public. A [C_Login] with a null
    PIN sets the logged-in flag without any call to the
    authentication primitive, and every session of the token then
    reports [CKS_RO_USER_FUNCTIONS]. *)
Theorem C_Logout_then_Login (d : driver) (h1 h2 usertype : Z)
    (i1 i2 : nat) (se1 se2 : session) (a : addr) (token : slot_entry) :
  CHECKSESSION d h1 = Some (i1, se1) -> se_token se1 = Some a ->
  CHECKSESSION d h2 = Some (i2, se2) -> se_token se2 = Some a ->
  tokens d !! a = Some token ->
  let public :=
    (CKR_OK,
     Some {| slotID := se_slot_id se2;
             info_state := CKS_RO_PUBLIC_SESSION;
             info_flags := CKF_SERIAL_SESSION; ulDeviceError := 0 |}) in
  let user :=
    (CKR_OK,
     Some {| slotID := se_slot_id se2;
             info_state := CKS_RO_USER_FUNCTIONS;
             info_flags := CKF_SERIAL_SESSION; ulDeviceError := 0 |}) in
  let d1 := (C_Logout d h1).2 in
  let d2 := (C_Login d h1 usertype None).2 in
  (C_Logout d h1).1 = CKR_OK
  /\ C_GetSessionInfo d1 h2 true = public
  /\ (forall pin, C_Login d1 h2 usertype (Some pin) = (CKR_OK, d1))
  /\ la_trace d1
     = la_trace d ++ match tok_lacontext token with
                     | Some ctx => [la_logout ctx]
                     | None => []
                     end
  /\ (C_Login d h1 usertype None).1 = CKR_OK
  /\ la_trace d2 = la_trace d
  /\ C_GetSessionInfo d2 h2 true = user.
Proof.
  intros Hc1 Ht1 Hc2 Ht2 Ha public user d1 d2.
  assert (Hd1 : C_Logout d h1
                = (CKR_OK,
                   log_events (token_logout token).2
                     (set_tokens (<[a := (token_logout token).1]>
                                    (tokens d)) d))).
  { unfold C_Logout. rewrite Hc1, Ht1, Ha.
    by destruct (token_logout token). }
  assert (Hd2 : C_Login d h1 usertype None
                = (CKR_OK,
                   set_tokens (<[a := set_logged_in true token]>
                                 (tokens d)) d)).
  { unfold C_Login. by rewrite Hc1, Ht1, Ha. }
  subst d1 d2. rewrite Hd1, Hd2. cbn [fst snd].
  set (d1 := log_events _ _). set (d2 := set_tokens _ d).
  assert (Hs1 : CHECKSESSION d1 h2 = Some (i2, se2))
    by (rewrite <- Hc2; reflexivity).
  assert (Hs2 : CHECKSESSION d2 h2 = Some (i2, se2))
    by (rewrite <- Hc2; reflexivity).
  assert (Ha1 : tokens d1 !! a = Some (token_logout token).1).
  { subst d1. cbn. apply lookup_insert_eq. }
  assert (Ha2 : tokens d2 !! a = Some (set_logged_in true token)).
  { subst d2. cbn. apply lookup_insert_eq. }
  assert (Hout : tok_logged_in (token_logout token).1 = false
                 /\ tok_lacontext (token_logout token).1 = None).
  { unfold token_logout.
    destruct (tok_lacontext token) eqn:E; cbn; by rewrite ?E. }
  destruct Hout as [Hflag Hnoctx].
  split_and!; try done.
  - unfold C_GetSessionInfo. by rewrite Hs1, Ht2, Ha1, Hflag.
  - intros pin. unfold C_Login. by rewrite Hs1, Ht2, Ha1, Hnoctx.
  - subst d1. cbn. unfold token_logout.
    by destruct (tok_lacontext token).
  - unfold C_GetSessionInfo. by rewrite Hs2, Ht2, Ha2.
Qed.
End LoginEntry.

Lemma C_Login_with_pin_witness :
  CHECKSESSION example_login_driver 1 = Some (0%nat, example_session)
  /\ tokens example_login_driver !! 0%nat
     = Some (set_lacontext (Some 9) example_token)
  /\ (@C_Login example_pin_platform example_login_driver 1 1
        (Some [Byte.x32])).1 = CKR_PIN_INCORRECT
  /\ tokens (@C_Login example_pin_platform example_login_driver 1 1
               (Some [Byte.x32])).2
     = tokens example_login_driver.
Proof.
  assert (Hc : CHECKSESSION example_login_driver 1
               = Some (0%nat, example_session)) by (vm_compute; reflexivity).
  assert (Ht : tokens example_login_driver !! 0%nat
               = Some (set_lacontext (Some 9) example_token))
    by (vm_compute; reflexivity).
  split; [exact Hc|]. split; [exact Ht|].
  pose proof (@C_Login_with_pin example_pin_platform example_login_driver
                1 1 0%nat example_session 0%nat
                (set_lacontext (Some 9) example_token) 9 [Byte.x32]
                Hc eq_refl Ht eq_refl) as Hspec.
  cbv zeta in Hspec. destruct Hspec as (_ & Hfail & _ & Hkeep).
  assert (Hrv : (@C_Login example_pin_platform example_login_driver 1 1
                   (Some [Byte.x32])).1 = CKR_PIN_INCORRECT).
  { rewrite (Hfail [] example_identity [example_identity]);
      [reflexivity|reflexivity|constructor|by vm_compute]. }
  split; [exact Hrv|]. apply Hkeep. by rewrite Hrv.
Defined.

Lemma C_Logout_then_Login_witness :
  CHECKSESSION example_login_driver 1 = Some (0%nat, example_session)
  /\ tokens example_login_driver !! 0%nat
     = Some (set_lacontext (Some 9) example_token)
  /\ @C_Login example_pin_platform
       (C_Logout example_login_driver 1).2 1 1 (Some [Byte.x31])
     = (CKR_OK, (C_Logout example_login_driver 1).2)
  /\ la_trace (C_Logout example_login_driver 1).2 = [la_logout 9].
Proof.
  assert (Hc : CHECKSESSION example_login_driver 1
               = Some (0%nat, example_session)) by (vm_compute; reflexivity).
  assert (Ht : tokens example_login_driver !! 0%nat
               = Some (set_lacontext (Some 9) example_token))
    by (vm_compute; reflexivity).
  split; [exact Hc|]. split; [exact Ht|].
  pose proof (@C_Logout_then_Login example_pin_platform example_login_driver
                1 1 1 0%nat 0%nat example_session example_session 0%nat
                (set_lacontext (Some 9) example_token)
                Hc eq_refl Hc eq_refl Ht) as Hspec.
  cbv zeta in Hspec. destruct Hspec as (_ & _ & Hlogin & Htrace & _).
  split; [apply Hlogin|exact Htrace].
Defined.

(** *** The operation state machine as a whole *)

Section StateMachine.
Context `{Platform}.

Lemma run_op_FindObjects se object maxcount rv se' :
  match C_FindObjects se object maxcount with
  | Some r => Some r.1
  | None => None
  end = Some (rv, se') ->
  se' = se \/ exists idx, se' = set_search idx (se_search_attrs se) se.
Proof.
  destruct (C_FindObjects se object maxcount) as [[[rv0 se0] found]|]
    eqn:Hf; [|done].
  intros [= <- <-]. by eapply C_FindObjects_frame.
Qed.

Lemma init_while_pending op se rv se' :
  run_op op se = Some (rv, se') -> is_init op = true ->
  se_state se <> NO_PENDING -> se' = se /\ rv <> CKR_OK.
Proof.
  destruct op; try done; cbn [run_op]; intros [= Hrun] _ Hs; revert Hrun.
  - unfold C_EncryptInit.
    rewrite bool_decide_eq_false_2 by done.
    repeat case_match; by intros [= <- <-].
  - unfold C_DecryptInit.
    rewrite bool_decide_eq_false_2 by done.
    repeat case_match; by intros [= <- <-].
  - unfold C_SignInit. rewrite bool_decide_eq_false_2 by done.
    by intros [= <- <-].
  - unfold C_VerifyInit. rewrite bool_decide_eq_false_2 by done.
    by intros [= <- <-].
Qed.

Lemma call_in_wrong_state op se rv se' sts :
  run_op op se = Some (rv, se') -> accepted_states op = Some sts ->
  se_state se ∉ sts -> se' = se /\ rv = CKR_OPERATION_NOT_INITIALIZED.
Proof.
  destruct op; try done; cbn [run_op accepted_states];
    intros Hrun [= <-] Hs; revert Hrun;
    rewrite ?elem_of_cons in Hs;
    unfold C_Encrypt, C_Decrypt, C_Sign, C_SignUpdate, C_SignFinal,
      C_Verify, C_VerifyUpdate, C_VerifyFinal, multipart_update;
    repeat rewrite bool_decide_eq_false_2 by naive_solver;
    cbn; by intros [= <- <-].
Qed.

Lemma run_op_transition op se rv se' :
  run_op op se = Some (rv, se') ->
  transition (se_state se) op rv (se_state se').
Proof.
  intros Hrun. destruct op; cbn [run_op] in Hrun.
  3: { left. by destruct (run_op_FindObjects _ _ _ _ _ Hrun) as [->|[? ->]]. }
  all: destruct (se_state se) eqn:Hst; revert Hrun;
    unfold C_GetAttributeValue, C_FindObjectsInit,
      C_FindObjectsFinal, C_EncryptInit, C_DecryptInit, C_SignInit,
      C_VerifyInit, C_Encrypt, C_Decrypt, C_Sign, C_SignUpdate,
      C_SignFinal, C_Verify, C_VerifyUpdate, C_VerifyFinal,
      multipart_update, single_shot;
    rewrite ?Hst;
    repeat (first [rewrite bool_decide_eq_true_2 by done
                  |rewrite bool_decide_eq_false_2 by done]);
    cbn [negb andb];
    repeat case_match; intros [= <- <-]; unfold transition;
    cbn; rewrite ?Hst; naive_solver.
Qed.

Lemma run_op_V_UPDATE op se rv se' :
  se_state se = V_UPDATE -> run_op op se = Some (rv, se') ->
  se_state se' = V_UPDATE /\ se_key se' = se_key se
  /\ se_dalg se' = se_dalg se.
Proof.
  intros Hst Hrun. destruct op; cbn [run_op] in Hrun.
  3: { by destruct (run_op_FindObjects _ _ _ _ _ Hrun) as [->|[? ->]]. }
  all: revert Hrun;
    unfold C_GetAttributeValue, C_FindObjectsInit,
      C_FindObjectsFinal, C_EncryptInit, C_DecryptInit, C_SignInit,
      C_VerifyInit, C_Encrypt, C_Decrypt, C_Sign, C_SignUpdate,
      C_SignFinal, C_Verify, C_VerifyUpdate, C_VerifyFinal,
      multipart_update, single_shot;
    rewrite ?Hst;
    repeat (first [rewrite bool_decide_eq_true_2 by done
                  |rewrite bool_decide_eq_false_2 by done]);
    cbn [negb andb];
    repeat case_match; by intros [= <- <-].
Qed.

(** The operation state machine that the entry points of a session
    implement. Every call moves the state along [transition] or leaves
    it alone. While an operation is pending, each of the four [*-init]
    calls fails and leaves the session as it was. A single-shot,
    update or final call made in a state other than those it accepts
    returns [CKR_OPERATION_NOT_INITIALIZED] and leaves the session as
    it was. The states [E_UPDATE] and [D_UPDATE] are never entered. *)
Theorem operation_state_machine (op : session_op) (se se' : session)
    (rv : CK_RV) :
  run_op op se = Some (rv, se') ->
  transition (se_state se) op rv (se_state se')
  /\ (is_init op = true -> se_state se <> NO_PENDING ->
      se' = se /\ rv <> CKR_OK)
  /\ (forall sts, accepted_states op = Some sts -> se_state se ∉ sts ->
        se' = se /\ rv = CKR_OPERATION_NOT_INITIALIZED)
  /\ (se_state se' = E_UPDATE -> se_state se = E_UPDATE)
  /\ (se_state se' = D_UPDATE -> se_state se = D_UPDATE).
Proof.
  intros Hrun. pose proof (run_op_transition _ _ _ _ Hrun) as Ht.
  split_and!.
  - exact Ht.
  - intros. by eapply init_while_pending.
  - intros. by eapply call_in_wrong_state.
  - intros Hs'. destruct Ht as [Heq|Ht]; [congruence|].
    rewrite Hs' in Ht. destruct op, (se_state se); try done;
      repeat case_match; try done; intuition congruence.
  - intros Hs'. destruct Ht as [Heq|Ht]; [congruence|].
    rewrite Hs' in Ht. destruct op, (se_state se); try done;
      repeat case_match; try done; intuition congruence.
Qed.

(** [C_VerifyFinal] leaves the session in [V_UPDATE], and no call on
    the session leads out of that state: after any sequence of calls
    the state is still [V_UPDATE] and the session still holds the
    verification key and algorithm, and no [*-init] succeeds. Only
    closing the session ends the operation. *)
Theorem V_UPDATE_is_final (se : session) :
  se_state se = V_UPDATE ->
  (forall sig, se_state (C_VerifyFinal se sig).2 = V_UPDATE)
  /\ (forall ops se',
        run_ops ops se = Some se' ->
        se_state se' = V_UPDATE /\ se_key se' = se_key se
        /\ se_dalg se' = se_dalg se)
  /\ (forall ops se' op rv se'',
        run_ops ops se = Some se' -> is_init op = true ->
        run_op op se' = Some (rv, se'') -> rv <> CKR_OK).
Proof.
  intros Hst.
  assert (Hall : forall ops se',
            run_ops ops se = Some se' ->
            se_state se' = V_UPDATE /\ se_key se' = se_key se
            /\ se_dalg se' = se_dalg se).
  { intros ops. revert se Hst.
    induction ops as [|op rest IH]; intros se Hst se'; cbn [run_ops].
    - by intros [= <-].
    - destruct (run_op op se) as [[rv se1]|] eqn:Hop; [|done].
      destruct (run_op_V_UPDATE _ _ _ _ Hst Hop) as (Hs1 & Hk1 & Hd1).
      intros Hrest. destruct (IH se1 Hs1 se' Hrest) as (? & ? & ?).
      split_and!; congruence. }
  split_and!.
  - intros sig. destruct (C_VerifyFinal se sig) as [rv se'] eqn:Hf.
    apply (run_op_V_UPDATE (OpVerifyFinal sig) se rv se' Hst).
    cbn [run_op]. by rewrite Hf.
  - exact Hall.
  - intros ops se' op rv se'' Hops Hinit Hop.
    destruct (Hall ops se' Hops) as (Hs' & _).
    eapply init_while_pending; [exact Hop|exact Hinit|]. by rewrite Hs'.
Qed.
End StateMachine.

Lemma operation_state_machine_witness :
  @run_op example_platform (OpSignInit example_mechanism 3) example_session
  = Some (CKR_OK,
          (@C_SignInit example_platform example_session
             example_mechanism 3).2)
  /\ transition NO_PENDING (OpSignInit example_mechanism 3) CKR_OK S_INIT.
Proof.
  assert (Hrun : @run_op example_platform (OpSignInit example_mechanism 3)
                   example_session
                 = Some (CKR_OK,
                         (@C_SignInit example_platform example_session
                            example_mechanism 3).2))
    by (vm_compute; reflexivity).
  split; [exact Hrun|].
  destruct (@operation_state_machine example_platform _ _ _ _ Hrun)
    as (Ht & _).
  exact Ht.
Defined.

Lemma V_UPDATE_is_final_witness :
  se_state example_verifying_session = V_UPDATE
  /\ se_state (@C_VerifyFinal example_platform example_verifying_session
                 [Byte.x41]).2 = V_UPDATE
  /\ (@C_VerifyInit example_platform
        (@C_VerifyFinal example_platform example_verifying_session
           [Byte.x41]).2 example_pss 2).1 <> CKR_OK.
Proof.
  assert (Hst : se_state example_verifying_session = V_UPDATE)
    by (vm_compute; reflexivity).
  split; [exact Hst|].
  destruct (@V_UPDATE_is_final example_platform example_verifying_session
              Hst) as (Hfinal & _ & Hinit).
  split; [apply Hfinal|].
  apply (Hinit [OpVerifyFinal [Byte.x41]]
           (@C_VerifyFinal example_platform example_verifying_session
              [Byte.x41]).2
           (OpVerifyInit example_pss 2)
           _
           (@C_VerifyInit example_platform
              (@C_VerifyFinal example_platform example_verifying_session
                 [Byte.x41]).2 example_pss 2).2);
    [vm_compute; reflexivity|reflexivity|vm_compute; reflexivity].
Defined.

(** *** Searching and reading objects *)

Lemma find_attribute_in_NoDup attrs a :
  NoDup (map type attrs) -> a ∈ attrs ->
  find_attribute_in attrs (type a) = Some a.
Proof.
  induction attrs as [|b rest IH]; [by intros _ ?%elem_of_nil|].
  cbn [map find_attribute_in]. intros [Hb Hnd]%NoDup_cons Hin.
  apply elem_of_cons in Hin as [->|Hin].
  - by rewrite Z.eqb_refl.
  - destruct (type b =? type a) eqn:E; [|by apply IH].
    apply Z.eqb_eq in E. exfalso. apply Hb. rewrite E.
    by apply list_elem_of_fmap_2.
Qed.

Lemma find_attribute_in_elem attrs ty a :
  find_attribute_in attrs ty = Some a -> a ∈ attrs.
Proof.
  induction attrs as [|b rest IH]; [done|]. cbn [find_attribute_in].
  destruct (type b =? ty).
  - intros [= ->]. apply list_elem_of_here.
  - intros Hr. apply list_elem_of_further. by apply IH.
Qed.

Lemma object_at_lookup se (i : nat) obj :
  Z.of_nat (length (se_obj_list se)) < 2 ^ 32 ->
  se_obj_list se !! i = Some obj ->
  object_at se (Z.of_nat i + 1) = Some obj.
Proof.
  intros Hlen Hi. pose proof (lookup_lt_Some _ _ _ Hi) as Hlt.
  unfold object_at. rewrite handle_index_succ by lia.
  destruct (Z.of_nat i >=? _) eqn:E; Zbool; [lia|].
  by rewrite Nat2Z.id.
Qed.

(** Every object a search returns has the attributes searched for:
    for a handle found by [C_FindObjects] after [C_FindObjectsInit] with
    a template, [C_GetAttributeValue] on that handle answers, for each
    entry of the template, [CKR_OK] with the length of the entry when
    asked for the length, and [CKR_OK] with the value of the entry when
    given a buffer of that length. *)
Theorem found_objects_have_attributes (se se0 : session)
    (template : list CK_ATTRIBUTE) (rv : CK_RV) (maxcounts : list Z)
    (h : Z) :
  Forall obj_ok (se_obj_list se) ->
  Z.of_nat (length (se_obj_list se)) < 2 ^ 32 ->
  Forall (fun t => 0 <= ulValueLen t) template ->
  C_FindObjectsInit se template = Some (rv, se0) ->
  Forall (fun m => 0 < m) maxcounts ->
  h ∈ find_repeatedly se0 maxcounts ->
  is_Some (object_at se h)
  /\ forall t, t ∈ template ->
       C_GetAttributeValue se h
         [{| type := type t; pValue := None; ulValueLen := 0 |}]
       = ([{| type := type t; pValue := None;
              ulValueLen := ulValueLen t |}], CKR_OK)
       /\ forall buf,
            ulValueLen t <> CK_UNAVAILABLE_INFORMATION ->
            Z.of_nat (length buf) = ulValueLen t ->
            C_GetAttributeValue se h
              [{| type := type t; pValue := Some buf;
                  ulValueLen := ulValueLen t |}]
            = ([{| type := type t;
                   pValue := Some (take (Z.to_nat (ulValueLen t))
                                        (bytes_at (pValue t)));
                   ulValueLen := ulValueLen t |}], CKR_OK).
Proof.
  intros Hok Hlen Hpos Hinit Hmax Hin.
  destruct (C_FindObjectsInit_frame se template rv se0 Hinit)
    as (_ & Hcopy & Hse).
  set (attrs := se_search_attrs se0) in *.
  assert (Hwf : Forall attr_wf attrs).
  { unfold C_FindObjectsInit in Hinit.
    destruct (copy_search_attrs template) as [a|] eqn:Hc; [|done].
    injection Hinit as <- <-. by eapply copy_search_attrs_wf. }
  rewrite find_repeatedly_spec in Hin by (by rewrite ?Hse).
  apply elem_of_take in Hin as (k & Hk & _).
  apply list_elem_of_lookup_2 in Hk. unfold remaining in Hk.
  rewrite Hse in Hk. cbn in Hk.
  apply matching_from_spec in Hk as (i & obj & Hi & -> & Hsearch).
  assert (Hobj : object_at se (0 + Z.of_nat i + 1) = Some obj).
  { rewrite Z.add_0_l. by apply object_at_lookup. }
  split; [by eexists|].
  assert (Hobj_ok : obj_ok obj).
  { rewrite Forall_forall in Hok. apply Hok.
    by eapply list_elem_of_lookup_2. }
  pose proof (proj1 (search_object_spec obj attrs Hobj_ok Hwf) Hsearch)
    as Hocc.
  intros t Ht.
  apply list_elem_of_lookup_1 in Ht as [j Hj].
  destruct (Forall2_lookup_l _ _ _ _ _ Hcopy Hj) as (t' & Hj' & Hcp).
  destruct (Hocc t' ltac:(by eapply list_elem_of_lookup_2))
    as (a & Ha & Hty & Hl & Hv).
  destruct Hcp as (Hty' & Hl' & Hv').
  destruct Hobj_ok as [Hnd Hawf].
  assert (Hfind : find_attribute obj (type t) = Some a).
  { rewrite <- Hty', <- Hty. by apply find_attribute_in_NoDup. }
  assert (Hone : forall e,
            get_attribute_loop obj [e] CKR_OK
            = ([(get_attribute_entry obj e CKR_OK).1],
               (get_attribute_entry obj e CKR_OK).2)).
  { intros e. cbn [get_attribute_loop].
    by destruct (get_attribute_entry obj e CKR_OK). }
  unfold C_GetAttributeValue. rewrite Hobj, !Hone.
  unfold get_attribute_entry. cbn [type pValue ulValueLen].
  rewrite Hfind. cbn [fst snd]. split.
  - by rewrite Hl, Hl'.
  - intros buf Hne Hbuf. rewrite Hone.
    unfold get_attribute_entry. cbn [type pValue ulValueLen].
    rewrite Hfind, Hl, Hl', Z.ltb_irrefl. cbn [fst snd].
    do 3 f_equal. rewrite Hv, Hv'.
    rewrite (proj2 (Z.eqb_neq _ _) Hne). cbn [bytes_at].
    unfold memcpy. rewrite drop_ge by lia. rewrite app_nil_r.
    by rewrite take_take, Nat.min_id.
Qed.

Lemma found_objects_have_attributes_witness :
  Forall obj_ok (se_obj_list example_session)
  /\ Z.of_nat (length (se_obj_list example_session)) < 2 ^ 32
  /\ C_GetAttributeValue example_session 6
       [{| type := CKA_CLASS; pValue := None; ulValueLen := 0 |}]
     = ([{| type := CKA_CLASS; pValue := None; ulValueLen := 8 |}], CKR_OK).
Proof.
  assert (Hok : Forall obj_ok (se_obj_list example_session)).
  { apply (@build_id_objects_ok example_platform). }
  assert (Hlen : Z.of_nat (length (se_obj_list example_session)) < 2 ^ 32)
    by (by vm_compute).
  split; [exact Hok|]. split; [exact Hlen|].
  destruct (C_FindObjectsInit example_session example_template)
    as [[rv se0]|] eqn:Hinit; [|by vm_compute in Hinit].
  destruct (found_objects_have_attributes example_session se0
              example_template rv [1; 1] 6 Hok Hlen) as [_ Hattr].
  - apply Forall_cons_2; [by vm_compute|apply Forall_nil_2].
  - exact Hinit.
  - repeat (apply Forall_cons_2; [lia|]). apply Forall_nil_2.
  - vm_compute in Hinit. injection Hinit as <- <-. vm_compute.
    apply elem_of_cons. right. apply list_elem_of_here.
  - destruct (Hattr {| type := CKA_CLASS;
                       pValue := Some (le_bytes 8 CKO_PRIVATE_KEY);
                       ulValueLen := 8 |}) as [Hprobe _].
    + apply list_elem_of_here.
    + exact Hprobe.
Defined.

Lemma matching_from_app l1 l2 idx attrs :
  matching_from (l1 ++ l2) idx attrs
  = matching_from l1 idx attrs
    ++ matching_from l2 (idx + Z.of_nat (length l1)) attrs.
Proof.
  revert idx. induction l1 as [|o rest IH]; intros idx.
  - cbn. by rewrite Z.add_0_r.
  - cbn [app matching_from length]. rewrite IH.
    replace (idx + 1 + Z.of_nat (length rest))
      with (idx + Z.of_nat (S (length rest))) by lia.
    by destruct (bool_decide (search_object o attrs = Some true)).
Qed.

Lemma id_attribute_wf bs : attr_wf (id_attribute bs).
Proof. reflexivity. Qed.

Lemma search_by_id obj k target :
  obj_ok obj ->
  find_attribute obj CKA_ID = Some (id_attribute (get_index_bytes k)) ->
  0 <= k < 2 ^ 32 -> 0 <= target < 2 ^ 32 ->
  search_object obj [id_attribute (get_index_bytes target)]
  = Some (bool_decide (k = target)).
Proof.
  intros [Hnd Hwf] Hfind Hk Ht.
  assert (Hin : id_attribute (get_index_bytes k) ∈ obj_attrs obj)
    by (by eapply find_attribute_in_elem).
  cbn [search_object].
  destruct (decide (k = target)) as [->|Hne].
  - rewrite bool_decide_eq_true_2 by done.
    rewrite (search_attribute_occurs _ _ _ Hnd Hwf (id_attribute_wf _) Hin);
      done.
  - rewrite bool_decide_eq_false_2 by done.
    destruct (search_attribute_defined (obj_attrs obj)
                (id_attribute (get_index_bytes target)) Hwf) as [b Hs].
    rewrite Hs. destruct b; [|done]. exfalso.
    apply search_attribute_true in Hs as (a & Ha & Hty & _ & Hv);
      [|done|apply id_attribute_wf].
    pose proof (find_attribute_in_NoDup _ _ Hnd Ha) as Hfa.
    cbn [type id_attribute] in Hty. rewrite Hty in Hfa.
    unfold find_attribute in Hfind. rewrite Hfind in Hfa.
    injection Hfa as <-. cbn [pValue id_attribute] in Hv.
    injection Hv as Hv. apply Hne.
    rewrite <- (get_index_bytes_value k), <- (get_index_bytes_value target)
      by done.
    by rewrite Hv.
Qed.

Section FindById.
Context `{Platform}.

Lemma build_id_objects_body_matching k idp idx target :
  0 <= k < 2 ^ 32 -> 0 <= target < 2 ^ 32 ->
  matching_from (build_id_objects_body k idp) idx
                [id_attribute (get_index_bytes target)]
  = if bool_decide (k = target) then [idx + 1; idx + 1 + 1; idx + 1 + 1 + 1]
    else [].
Proof.
  intros Hk Ht.
  pose proof (build_id_objects_body_ok k idp) as Hok.
  unfold build_id_objects_body in *.
  destruct (get_certificate_info _) as [[serial issuer] subject].
  apply Forall_cons in Hok as [Hc Hok].
  apply Forall_cons in Hok as [Hp Hok].
  apply Forall_cons in Hok as [Hv _].
  cbn [matching_from].
  rewrite (search_by_id _ k target Hc (certificate_object_id _ _ _ _ _));
    [|done..].
  rewrite (search_by_id _ k target Hp (public_key_object_id _ _ _ _));
    [|done..].
  rewrite (search_by_id _ k target Hv (private_key_object_id _ _ _ _));
    [|done..].
  by destruct (bool_decide (k = target)).
Qed.

Lemma build_id_objects_loop_matching ids k idx target :
  0 <= k -> k + Z.of_nat (length ids) <= 2 ^ 32 ->
  0 <= target < 2 ^ 32 ->
  matching_from (build_id_objects_loop k ids []) idx
                [id_attribute (get_index_bytes target)]
  = if bool_decide (k <= target < k + Z.of_nat (length ids))
    then [idx + 3 * (target - k) + 1; idx + 3 * (target - k) + 2;
          idx + 3 * (target - k) + 3]
    else [].
Proof.
  revert k idx. induction ids as [|idp rest IH]; intros k idx Hk Hlen Ht.
  - cbn. by rewrite bool_decide_eq_false_2 by lia.
  - cbn [build_id_objects_loop length] in *.
    rewrite build_id_objects_loop_app, app_nil_l, matching_from_app.
    rewrite build_id_objects_body_matching by lia.
    rewrite build_id_objects_body_length.
    rewrite IH by lia.
    destruct (decide (k = target)) as [->|Hne].
    + rewrite bool_decide_eq_true_2 by done.
      rewrite bool_decide_eq_false_2 by lia.
      rewrite bool_decide_eq_true_2 by lia.
      rewrite app_nil_r. f_equal; [lia|]. f_equal; [lia|]. f_equal. lia.
    + rewrite bool_decide_eq_false_2 by done. cbn [app].
      destruct (decide (k + 1 <= target
                        < k + 1 + Z.of_nat (length rest))) as [Hin|Hout].
      * rewrite !bool_decide_eq_true_2 by lia.
        f_equal; [lia|]. f_equal; [lia|]. f_equal. lia.
      * by rewrite !bool_decide_eq_false_2 by lia.
Qed.

Lemma matching_by_CKA_ID (ids : list id_info) (i : Z) :
  Z.of_nat (length ids) <= 2 ^ 32 -> 0 <= i < 2 ^ 32 ->
  matching_from (build_id_objects ids) 0
                [id_attribute (get_index_bytes i)]
  = if bool_decide (i < Z.of_nat (length ids))
    then [3 * i + 1; 3 * i + 2; 3 * i + 3] else [].
Proof.
  intros Hlen Hi. unfold build_id_objects.
  rewrite build_id_objects_loop_matching by lia.
  destruct (decide (i < Z.of_nat (length ids))).
  - rewrite !bool_decide_eq_true_2 by lia.
    f_equal; [lia|]. f_equal; [lia|]. f_equal. lia.
  - by rewrite !bool_decide_eq_false_2 by lia.
Qed.

Lemma copy_id_attribute (i : Z) :
  0 <= i < 2 ^ 32 ->
  copy_search_attrs [id_attribute (get_index_bytes i)]
  = Some [id_attribute (get_index_bytes i)].
Proof.
  intros Hi. cbn [copy_search_attrs]. unfold copy_search_attr, read_bytes.
  cbn [id_attribute ulValueLen pValue type bytes_at].
  assert (Hlen : (length (get_index_bytes i) <= 4)%nat).
  { rewrite get_index_bytes_length, index_length_4 by done.
    repeat case_match; lia. }
  destruct (_ =? CK_UNAVAILABLE_INFORMATION) eqn:E.
  { apply Z.eqb_eq in E. vm_compute (CK_UNAVAILABLE_INFORMATION) in E. lia. }
  rewrite Z.ltb_irrefl. by rewrite Nat2Z.id, firstn_all.
Qed.

(** A search by [CKA_ID] over the objects of a token finds the three
    objects of one identity and nothing else. On a session whose
    objects were built from the identities [ids],
    [C_FindObjectsInit] with the identifier of identity number [i]
    followed by [C_FindObjects] returns the first [maxcount] of the
    handles [3 i + 1], [3 i + 2] and [3 i + 3], the certificate, the
    public key and the private key in this order; for a number that
    no identity has it returns no handle. *)
Theorem search_by_CKA_ID (se : session) (ids : list id_info)
    (i maxcount : Z) :
  se_obj_list se = build_id_objects ids ->
  Z.of_nat (length ids) <= 2 ^ 32 -> 0 <= i < 2 ^ 32 -> 0 < maxcount ->
  exists se0 se1,
    C_FindObjectsInit se [id_attribute (get_index_bytes i)]
    = Some (CKR_OK, se0)
    /\ C_FindObjects se0 true maxcount
       = Some (CKR_OK, se1,
               take (Z.to_nat maxcount)
                 (if bool_decide (i < Z.of_nat (length ids))
                  then [3 * i + 1; 3 * i + 2; 3 * i + 3] else [])).
Proof.
  intros Hobjs Hlen Hi Hmax.
  set (se0 := set_search 0 [id_attribute (get_index_bytes i)] se).
  assert (Hok : Forall obj_ok (se_obj_list se0)).
  { subst se0. cbn. rewrite Hobjs. apply build_id_objects_ok. }
  destruct (C_FindObjects_spec se0 maxcount Hok ltac:(done) Hmax)
    as ([[rv1 se1] found] & Hf & Hrv & Hfound & _).
  cbn [fst snd] in Hrv, Hfound. subst rv1.
  exists se0, se1. split.
  { unfold C_FindObjectsInit. by rewrite copy_id_attribute. }
  rewrite Hf. do 2 f_equal. rewrite Hfound. unfold remaining. subst se0.
  cbn [se_obj_search_index se_obj_list se_search_attrs set_search].
  change (Z.to_nat 0) with 0%nat. rewrite drop_0, Hobjs.
  by rewrite matching_by_CKA_ID.
Qed.
End FindById.

Lemma search_by_CKA_ID_witness :
  se_obj_list example_session
  = @build_id_objects example_platform [example_identity; example_identity]
  /\ exists se0 se1,
      C_FindObjectsInit example_session [id_attribute [Byte.x01]]
      = Some (CKR_OK, se0)
      /\ C_FindObjects se0 true 2 = Some (CKR_OK, se1, [4; 5]).
Proof.
  split; [reflexivity|].
  destruct (@search_by_CKA_ID example_platform example_session
              [example_identity; example_identity] 1 2 eq_refl)
    as (se0 & se1 & Hinit & Hfound); [by vm_compute|lia|lia|].
  exists se0, se1. split; [exact Hinit|exact Hfound].
Defined.

(** *** Handles out of range *)

Lemma handle_index_cases h :
  0 <= h < 2 ^ 64 ->
  (h = 0 /\ handle_index h = 2 ^ 64 - 1)
  \/ (1 <= h /\ handle_index h = h - 1).
Proof.
  intros Hh. unfold handle_index. destruct (decide (h = 0)) as [->|Hne].
  - left. split; [done|]. reflexivity.
  - right. split; [lia|]. apply Z.mod_small. lia.
Qed.

Section Handles.
Context `{Platform}.

(** Object and session handles are positions plus one, and the
    decrement the code applies to a handle wraps around for the handle
    0, which the unsigned range test then refuses. An object handle
    names an object exactly when it lies between 1 and the number of
    objects of the session; for any other handle
    [C_GetAttributeValue] returns [CKR_OBJECT_HANDLE_INVALID] and
    leaves the template alone, and the four [*-init] calls on an idle
    session return [CKR_KEY_HANDLE_INVALID] and leave the session
    alone. A session handle that names a session lies between 1 and
    [sess_list_count], so 0 is never a session handle. *)
Theorem handles_in_range :
  (forall (se : session) (h : Z),
      0 <= h < 2 ^ 64 ->
      Z.of_nat (length (se_obj_list se)) < 2 ^ 32 ->
      (is_Some (object_at se h)
       <-> 1 <= h <= Z.of_nat (length (se_obj_list se)))
      /\ (object_at se h = None ->
          forall template m,
            C_GetAttributeValue se h template
            = (template, CKR_OBJECT_HANDLE_INVALID)
            /\ (se_state se = NO_PENDING ->
                C_EncryptInit se (Some m) h = (CKR_KEY_HANDLE_INVALID, se)
                /\ C_DecryptInit se (Some m) h
                   = (CKR_KEY_HANDLE_INVALID, se)
                /\ C_SignInit se m h = (CKR_KEY_HANDLE_INVALID, se)
                /\ C_VerifyInit se m h = (CKR_KEY_HANDLE_INVALID, se))))
  /\ (forall (d : driver) (h : Z),
        driver_inv d -> 0 <= h < 2 ^ 64 ->
        is_Some (CHECKSESSION d h) ->
        1 <= h <= sess_list_count d
        /\ sess_list_count d <= Z.of_nat (length (sess_list d))
        /\ C_CloseSession d 0 = (CKR_SESSION_HANDLE_INVALID, d)).
Proof.
  split.
  - intros se h Hh Hlen. split.
    + unfold object_at.
      destruct (handle_index_cases h Hh) as [[-> Hi]|[H1 Hi]]; rewrite Hi.
      * destruct (_ >=? _) eqn:E; Zbool; [|lia].
        split; [by intros [? ?]|lia].
      * destruct (_ >=? _) eqn:E; Zbool.
        -- split; [by intros [? ?]|lia].
        -- split; [lia|]. intros _. apply lookup_lt_is_Some_2. lia.
    + intros Hnone template m. split.
      * unfold C_GetAttributeValue. by rewrite Hnone.
      * intros Hst.
        unfold C_EncryptInit, C_DecryptInit, C_SignInit, C_VerifyInit.
        rewrite Hnone, Hst. by rewrite bool_decide_eq_true_2.
  - intros d h [_ _ _ Hcount _ Hsize] Hh [[i se] Hc].
    assert (Hzero : CHECKSESSION d 0 = None).
    { unfold CHECKSESSION.
      change (handle_index 0) with (2 ^ 64 - 1).
      destruct (_ >=? _) eqn:E; Zbool; [done|].
      unfold UINT_MODULUS in *. lia. }
    split_and!.
    + destruct (CHECKSESSION_Some _ _ _ _ Hc) as (_ & Hlt & Hi).
      destruct (handle_index_cases h Hh) as [[-> Hi']|[H1 Hi']].
      * by rewrite Hzero in Hc.
      * lia.
    + destruct (CHECKSESSION_Some _ _ _ _ Hc) as (_ & Hlt & Hi).
      destruct (handle_index_cases h Hh) as [[-> Hi']|[H1 Hi']].
      * by rewrite Hzero in Hc.
      * lia.
    + lia.
    + unfold C_CloseSession. by rewrite Hzero.
Qed.
End Handles.

Lemma handles_in_range_witness :
  C_GetAttributeValue example_session 0 example_template
  = (example_template, CKR_OBJECT_HANDLE_INVALID)
  /\ @C_SignInit example_platform example_session example_mechanism 7
     = (CKR_KEY_HANDLE_INVALID, example_session).
Proof.
  destruct (@handles_in_range example_platform) as [Hobj _].
  destruct (Hobj example_session 0 ltac:(lia) ltac:(by vm_compute))
    as [_ H0].
  destruct (Hobj example_session 7 ltac:(lia) ltac:(by vm_compute))
    as [_ H7].
  split.
  - apply (H0 eq_refl example_template example_mechanism).
  - apply (H7 eq_refl example_template example_mechanism). reflexivity.
Defined.

(** *** Insertion and removal of tokens *)

Lemma find_free_slot_first l k j m :
  find_free_slot l k = Some j -> (k <= m < j)%nat ->
  exists a, l !! (m - k)%nat = Some (Some a).
Proof.
  revert k. induction l as [|s rest IH]; intros k; [done|]. cbn.
  destruct s as [a|].
  - intros Hf Hm. destruct (decide (m = k)) as [->|Hne].
    + rewrite Nat.sub_diag. by exists a.
    + destruct (IH (S k) Hf ltac:(lia)) as [a' Ha'].
      exists a'. replace (m - k)%nat with (S (m - S k)) by lia. done.
  - intros [= ->]. lia.
Qed.

Lemma find_free_slot_None l k i s :
  find_free_slot l k = None -> l !! i = Some s -> is_Some s.
Proof.
  revert k i. induction l as [|c rest IH]; intros k i; [done|]. cbn.
  destruct c as [a|]; [|done]. intros Hf.
  destruct i as [|i]; cbn.
  - intros [= <-]. by eexists.
  - by apply (IH (S k)).
Qed.

Section TokenSlots.
Context `{Platform}.

(** The insertion of a token. When the identity query fails the
    driver is unchanged; when no identity could be added the entry is
    freed again and slots, tokens and sessions are as before. A token
    with identities is stored in the first empty slot, or in a new
    slot at the end of the list when there is none: every other slot
    keeps its content, so the slot identifiers of the tokens already
    present do not change, and no session is touched. The entry starts
    with reference count 1, logged out, labelled with the label of its
    first identity, and with the objects built from its identities. *)
Theorem add_token_id_slots (d : driver) (tokenid : CFStringRef)
    (a : addr) (lac : option LAContext) :
  tokens d !! a = None ->
  add_token_id d tokenid a lac None = d
  /\ (let d' := add_token_id d tokenid a lac (Some []) in
      slot_list d' = slot_list d /\ tokens d' = tokens d
      /\ sess_list d' = sess_list d
      /\ la_trace d'
         = la_trace d ++ match lac with
                         | Some ctx => [la_free ctx]
                         | None => []
                         end)
  /\ (forall id0 ids,
        let d' := add_token_id d tokenid a lac (Some (id0 :: ids)) in
        (exists i : nat,
            slot_list d' !! i = Some (Some a)
            /\ (forall b, slot_list d !! i <> Some (Some b))
            /\ (forall j, (j < i)%nat ->
                  exists b, slot_list d !! j = Some (Some b))
            /\ (forall j, j <> i -> slot_list d' !! j = slot_list d !! j))
        /\ sess_list d' = sess_list d
        /\ sess_list_count d' = sess_list_count d
        /\ (forall b, b <> a -> tokens d' !! b = tokens d !! b)
        /\ tokens d' !! a
           = Some {| tok_tokenid := tokenid; tok_id_list := id0 :: ids;
                     tok_obj_list := build_id_objects (id0 :: ids);
                     tok_logged_in := false;
                     tok_label := Some (id_label id0);
                     tok_lacontext := lac; tok_refcount := 1 |}).
Proof.
  intros Ha. split_and!.
  - done.
  - cbn zeta. unfold add_token_id, slot_entry_free.
    cbn [tokens set_tokens]. rewrite lookup_insert_eq.
    cbn [tok_refcount set_refcount tok_lacontext].
    change ((1 - 1) mod UINT_MODULUS >? 0) with false. cbn iota.
    cbn [slot_list tokens sess_list la_trace log_events set_tokens].
    by rewrite delete_insert_id.
  - intros id0 ids. cbn zeta. unfold add_token_id.
    cbn [slot_list tokens sess_list sess_list_count set_slot_list
           set_tokens].
    rewrite lookup_insert_eq. split_and!; try done.
    + destruct (find_free_slot (slot_list d) 0) as [i|] eqn:Hf.
      * exists i. destruct (find_free_slot_Some _ _ _ Hf) as [_ Hi].
        rewrite Nat.sub_0_r in Hi. split_and!.
        -- apply list_lookup_insert_eq. by eapply lookup_lt_Some.
        -- intros b. by rewrite Hi.
        -- intros j Hj.
           destruct (find_free_slot_first _ 0 i j Hf ltac:(lia))
             as [b Hb].
           rewrite Nat.sub_0_r in Hb. by exists b.
        -- intros j Hj. by apply list_lookup_insert_ne.
      * exists (length (slot_list d)). split_and!.
        -- rewrite lookup_app_r by lia. by rewrite Nat.sub_diag.
        -- intros b Hb. apply lookup_lt_Some in Hb. lia.
        -- intros j Hj.
           destruct (lookup_lt_is_Some_2 (slot_list d) j Hj) as [s Hs].
           destruct (find_free_slot_None _ _ _ _ Hf Hs) as [b ->].
           by exists b.
        -- intros j Hj.
           destruct (decide (j < length (slot_list d))%nat).
           ++ by rewrite lookup_app_l by lia.
           ++ rewrite (lookup_ge_None_2 (slot_list d)) by lia.
              apply lookup_ge_None_2. rewrite length_app. cbn. lia.
    + intros b Hb. by rewrite lookup_insert_ne.
Qed.

End TokenSlots.

Lemma add_token_id_slots_witness :
  tokens (driver_init false) !! 0%nat = None
  /\ slot_list (@add_token_id example_platform (driver_init false) 7 0%nat
                  (Some 9) (Some []))
     = slot_list (driver_init false)
  /\ la_trace (@add_token_id example_platform (driver_init false) 7 0%nat
                 (Some 9) (Some []))
     = [la_free 9].
Proof.
  split; [reflexivity|].
  destruct (@add_token_id_slots example_platform (driver_init false) 7
              0%nat (Some 9) eq_refl) as (_ & Hempty & _).
  cbv zeta in Hempty. destruct Hempty as (Hs & _ & _ & Ht).
  split; [exact Hs|exact Ht].
Defined.


(** *** Listed slots and [C_OpenSession] *)

Lemma C_OpenSession_ok d slot_id mem :
  (C_OpenSession d slot_id CKF_SERIAL_SESSION mem).1.1 = CKR_OK
  <-> CHECKSLOT d slot_id true = None.
Proof.
  split.
  - unfold C_OpenSession.
    destruct (CHECKSLOT d slot_id true) as [rv|] eqn:Hs; [|done].
    cbn. intros ->. by apply CHECKSLOT_codes in Hs as [?|?].
  - intros Hs.
    destruct (C_OpenSession_stores d slot_id CKF_SERIAL_SESSION mem Hs)
      as (sess & d1 & _ & _ & _ & _ & Heq); [done|].
    by rewrite Heq.
Qed.

Lemma listed_slots_head d (s : Z) :
  s <> CERTIFICATE_SLOT ->
  s ∈ listed_slots d true <-> s ∈ listed_from true (slot_list d) 0.
Proof.
  intros Hne. unfold listed_slots. rewrite elem_of_app.
  split; [|by left]. intros [?|Hc]; [done|].
  destruct (cert_slot_enabled d); [|by apply elem_of_nil in Hc].
  by apply list_elem_of_singleton in Hc.
Qed.

(** The slots [C_GetSlotList] reports as holding a token are the slots
    [C_OpenSession] accepts, except for the certificate slot. A slot
    identifier other than [CERTIFICATE_SLOT] is among those stored by a
    successful [C_GetSlotList] with [token_present] set exactly when
    [C_OpenSession] with [CKF_SERIAL_SESSION] succeeds on it. The
    certificate slot, when enabled, is always stored, but until the
    certificate scan has finished [C_OpenSession] on it returns
    [CKR_TOKEN_NOT_PRESENT]. *)
Theorem listed_slots_can_be_opened (d : driver) (buf out : list Z)
    (n : Z) (mem : session) :
  Z.of_nat (length (slot_list d)) + 1 < UINT_MODULUS ->
  C_GetSlotList d true (Some buf) (Z.of_nat (length buf))
  = (CKR_OK, Some out, n) ->
  (forall s, s <> CERTIFICATE_SLOT ->
     s ∈ take (Z.to_nat n) out
     <-> 0 <= s
         /\ (C_OpenSession d s CKF_SERIAL_SESSION mem).1.1 = CKR_OK)
  /\ (cert_slot_enabled d = true ->
      CERTIFICATE_SLOT ∈ take (Z.to_nat n) out
      /\ (cert_list_status d <> initialized ->
          C_OpenSession d CERTIFICATE_SLOT CKF_SERIAL_SESSION mem
          = (CKR_TOKEN_NOT_PRESENT, d, None))).
Proof.
  intros Hsize Hget.
  pose proof (C_GetSlotList_cases d true (Some buf) (Z.of_nat (length buf))
                Hsize) as Hspec.
  cbv zeta in Hspec. destruct Hspec as (Hn & _ & Hsmall & _ & Hfill).
  pose proof (listed_slots_elem d true) as Hin.
  rewrite Hget in Hn. cbn in Hn. subst n.
  set (n := Z.of_nat (length (listed_slots d true))) in *.
  assert (Hfit : n <= Z.of_nat (length buf)).
  { destruct (decide (n <= Z.of_nat (length buf))) as [|Hgt]; [done|].
    rewrite (Hsmall buf eq_refl) in Hget by lia. done. }
  rewrite (Hfill buf eq_refl) in Hget by lia.
  injection Hget as <-.
  assert (Htake : take (Z.to_nat n) (listed_slots d true
                                     ++ drop (Z.to_nat n) buf)
                  = listed_slots d true).
  { subst n. rewrite Nat2Z.id. by rewrite take_app_length. }
  rewrite Htake. split.
  - intros s Hne. rewrite C_OpenSession_ok, Hin. split.
    + intros [[? _]|(Hs & cell & Hcell & Hpres)]; [done|].
      split; [done|]. unfold CHECKSLOT.
      rewrite (proj2 (Z.eqb_neq _ _) Hne). cbn [negb andb].
      pose proof (lookup_lt_Some _ _ _ Hcell) as Hlt.
      destruct (s >=? _) eqn:E; Zbool; [lia|].
      rewrite Hcell. destruct cell; [done|]. by destruct Hpres.
    + intros [Hs Hc]. right. split; [done|]. revert Hc. unfold CHECKSLOT.
      rewrite (proj2 (Z.eqb_neq _ _) Hne). cbn [negb andb].
      destruct (s >=? _); [done|].
      destruct (slot_list d !! Z.to_nat s) as [[a|]|] eqn:Hcell; try done.
      intros _. by exists (Some a).
  - intros Hc. split.
    + apply Hin. by left.
    + intros Hst. unfold C_OpenSession, CHECKSLOT.
      rewrite Z.eqb_refl, Hc. cbn [negb andb].
      by rewrite bool_decide_eq_false_2.
Qed.

Lemma listed_slots_can_be_opened_witness :
  Z.of_nat (length (slot_list example_driver)) + 1 < UINT_MODULUS
  /\ C_GetSlotList example_driver true (Some [9; 9]) 2
     = (CKR_OK, Some [0; 9], 1)
  /\ (C_OpenSession example_driver 0 CKF_SERIAL_SESSION example_session).1.1
     = CKR_OK.
Proof.
  assert (Hsize : Z.of_nat (length (slot_list example_driver)) + 1
                  < UINT_MODULUS) by (by vm_compute).
  assert (Hget : C_GetSlotList example_driver true (Some [9; 9])
                   (Z.of_nat (length [9; 9]))
                 = (CKR_OK, Some [0; 9], 1)) by (vm_compute; reflexivity).
  split; [exact Hsize|]. split; [exact Hget|].
  destruct (listed_slots_can_be_opened example_driver [9; 9] [0; 9] 1
              example_session Hsize Hget) as [Hopen _].
  apply (Hopen 0); [by vm_compute|]. apply list_elem_of_here.
Defined.

(** *** Multi-part signatures *)

Section MultiPart.
Context `{Platform}.

Lemma sign_updates_running se parts dalg mdc :
  se_state se = S_UPDATE -> se_dalg se = Some dalg ->
  se_mdc se = Some mdc ->
  sign_updates se parts
  = (replicate (length parts) CKR_OK,
     set_mdc (Some (fold_left cc_md_update parts mdc)) se).
Proof.
  revert se mdc. induction parts as [|part rest IH];
    intros se mdc Hst Hd Hm.
  - cbn. f_equal. destruct se. cbn in *. by subst.
  - cbn [sign_updates]. unfold C_SignUpdate, multipart_update.
    rewrite Hst, Hd, Hm.
    rewrite (bool_decide_eq_false_2 (S_UPDATE = S_INIT)) by done.
    rewrite bool_decide_eq_true_2 by done. cbn [negb andb mdc_update].
    rewrite (IH _ (cc_md_update mdc part)) by done.
    cbn [length replicate fold_left]. f_equal.
Qed.

(** A multi-part signature signs the digest of the parts. After a
    successful [C_SignInit] with a mechanism that has a digest-taking
    algorithm, every [C_SignUpdate] returns [CKR_OK], and
    [C_SignFinal] with a buffer that is large enough hands the digest
    context, fed with the parts in order, to [cc_md_final] and the
    result to [SecKeyCreateSignature] with the private key and the
    digest-taking algorithm; it returns [CKR_OK] with the signature
    and its length, and the session is idle again with no key. *)
Theorem multipart_signature (se : session) (mech : CK_MECHANISM) (h : Z)
    (obj : obj_info) (idp : id_info) (mm : mechanism_map)
    (algs : mech_algs) (dalg : SecKeyAlgorithm) (mdc0 : md_context)
    (part : list byte) (parts : list (list byte))
    (buf sigout : list byte) (siglen : Z) :
  se_state se = NO_PENDING ->
  object_at se h = Some obj -> obj_id obj = Some idp ->
  obj_class obj = CKO_PRIVATE_KEY -> privcansign idp = true ->
  mechmap_for mech CKF_SIGN = Some mm ->
  mech_param_validate mech mm = Some algs ->
  ma_dsignalg algs = Some dalg ->
  cc_md_init (ma_digest algs) = Some mdc0 ->
  SecKeyCreateSignature (Some (id_privkey idp)) (Some dalg)
    (cc_md_final (fold_left cc_md_update (part :: parts) mdc0))
  = Some sigout ->
  operation_outsize mm (id_privkey idp) <= siglen ->
  Z.of_nat (length sigout) <= siglen ->
  let se1 := (C_SignInit se mech h).2 in
  let se2 := (sign_updates se1 (part :: parts)).2 in
  let r := C_SignFinal se2 (Some buf) siglen in
  (C_SignInit se mech h).1 = CKR_OK
  /\ (sign_updates se1 (part :: parts)).1
     = replicate (S (length parts)) CKR_OK
  /\ se_state se2 = S_UPDATE
  /\ cr_rv r = CKR_OK
  /\ cr_out r = Some (memcpy buf sigout (Z.of_nat (length sigout)))
  /\ cr_outlen r = Z.of_nat (length sigout)
  /\ se_state (cr_session r) = NO_PENDING
  /\ se_key (cr_session r) = None.
Proof.
  intros Hst Hobj Hid Hcl Hsign Hmm Hval Hdalg Hinit Hsig Hout Hlen.
  assert (Hse1 : C_SignInit se mech h
                 = (CKR_OK,
                    set_state S_INIT
                      (set_outsize (operation_outsize mm (id_privkey idp))
                         (set_key (Some (id_privkey idp))
                            (set_hash_alg (ma_digest algs)
                               (set_dalg (ma_dsignalg algs)
                                  (set_alg (ma_signalg algs) se))))))).
  { unfold C_SignInit.
    rewrite Hst, Hobj, Hid, Hsign, Hcl, Hmm, Hval.
    by rewrite bool_decide_eq_true_2, Z.eqb_refl. }
  rewrite Hse1. cbn [fst snd]. set (se1 := set_state S_INIT _).
  assert (Hfirst : C_SignUpdate se1 part
                   = (CKR_OK,
                      set_mdc (Some (cc_md_update mdc0 part))
                              (set_state S_UPDATE se1))).
  { unfold C_SignUpdate, multipart_update. subst se1.
    cbn [se_state se_dalg se_hash_alg set_state set_outsize set_key
           set_hash_alg set_dalg set_alg].
    rewrite Hdalg, Hinit. by rewrite bool_decide_eq_true_2. }
  assert (Hups : sign_updates se1 (part :: parts)
                 = (replicate (S (length parts)) CKR_OK,
                    set_mdc (Some (fold_left cc_md_update (part :: parts)
                                             mdc0))
                            (set_state S_UPDATE se1))).
  { cbn [sign_updates]. rewrite Hfirst.
    rewrite (sign_updates_running _ parts dalg (cc_md_update mdc0 part));
      [done|done| |done].
    subst se1. cbn. exact Hdalg. }
  rewrite Hups. cbn [fst snd]. set (se2 := set_mdc _ _).
  split_and!; try done.
  all: unfold C_SignFinal; subst se2 se1;
    cbn [se_state se_outsize se_mdc se_key se_dalg set_mdc set_state
           set_outsize set_key set_hash_alg set_dalg set_alg mdc_final];
    rewrite bool_decide_eq_true_2 by done; cbn [negb];
    rewrite Hdalg, Hsig;
    destruct (negb _ && _) eqn:E1;
      [apply andb_true_iff in E1 as [_ E1]; Zbool; lia|];
    destruct (siglen <? _) eqn:E2; Zbool; [lia|]; done.
Qed.
End MultiPart.

Lemma multipart_signature_witness :
  se_state example_session = NO_PENDING
  /\ cr_rv (@C_SignFinal example_platform
              (@sign_updates example_platform
                 (@C_SignInit example_platform example_session
                    example_pss 3).2
                 [[Byte.x41]; [Byte.x42]]).2
              (Some (replicate 256 Byte.x00)) 256) = CKR_OK
  /\ cr_outlen (@C_SignFinal example_platform
                  (@sign_updates example_platform
                     (@C_SignInit example_platform example_session
                        example_pss 3).2
                     [[Byte.x41]; [Byte.x42]]).2
                  (Some (replicate 256 Byte.x00)) 256) = 2.
Proof.
  split; [reflexivity|].
  destruct (object_at example_session 3) as [obj|] eqn:Hobj;
    [|by vm_compute in Hobj].
  assert (Hid : obj_id obj = Some example_identity)
    by (vm_compute in Hobj; injection Hobj as <-; reflexivity).
  assert (Hcl : obj_class obj = CKO_PRIVATE_KEY)
    by (vm_compute in Hobj; injection Hobj as <-; reflexivity).
  assert (Hmm : @mechmap_for example_platform example_pss CKF_SIGN
                = Some {| cki_mech := CKM_RSA_PKCS_PSS; usage_flags := 0x2800;
                          blocksize_out := true; parameters := PSS;
                          sec_encmech := None; sec_signmech := None;
                          sec_dsignmech := None; sec_digest := 0 |})
    by (vm_compute; reflexivity).
  assert (Hval : @mech_param_validate example_platform example_pss
                   {| cki_mech := CKM_RSA_PKCS_PSS; usage_flags := 0x2800;
                      blocksize_out := true; parameters := PSS;
                      sec_encmech := None; sec_signmech := None;
                      sec_dsignmech := None; sec_digest := 0 |}
                 = Some {| ma_encalg := None; ma_signalg := Some 4;
                           ma_dsignalg := Some 5; ma_digest := CKM_SHA256 |})
    by (vm_compute; reflexivity).
  assert (Hmd : @cc_md_init example_platform CKM_SHA256
                = Some {| md_mech := CKM_SHA256; md_data := [] |})
    by (vm_compute; reflexivity).
  assert (Hsig : @SecKeyCreateSignature example_platform
                   (Some (id_privkey example_identity)) (Some 5)
                   (@cc_md_final example_platform
                      (fold_left cc_md_update
                         [[Byte.x41]; [Byte.x42]]
                         {| md_mech := CKM_SHA256; md_data := [] |}))
                 = Some [Byte.x41; Byte.x42])
    by (vm_compute; reflexivity).
  assert (Hout : @operation_outsize example_platform
                   {| cki_mech := CKM_RSA_PKCS_PSS; usage_flags := 0x2800;
                      blocksize_out := true; parameters := PSS;
                      sec_encmech := None; sec_signmech := None;
                      sec_dsignmech := None; sec_digest := 0 |}
                   (id_privkey example_identity) <= 256)
    by (by vm_compute).
  assert (Hlen : Z.of_nat (length [Byte.x41; Byte.x42]) <= 256)
    by (by vm_compute).
  pose proof (@multipart_signature example_platform example_session
                example_pss 3 obj example_identity _ _ 5 _
                [Byte.x41] [[Byte.x42]] (replicate 256 Byte.x00)
                [Byte.x41; Byte.x42] 256
                eq_refl Hobj Hid Hcl eq_refl Hmm Hval eq_refl Hmd Hsig
                Hout Hlen) as Hspec.
  cbv zeta in Hspec.
  destruct Hspec as (_ & _ & _ & Hrv & _ & Hl & _).
  split; [exact Hrv|exact Hl].
Defined.
